(** * Runway page renderer: a shallow embedding of [PageRenderer.tsx] and of
    the route handlers, with the properties of the natural-language
    specification stated and settled against it.

    Conventions.
    - A JavaScript string is a [string]: a sequence of code units, here the
      code units below 256.
    - [null] results are [None]; an exception is [None] in the functions
      whose source wraps them in [try]/[catch].
    - Browser services that are not code of the repository (the URL parser,
      the HTML parser and serialiser, [JSON.parse]) are parameters of the
      sections that use them; reference instances for a small, documented
      fragment of their input language are given for concrete evaluation. *)

From Stdlib Require Import String Ascii List Bool Arith NArith Lia.
Import ListNotations.
Open Scope string_scope.
Open Scope bool_scope.

(* ===================================================================== *)
(** * JavaScript string primitives *)
(* ===================================================================== *)

Module JsString.

Definition code (c : ascii) : N := N_of_ascii c.

Definition in_range (lo hi c : ascii) : bool :=
  (code lo <=? code c)%N && (code c <=? code hi)%N.

Definition is_lower (c : ascii) : bool := in_range "a" "z" c.
Definition is_upper (c : ascii) : bool := in_range "A" "Z" c.
Definition is_digit (c : ascii) : bool := in_range "0" "9" c.
Definition is_alpha (c : ascii) : bool := is_lower c || is_upper c.

(** [\w] of a regular expression without the unicode flag. *)
Definition is_word (c : ascii) : bool :=
  is_alpha c || is_digit c || Ascii.eqb c "_".

(** [\s]: tab, line feed, vertical tab, form feed, carriage return, space
    and the no-break space (code unit 160). *)
Definition is_space (c : ascii) : bool :=
  let n := code c in
  ((9 <=? n)%N && (n <=? 13)%N) || (n =? 32)%N || (n =? 160)%N.

Definition to_upper (c : ascii) : ascii :=
  if is_lower c then ascii_of_N (code c - 32) else c.

Definition to_lower (c : ascii) : ascii :=
  if is_upper c then ascii_of_N (code c + 32) else c.

Fixpoint toLowerCase (s : string) : string :=
  match s with
  | EmptyString => EmptyString
  | String c t => String (to_lower c) (toLowerCase t)
  end.

(** [s.startsWith(p)] *)
Fixpoint startsWith (s p : string) {struct p} : bool :=
  match p with
  | EmptyString => true
  | String c p' =>
      match s with
      | String a s' => Ascii.eqb a c && startsWith s' p'
      | EmptyString => false
      end
  end.

(** [s.includes(p)] *)
Fixpoint includes (s p : string) : bool :=
  startsWith s p ||
  match s with
  | EmptyString => false
  | String _ t => includes t p
  end.

Fixpoint rev_string (s acc : string) : string :=
  match s with
  | EmptyString => acc
  | String c t => rev_string t (String c acc)
  end.

Definition reverse (s : string) : string := rev_string s EmptyString.

(** [s.endsWith(p)] *)
Definition endsWith (s p : string) : bool :=
  startsWith (reverse s) (reverse p).

(** [s.slice(0, -1)] *)
Fixpoint dropLast (s : string) : string :=
  match s with
  | EmptyString => EmptyString
  | String c EmptyString => EmptyString
  | String c t => String c (dropLast t)
  end.

(** [s.substring(0, n)] *)
Fixpoint take (n : nat) (s : string) : string :=
  match n, s with
  | S n', String c t => String c (take n' t)
  | _, _ => EmptyString
  end.

Fixpoint drop (n : nat) (s : string) : string :=
  match n, s with
  | S n', String _ t => drop n' t
  | _, _ => s
  end.

(** [s.split(c)] for a one-character separator: the pieces between the
    separators, [[""]] for the empty string. *)
Fixpoint split (sep : ascii) (s : string) : list string :=
  match s with
  | EmptyString => [EmptyString]
  | String c t =>
      if Ascii.eqb c sep then EmptyString :: split sep t
      else match split sep t with
           | [] => [String c EmptyString]
           | p :: ps => String c p :: ps
           end
  end.

(** [s.split(c)[0]] *)
Fixpoint beforeFirst (sep : ascii) (s : string) : string :=
  match s with
  | EmptyString => EmptyString
  | String c t => if Ascii.eqb c sep then EmptyString
                  else String c (beforeFirst sep t)
  end.

(** [s.replace(/c/g, d)] for single characters. *)
Fixpoint replaceChar (c d : ascii) (s : string) : string :=
  match s with
  | EmptyString => EmptyString
  | String a t => String (if Ascii.eqb a c then d else a) (replaceChar c d t)
  end.

(** [s.replace(p, r)] with a string pattern: only the first occurrence,
    wherever it is, is replaced. *)
Fixpoint replaceFirst (p r s : string) : string :=
  if startsWith s p then r ++ drop (String.length p) s
  else match s with
       | EmptyString => EmptyString
       | String c t => String c (replaceFirst p r t)
       end.

Fixpoint trimStart (s : string) : string :=
  match s with
  | String c t => if is_space c then trimStart t else s
  | EmptyString => EmptyString
  end.

(** [s.trim()] *)
Definition trim (s : string) : string :=
  reverse (trimStart (reverse (trimStart s))).

(** The double quote, as a character and as a string. *)
Definition DQ : ascii := ascii_of_N 34.
Definition dq : string := String DQ EmptyString.

(** The backslash. *)
Definition BS : ascii := ascii_of_N 92.
Definition bs : string := String BS EmptyString.

(** JavaScript truthiness of a string. *)
Definition truthy (s : string) : bool :=
  match s with EmptyString => false | _ => true end.

(** [s || d] on strings. *)
Definition orElse (s d : string) : string := if truthy s then s else d.

(** [s || null] *)
Definition orNull (s : string) : option string :=
  if truthy s then Some s else None.

Fixpoint join (sep : string) (l : list string) : string :=
  match l with
  | [] => EmptyString
  | [x] => x
  | x :: l' => x ++ sep ++ join sep l'
  end.

End JsString.

Import JsString.

(* ===================================================================== *)
(** * Regular expressions

    A backtracking matcher in continuation-passing style, with the choice
    order of ECMAScript: alternatives left to right, quantifiers greedy,
    an iteration of a star refused when it consumes nothing. *)
(* ===================================================================== *)

Module Regex.

Inductive regex : Type :=
| Eps
| Chr (c : ascii)
| Cls (negated : bool) (p : ascii -> bool)
| Seq (r1 r2 : regex)
| Alt (r1 r2 : regex)
| Star (r : regex)
| Grp (i : nat) (r : regex)
| Bol
| Eol
| Wb.

Definition Plus (r : regex) : regex := Seq r (Star r).
Definition Opt (r : regex) : regex := Alt r Eps.

(** The literal [s] as a sequence of characters. *)
Fixpoint Lit (s : string) : regex :=
  match s with
  | EmptyString => Eps
  | String c EmptyString => Chr c
  | String c t => Seq (Chr c) (Lit t)
  end.

Definition Seqs (l : list regex) : regex := fold_right Seq Eps l.

Definition digit : regex := Cls false is_digit.
Definition space : regex := Cls false is_space.
Definition oneOf (s : string) : ascii -> bool :=
  fun c => existsb (Ascii.eqb c) (list_ascii_of_string s).

Record mstate : Type := mkState {
  prev : option ascii;
  rest : string;
  caps : list (nat * string)
}.

Definition chr_eq (ci : bool) (a c : ascii) : bool :=
  if ci then Ascii.eqb (to_upper a) (to_upper c) else Ascii.eqb a c.

Definition cls_mem (ci : bool) (p : ascii -> bool) (a : ascii) : bool :=
  if ci then p a || p (to_upper a) || p (to_lower a) else p a.

Definition word_opt (o : option ascii) : bool :=
  match o with Some c => is_word c | None => false end.

Definition next_char (s : string) : option ascii :=
  match s with String c _ => Some c | EmptyString => None end.

Definition consumed (from to : mstate) : string :=
  take (String.length (rest from) - String.length (rest to)) (rest from).

Fixpoint rmatch (ci : bool) (r : regex) (st : mstate)
         (k : mstate -> option mstate) {struct r} : option mstate :=
  match r with
  | Eps => k st
  | Chr c =>
      match rest st with
      | String a t =>
          if chr_eq ci a c then k (mkState (Some a) t (caps st)) else None
      | EmptyString => None
      end
  | Cls neg p =>
      match rest st with
      | String a t =>
          if xorb neg (cls_mem ci p a)
          then k (mkState (Some a) t (caps st)) else None
      | EmptyString => None
      end
  | Seq r1 r2 => rmatch ci r1 st (fun st' => rmatch ci r2 st' k)
  | Alt r1 r2 =>
      match rmatch ci r1 st k with
      | Some x => Some x
      | None => rmatch ci r2 st k
      end
  | Star r1 =>
      (fix loop (n : nat) (st : mstate) {struct n} : option mstate :=
         match n with
         | O => k st
         | S n' =>
             match rmatch ci r1 st
                     (fun st' =>
                        if Nat.ltb (String.length (rest st')) (String.length (rest st))
                        then loop n' st' else None) with
             | Some x => Some x
             | None => k st
             end
         end) (String.length (rest st)) st
  | Grp i r1 =>
      rmatch ci r1 st
        (fun st' => k (mkState (prev st') (rest st')
                         ((i, consumed st st') :: caps st')))
  | Bol => match prev st with None => k st | Some _ => None end
  | Eol => match rest st with EmptyString => k st | _ => None end
  | Wb =>
      if xorb (word_opt (prev st)) (word_opt (next_char (rest st)))
      then k st else None
  end.

(** A match of [r] starting exactly at the head of [s]: the matched text
    and the captures. *)
Definition matchHere (ci : bool) (r : regex) (p : option ascii) (s : string)
  : option (string * list (nat * string)) :=
  let st0 := mkState p s [] in
  match rmatch ci r st0 Some with
  | Some st' => Some (consumed st0 st', caps st')
  | None => None
  end.

(** Capture [i] of a match, [""] when the group did not take part. *)
Fixpoint cap (i : nat) (cs : list (nat * string)) : string :=
  match cs with
  | [] => EmptyString
  | (j, s) :: cs' => if Nat.eqb i j then s else cap i cs'
  end.

(** [s.replace(/r/g, f)]: every match, leftmost first, is replaced by the
    value of the callback on the matched text and its captures. [skip]
    counts the characters of the match in progress still to pass over. *)
Fixpoint replaceAllFrom (ci : bool) (r : regex)
         (f : string -> list (nat * string) -> string)
         (p : option ascii) (skip : nat) (s : string) : string :=
  match skip with
  | S skip' =>
      match s with
      | EmptyString => EmptyString
      | String c t => replaceAllFrom ci r f (Some c) skip' t
      end
  | O =>
      match matchHere ci r p s with
      | Some (m, cs) =>
          match s with
          | EmptyString => f m cs
          | String c t =>
              match String.length m with
              | O => f m cs ++ String c (replaceAllFrom ci r f (Some c) 0 t)
              | S n => f m cs ++ replaceAllFrom ci r f (Some c) n t
              end
          end
      | None =>
          match s with
          | EmptyString => EmptyString
          | String c t => String c (replaceAllFrom ci r f (Some c) 0 t)
          end
      end
  end.

Definition replaceAllWith (ci : bool) (r : regex)
           (f : string -> list (nat * string) -> string) (s : string) : string :=
  replaceAllFrom ci r f None 0 s.

(** [s.replace(/r/g, t)] with a replacement text without [$]. *)
Definition replaceAll (ci : bool) (r : regex) (t s : string) : string :=
  replaceAllWith ci r (fun _ _ => t) s.

(** The leftmost match of [r] in [s]: the text before it, the match, the
    captures and the text after it. *)
Fixpoint searchFrom (ci : bool) (r : regex) (p : option ascii) (s : string)
  : option (string * string * list (nat * string) * string) :=
  match matchHere ci r p s with
  | Some (m, cs) => Some (EmptyString, m, cs, drop (String.length m) s)
  | None =>
      match s with
      | EmptyString => None
      | String c t =>
          match searchFrom ci r (Some c) t with
          | Some (b, m, cs, a) => Some (String c b, m, cs, a)
          | None => None
          end
      end
  end.

Definition search (ci : bool) (r : regex) (s : string) :=
  searchFrom ci r None s.

(** [r.test(s)], [!!s.match(r)] *)
Definition test (ci : bool) (r : regex) (s : string) : bool :=
  match search ci r s with Some _ => true | None => false end.

(** [s.replace(/r/, f)] without the global flag: the first match only. *)
Definition replaceFirstWith (ci : bool) (r : regex)
           (f : string -> list (nat * string) -> string) (s : string) : string :=
  match search ci r s with
  | Some (b, m, cs, a) => b ++ f m cs ++ a
  | None => s
  end.

End Regex.

Import Regex.

(* ===================================================================== *)
(** * Occurrences of a word in a text

    What a search for [/w/i] and for [/\bw\b/i] finds at one place of a
    text, read off the text itself, and the two tests on a word by which
    a replacement text that is put in the place of a match cannot become
    part of a new occurrence. *)
(* ===================================================================== *)

Module Scan.

(** [s] starts with [w], the case of the letters apart. *)
Fixpoint startsWithCI (s w : string) {struct w} : bool :=
  match w with
  | EmptyString => true
  | String a w' =>
      match s with
      | String c s' => chr_eq true c a && startsWithCI s' w'
      | EmptyString => false
      end
  end.

(** The character before the place [n] characters into [s], [p] being
    the character before [s]. *)
Fixpoint prevAfter (p : option ascii) (n : nat) (s : string) : option ascii :=
  match n, s with
  | S n', String c t => prevAfter (Some c) n' t
  | _, _ => p
  end.

(** [w] stands at the head of [s] between two word boundaries, [p] being
    the character before [s]. *)
Definition occursAt (w : string) (p : option ascii) (s : string) : bool :=
  xorb (word_opt p) (word_opt (next_char s)) &&
  startsWithCI s w &&
  xorb (word_opt (prevAfter p (String.length w) s))
       (word_opt (next_char (drop (String.length w) s))).

(** [u] and [rep] agree, the case apart, as far as both go. *)
Fixpoint compatible (u rep : string) : bool :=
  match u, rep with
  | String a u', String b rep' => chr_eq true b a && compatible u' rep'
  | _, _ => true
  end.

(** No match that is replaced by [rep] can begin inside [u] and leave
    [u] standing: at every place of [u], either a match cannot begin
    (the search is word-bounded and the character before is a word
    character) or [rep] differs from what is left of [u]. [prevWord]
    tells whether the character before [u] is a word character. *)
Fixpoint safe (bounded : bool) (rep : string) (prevWord : bool) (u : string) : bool :=
  match u with
  | EmptyString => true
  | String a u' =>
      ((bounded && prevWord) || negb (compatible u rep))
      && safe bounded rep (is_word a) u'
  end.

(** Two words that differ in the case of their letters only. *)
Fixpoint sameCI (v w : string) : bool :=
  match v, w with
  | EmptyString, EmptyString => true
  | String a v', String b w' => chr_eq true a b && sameCI v' w'
  | _, _ => false
  end.

End Scan.

(* ===================================================================== *)
(** * URL objects

    [new URL(input, base)] is a service of the browser. The functions of
    the renderer read two fields of the object it builds, [hostname] and
    [pathname]; they take the constructor as a parameter, [None] standing
    for the [TypeError] it throws. *)
(* ===================================================================== *)

Module Url.

Record URL : Type := mkURL {
  protocol : string;
  hostname : string;
  pathname : string;
  search : string;
  hash : string
}.

(** The type of [new URL(input, base)], [base] absent in the one-argument
    form. *)
Definition constructor : Type := string -> option string -> option URL.

(** ** A reference constructor

    It follows the URL Standard on this fragment of its input language:
    schemes [http], [https], [ws], [wss], [ftp] with a host made of ASCII
    letters, digits, [-], [_] and [.] that does not end in a number and has
    no [xn--] label; other schemes with an opaque path or a path starting
    with a single slash; scheme-less input against a base of the first
    kind; no backslash, control or non-ASCII character; a path of the
    characters the standard leaves as they are or percent-encodes (space,
    double quote, [<], [>], backquote, [{], [}]); dot segments without percent-encoding; a
    query and a fragment of characters the standard leaves as they are.
    Outside the fragment it answers [None] although a browser may build an
    object; nothing below evaluates it there. *)

Definition special_scheme (s : string) : bool :=
  existsb (String.eqb s) ["http"; "https"; "ws"; "wss"; "ftp"].

Fixpoint scan_scheme (s : string) : option (string * string) :=
  match s with
  | String c t =>
      if Ascii.eqb c ":" then Some (EmptyString, t)
      else if is_alpha c || is_digit c || oneOf "+-." c then
        match scan_scheme t with
        | Some (a, r) => Some (String (to_lower c) a, r)
        | None => None
        end
      else None
  | EmptyString => None
  end.

Definition take_scheme (s : string) : option (string * string) :=
  match s with
  | String c _ => if is_alpha c then scan_scheme s else None
  | EmptyString => None
  end.

(** [s] cut at the first [sep]: the text before it, and the text after it
    when there is one. *)
Fixpoint cut (sep : ascii) (s : string) : string * option string :=
  match s with
  | EmptyString => (EmptyString, None)
  | String c t =>
      if Ascii.eqb c sep then (EmptyString, Some t)
      else let (a, b) := cut sep t in (String c a, b)
  end.

Fixpoint afterLast (sep : ascii) (s : string) : string :=
  match s with
  | EmptyString => EmptyString
  | String c t =>
      if Ascii.eqb c sep && negb (includes t (String sep EmptyString))
      then t
      else if includes t (String sep EmptyString) then afterLast sep t
      else s
  end.

Fixpoint dropSlashes (s : string) : string :=
  match s with
  | String "/" t => dropSlashes t
  | _ => s
  end.

Definition hexDigit (n : N) : ascii :=
  if (n <? 10)%N then ascii_of_N (48 + n) else ascii_of_N (55 + n).

Definition percent (c : ascii) : string :=
  String "%" (String (hexDigit (code c / 16)) (String (hexDigit (code c mod 16)) EmptyString)).

Definition path_kept (c : ascii) : bool :=
  is_alpha c || is_digit c || oneOf "-._~!$&'()*+,;=:@%[]|" c.

Definition path_encoded (c : ascii) : bool :=
  oneOf " <>`{}" c || Ascii.eqb c DQ.

Fixpoint encode_segment (s : string) : option string :=
  match s with
  | EmptyString => Some EmptyString
  | String c t =>
      match encode_segment t with
      | None => None
      | Some t' =>
          if path_kept c then Some (String c t')
          else if path_encoded c then Some (percent c ++ t')
          else None
      end
  end.

Definition plain_char (c : ascii) : bool :=
  is_alpha c || is_digit c || oneOf "-._~!$&()*+,;=:@%/?[]|" c.

Fixpoint all_chars (p : ascii -> bool) (s : string) : bool :=
  match s with
  | EmptyString => true
  | String c t => p c && all_chars p t
  end.

Definition host_char (c : ascii) : bool :=
  is_alpha c || is_digit c || oneOf "-_." c.

Definition last_label (h : string) : string :=
  let h' := if endsWith h "." then dropLast h else h in
  afterLast "." h'.

Definition ends_in_number (h : string) : bool :=
  let l := last_label h in
  (truthy l && all_chars is_digit l) || startsWith (toLowerCase l) "0x".

Definition has_punycode_label (h : string) : bool :=
  existsb (fun l => startsWith l "xn--") (split "." (toLowerCase h)).

(** The host of an authority: credentials before the last [@] and a port
    after [:] are dropped; a port that is not a number below 65536 and an
    empty host are failures. *)
Fixpoint port_value (p : string) (acc : N) : N :=
  match p with
  | EmptyString => acc
  | String c t => port_value t (10 * acc + (code c - 48))%N
  end.

Definition port_ok (p : string) : bool :=
  all_chars is_digit p && (port_value p 0 <=? 65535)%N.

Definition parse_host (authority : string) : option string :=
  let hp := afterLast "@" authority in
  let (h, port) := cut ":" hp in
  let ok_port := match port with None => true | Some p => port_ok p end in
  if ok_port && truthy h && all_chars host_char h
     && negb (ends_in_number h) && negb (has_punycode_label h)
  then Some (toLowerCase h) else None.

Definition single_dot (s : string) : bool := String.eqb s ".".
Definition double_dot (s : string) : bool := String.eqb s "..".

(** The path state: [segs] is the path so far, last segment first. *)
Fixpoint path_state (segs : list string) (pieces : list string)
  : option (list string) :=
  match pieces with
  | [] => Some segs
  | p :: ps =>
      let at_end := match ps with [] => true | _ => false end in
      if includes (toLowerCase p) "%2e" then None
      else if double_dot p then
        path_state (if at_end then EmptyString :: tl segs else tl segs) ps
      else if single_dot p then
        path_state (if at_end then EmptyString :: segs else segs) ps
      else match encode_segment p with
           | Some p' => path_state (p' :: segs) ps
           | None => None
           end
  end.

Definition serialize_path (segs : list string) : string :=
  String.concat EmptyString (map (fun s => "/" ++ s) (rev segs)).

Definition with_query (q : option string) : string :=
  match q with
  | Some q' => if truthy q' then "?" ++ q' else EmptyString
  | None => EmptyString
  end.

Definition with_fragment (f : option string) : string :=
  match f with
  | Some f' => if truthy f' then "#" ++ f' else EmptyString
  | None => EmptyString
  end.

(** A special URL from its authority and the text after it. *)
Definition special_from_authority (scheme s : string) (q f : option string)
  : option URL :=
  let (authority, p) := cut "/" (dropSlashes s) in
  match parse_host authority,
        path_state [] (split "/" (match p with Some p' => p' | None => EmptyString end)) with
  | Some h, Some segs =>
      Some (mkURL (scheme ++ ":") h (serialize_path segs)
                  (with_query q) (with_fragment f))
  | _, _ => None
  end.

(** The segments of a serialised path, last first. *)
Definition path_segments (p : string) : list string :=
  rev (tl (split "/" p)).

(** Scheme-less input, or input of the scheme of the base, resolved
    against a base with a host. *)
Definition relative_to (b : URL) (s : string) (q f : option string)
  : option URL :=
  let scheme := dropLast (protocol b) in
  if startsWith s "//" then special_from_authority scheme s q f
  else
    let segs0 :=
      match s with
      | EmptyString => Some (path_segments (pathname b))
      | String "/" t => path_state [] (split "/" t)
      | _ => path_state (tl (path_segments (pathname b))) (split "/" s)
      end in
    match segs0 with
    | Some segs =>
        Some (mkURL (protocol b) (hostname b) (serialize_path segs)
                (match s, q with
                 | EmptyString, None => search b
                 | _, _ => with_query q
                 end)
                (with_fragment f))
    | None => None
    end.

Definition removeTabNewline (s : string) : string :=
  string_of_list_ascii
    (filter (fun c => negb (oneOf (String (ascii_of_N 9) (String (ascii_of_N 10) (String (ascii_of_N 13) EmptyString))) c))
            (list_ascii_of_string s)).

Fixpoint trimC0 (s : string) : string :=
  match s with
  | String c t => if (code c <=? 32)%N then trimC0 t else s
  | EmptyString => EmptyString
  end.

Definition preprocess (s : string) : string :=
  removeTabNewline (reverse (trimC0 (reverse (trimC0 s)))).

Definition in_fragment (s : string) : bool :=
  all_chars (fun c => plain_char c || path_encoded c || oneOf "#'" c) s.

(** An opaque path keeps every printable ASCII character. *)
Definition parse_with (base : option URL) (input : string) : option URL :=
  let s0 := preprocess input in
  if negb (in_fragment s0) then None else
  let (s1, f) := cut "#" s0 in
  let (s2, q) := cut "?" s1 in
  let plain o := match o with Some x => all_chars plain_char x | None => true end in
  if negb (plain q && plain f) then None else
  match take_scheme s2 with
  | Some (scheme, r) =>
      if special_scheme scheme then
        match base with
        | Some b =>
            if String.eqb (protocol b) (scheme ++ ":") && negb (startsWith r "//")
            then relative_to b r q f
            else special_from_authority scheme r q f
        | None => special_from_authority scheme r q f
        end
      else if String.eqb scheme "file" then None
      else if startsWith r "//" then None
      else match r with
           | String "/" t =>
               match path_state [] (split "/" t) with
               | Some segs =>
                   Some (mkURL (scheme ++ ":") EmptyString (serialize_path segs)
                           (with_query q) (with_fragment f))
               | None => None
               end
           | _ =>
               if all_chars (fun c => plain_char c || path_encoded c || Ascii.eqb c "'") r
               then Some (mkURL (scheme ++ ":") EmptyString r
                            (with_query q) (with_fragment f))
               else None
           end
  | None =>
      match base with
      | Some b => relative_to b s2 q f
      | None => None
      end
  end.

Definition reference : constructor :=
  fun input base =>
    match base with
    | None => parse_with None input
    | Some b =>
        match parse_with None b with
        | Some bu => parse_with (Some bu) input
        | None => None
        end
    end.

End Url.

Import Url.

(* ===================================================================== *)
(** * Asset remap: [getAssetFilename] and [fixAssetUrl] *)
(* ===================================================================== *)

Definition siteBase : string := "https://alluredigital.net".

(** [/-\d+x\d+(\.[a-z]+)$/i] *)
Definition sizeSuffix : regex :=
  Seqs [Chr "-"; Plus digit; Chr "x"; Plus digit;
        Grp 1 (Seq (Chr ".") (Plus (Cls false is_lower))); Eol].

(** [filename.replace(/-\d+x\d+(\.[a-z]+)$/i, '$1')] *)
Definition stripSizeSuffix (filename : string) : string :=
  replaceFirstWith true sizeSuffix (fun _ cs => cap 1 cs) filename.

(** [/rimalweb\.net/gi] *)
Definition rimalwebNet : regex := Lit "rimalweb.net".

Section AssetRemap.

Variable newURL : Url.constructor.

(** [urlObj.pathname.split('/').filter(p => p)] *)
Definition pathParts (urlObj : URL) : list string :=
  filter truthy (split "/" (pathname urlObj)).

(** The body of the [/litespeed/] branch. *)
Definition litespeedBranch (urlObj : URL) : option string :=
  let domain := replaceFirst "www." "" (hostname urlObj) in
  let fullPath := domain ++ pathname urlObj in
  let filename := replaceChar "/" "_" fullPath in
  let filename := hd EmptyString (split "?" filename) in
  orNull filename.

(** The body of the [/wp-content/uploads/] branch. *)
Definition uploadsBranch (urlObj : URL) : option string :=
  let domain := replaceFirst "www." "" (hostname urlObj) in
  let fullPath := domain ++ pathname urlObj in
  let filename := replaceChar "/" "_" fullPath in
  let filename := hd EmptyString (split "?" filename) in
  orNull filename.

(** The fall-through. *)
Definition generalBranch (urlObj : URL) : option string :=
  let domain := replaceFirst "www." "" (hostname urlObj) in
  let fullPath := domain ++ pathname urlObj in
  let filename := replaceChar "/" "_" fullPath in
  let filename := hd EmptyString (split "?" filename) in
  orNull filename.

Definition getAssetFilename (url : string) : option string :=
  match newURL url (Some siteBase) with
  | None => None
  | Some urlObj =>
      if Nat.eqb (List.length (pathParts urlObj)) 0 then None
      else if includes (pathname urlObj) "/litespeed/" then
        litespeedBranch urlObj
      else if includes (pathname urlObj) "/wp-content/uploads/" then
        uploadsBranch urlObj
      else generalBranch urlObj
  end.

(** [if (filename) return `/assets/${stripped}`], the tail shared by the
    two lookups of [fixAssetUrl]. *)
Definition assetPath (filename : option string) : option string :=
  match filename with
  | Some f =>
      if truthy f then Some ("/assets/" ++ stripSizeSuffix f) else None
  | None => None
  end.

Definition fixAssetUrl (url : string) : string :=
  if negb (truthy url) || startsWith url "data:" || startsWith url "/assets/"
  then url
  else
    let first :=
      if includes url "alluredigital.net" || startsWith url "http"
      then assetPath (getAssetFilename url) else None in
    match first with
    | Some r => r
    | None =>
        let second :=
          if includes url "rimalweb.net" || includes url "Rimalweb.net"
          then
            let originalUrl := replaceAll true rimalwebNet "alluredigital.net" url in
            assetPath (getAssetFilename originalUrl)
          else None in
        match second with
        | Some r => r
        | None => url
        end
    end.

End AssetRemap.

(** The rule of the specification for the file name: the host name
    without a leading [www.], then the path, slashes as underscores, cut at
    the first [?]. *)
Definition stripLeading (p s : string) : string :=
  if startsWith s p then drop (String.length p) s else s.

Definition specAssetName (u : URL) : string :=
  beforeFirst "?" (replaceChar "/" "_" (stripLeading "www." (hostname u) ++ pathname u)).

(** The rule the code follows: the first [www.] of the host name is
    removed wherever it stands. *)
Definition codeAssetName (u : URL) : string :=
  beforeFirst "?" (replaceChar "/" "_" (replaceFirst "www." "" (hostname u) ++ pathname u)).

Definition noQueryMark (s : string) : bool :=
  Url.all_chars (fun c => negb (Ascii.eqb c "?")) s.

(** The single rule of the specification, with the guards of the function
    around it. *)
Definition ruleWith (name : URL -> string) (newURL : Url.constructor)
           (url : string) : option string :=
  match newURL url (Some siteBase) with
  | None => None
  | Some u =>
      match pathParts u with
      | [] => None
      | _ :: _ => orNull (name u)
      end
  end.

Definition specRule : Url.constructor -> string -> option string :=
  ruleWith specAssetName.

Definition codeRule : Url.constructor -> string -> option string :=
  ruleWith codeAssetName.

(* ===================================================================== *)
(** * Route handlers

    Every [page.tsx] reads one scraped page with [readFileSync] and returns
    a [PageRenderer] element. The file system is a parameter: a partial map
    from paths to file contents, [None] where [readFileSync] throws. A
    handler that throws is [None]. *)
(* ===================================================================== *)

Module Routes.

Definition FileSystem : Type := string -> option string.

(** What a handler renders. *)
Inductive Element : Type :=
| PageRendererElement (html : string)
| ErrorDiv (message : string).

(** [join(process.cwd(), 'allure_out', 'pages', name)] *)
Definition pagePath (cwd name : string) : string :=
  JsString.join "/" [cwd; "allure_out"; "pages"; name].

Definition Handler : Type := string -> FileSystem -> option Element.

Definition readThen (fs : FileSystem) (path : string)
           (k : string -> Element) : option Element :=
  match fs path with
  | Some htmlContent => Some (k htmlContent)
  | None => None
  end.

(** [.replace(/pattern/gi, text)] for a pattern without operators. *)
Definition sub (pattern text : string) (s : string) : string :=
  replaceAll true (Lit pattern) text s.

(** A chain [s.replace(..).replace(..)...], first replacement first. *)
Definition chain (fs : list (string -> string)) (s : string) : string :=
  fold_left (fun acc f => f acc) fs s.

Definition Home : Handler := fun cwd fs =>
  readThen fs (pagePath cwd "page_0004.html") PageRendererElement.

Definition TechnicalSEO : Handler := fun cwd fs =>
  readThen fs (pagePath cwd "page_0010.html") PageRendererElement.

Definition ShopifyDevelopment : Handler := fun cwd fs =>
  readThen fs (pagePath cwd "page_0015.html") PageRendererElement.

(** The replacements of the second version of the Shopify page. *)
Definition shopifyContent : string -> string :=
  chain
    [ sub "Bricks Builder Development" "Shopify Development";
      sub "Bricks Builder" "Shopify";
      sub "Bricks Builder Development Services - Fast, Custom Websites"
          "Shopify Development Services - Custom E-commerce Solutions";
      sub "Bricks Builder Development for websites that look great, perform better, and scale with your business"
          "Shopify Development for e-commerce stores that look great, perform better, and scale with your business";
      sub "Built with Bricks Builder: clean, fast, and future-ready"
          "Built with Shopify: clean, fast, and future-ready";
      sub "Build My WordPress Site with Bricks" "Build My Shopify Store";
      sub "We are an innovative Brooklyn WordPress Web Development Company specializing in design, development, support &amp; maintenance of WordPress websites"
          "We are an innovative e-commerce development company specializing in design, development, support & maintenance of Shopify stores";
      sub "Bricks Builder Development | Web Development Agency"
          "Shopify Development | E-commerce Development Agency" ].

Definition ShopifyDevelopment' : Handler := fun cwd fs =>
  match fs (pagePath cwd "page_0015.html") with
  | Some htmlContent => Some (PageRendererElement (shopifyContent htmlContent))
  | None => None
  end.

Definition SocialMediaManagement : Handler := fun cwd fs =>
  readThen fs (pagePath cwd "page_0016.html") PageRendererElement.

Definition SocialMediaManagement' : Handler := fun cwd fs =>
  readThen fs (pagePath cwd "page_0002.html") PageRendererElement.

Definition WorkCase : Handler := fun cwd fs =>
  readThen fs (pagePath cwd "page_0046.html") PageRendererElement.

Definition WorkCase' : Handler := fun cwd fs =>
  readThen fs (pagePath cwd "page_0045.html") PageRendererElement.

Definition ContactUs : Handler := fun cwd fs =>
  readThen fs (pagePath cwd "page_0002.html") PageRendererElement.

(** The replacements of the Google Ads page, in the order of the source;
    the last one is [/\bPPC\b/gi]. *)
Definition googleAdsContent : string -> string :=
  chain
    [ sub "https://alluredigital.net/ppc-advertising/"
          "https://alluredigital.net/google-ads-management/";
      sub "alluredigital.net/ppc-advertising" "alluredigital.net/google-ads-management";
      sub "/ppc-advertising/" "/google-ads-management/";
      sub "ppc-advertising" "google-ads-management";
      sub ("href=" ++ dq ++ "https://alluredigital.net/ppc-advertising")
          ("href=" ++ dq ++ "https://alluredigital.net/google-ads-management");
      sub ("href=" ++ dq ++ "/ppc-advertising")
          ("href=" ++ dq ++ "/google-ads-management");
      sub "url=https%3A%2F%2Falluredigital.net%2Fppc-advertising"
          "url=https%3A%2F%2Falluredigital.net%2Fgoogle-ads-management";
      sub "PPC specialists use high-end expertise to design, execute and build digital advertising campaigns"
          "Google Ads specialists use high-end expertise to design, execute and optimize Google advertising campaigns";
      sub "A Result Driven PPC Advertising Company"
          "Expert Google Ads Management Services";
      sub "Hire PPC managers to launch the result-driven PPC advertising campaigns"
          "Hire Google Ads managers to launch result-driven Google Ads campaigns";
      sub "Gain Instant Results With Powerful PPC Campaigns"
          "Gain Instant Results With Powerful Google Ads Campaigns";
      sub "Need maximum clicks on your paid advertisements at the best price? Gain instant results with our powerful PPC paid search campaigns"
          "Need maximum clicks on your paid advertisements at the best price? Gain instant results with our powerful Google Ads campaigns";
      sub "If you don't invest your budget in PPC marketing"
          "If you don't invest your budget in Google Ads marketing";
      sub "hire our professional PPC specialists"
          "hire our professional Google Ads specialists";
      sub "PPC Advertising " "Google Ads Management ";
      sub "PPC Advertising" "Google Ads Management";
      sub "PPC paid search campaigns" "Google Ads campaigns";
      sub "PPC Campaigns" "Google Ads Campaigns";
      sub "PPC specialists" "Google Ads specialists";
      sub "PPC managers" "Google Ads managers";
      sub "PPC marketing" "Google Ads marketing";
      sub "Pay Per Click Advertising" "Google Ads Management";
      sub "pay per click advertising" "Google Ads Management";
      sub "pay-per-click" "Google Ads";
      sub "Pay Per Click" "Google Ads";
      sub "pay per click" "Google Ads";
      replaceAll true (Seqs [Wb; Lit "PPC"; Wb]) "Google Ads" ].

Definition GoogleAdsManagement : Handler := fun cwd fs =>
  match fs (pagePath cwd "page_0011.html") with
  | Some htmlContent => Some (PageRendererElement (googleAdsContent htmlContent))
  | None => None
  end.

Definition Careers : Handler := fun cwd fs =>
  readThen fs (pagePath cwd "page_0025.html") PageRendererElement.

Definition CRMDevelopment : Handler := fun cwd fs =>
  readThen fs (pagePath cwd "page_0017.html") PageRendererElement.

Definition AppianDevelopment : Handler := fun cwd fs =>
  readThen fs (pagePath cwd "page_0004.html") PageRendererElement.

Definition LocalSEO : Handler := fun cwd fs =>
  readThen fs (pagePath cwd "page_0005.html") PageRendererElement.

Definition WordPressDevelopment : Handler := fun cwd fs =>
  readThen fs (pagePath cwd "page_0013.html") PageRendererElement.

Definition BlogPost : Handler := fun cwd fs =>
  readThen fs (pagePath cwd "page_0031.html") PageRendererElement.

(** The blog post whose handler catches the failure of the read. *)
Definition BlogPost' : Handler := fun cwd fs =>
  match readThen fs (pagePath cwd "page_0028.html") PageRendererElement with
  | Some el => Some el
  | None => Some (ErrorDiv "Error loading page. Please check console.")
  end.

Definition BlogPost'' : Handler := fun cwd fs =>
  readThen fs (pagePath cwd "page_0029.html") PageRendererElement.

Definition Blog : Handler := fun cwd fs =>
  readThen fs (pagePath cwd "page_0020.html") PageRendererElement.

(** The handlers with the page each one reads. *)
Definition handlers : list (Handler * string) :=
  [ (Home, "page_0004.html"); (TechnicalSEO, "page_0010.html");
    (ShopifyDevelopment, "page_0015.html"); (ShopifyDevelopment', "page_0015.html");
    (SocialMediaManagement, "page_0016.html");
    (SocialMediaManagement', "page_0002.html");
    (WorkCase, "page_0046.html"); (WorkCase', "page_0045.html");
    (ContactUs, "page_0002.html"); (GoogleAdsManagement, "page_0011.html");
    (Careers, "page_0025.html"); (CRMDevelopment, "page_0017.html");
    (AppianDevelopment, "page_0004.html"); (LocalSEO, "page_0005.html");
    (WordPressDevelopment, "page_0013.html"); (BlogPost, "page_0031.html");
    (BlogPost', "page_0028.html"); (BlogPost'', "page_0029.html");
    (Blog, "page_0020.html") ].

(** The handlers that hand the file content on as it is. *)
Definition passThrough : list (Handler * string) :=
  [ (Home, "page_0004.html"); (TechnicalSEO, "page_0010.html");
    (ShopifyDevelopment, "page_0015.html");
    (SocialMediaManagement, "page_0016.html");
    (SocialMediaManagement', "page_0002.html");
    (WorkCase, "page_0046.html"); (WorkCase', "page_0045.html");
    (ContactUs, "page_0002.html");
    (Careers, "page_0025.html"); (CRMDevelopment, "page_0017.html");
    (AppianDevelopment, "page_0004.html"); (LocalSEO, "page_0005.html");
    (WordPressDevelopment, "page_0013.html"); (BlogPost, "page_0031.html");
    (BlogPost', "page_0028.html"); (BlogPost'', "page_0029.html");
    (Blog, "page_0020.html") ].

(** A file system with one file. *)
Definition oneFile (path content : string) : FileSystem :=
  fun p => if String.eqb p path then Some content else None.

End Routes.

(* ===================================================================== *)
(** * The document object model

    A node is an element with its [tagName], its attributes in source
    order and its children, a text node or a comment. The [tagName] of an
    HTML element is its name in upper case; the [tagName] of an element of
    another namespace, as the parser creates them below [svg] and [math],
    is its name as it is written, in lower case for the names the
    selectors of the renderer ask for. *)
(* ===================================================================== *)

Module Dom.

#[warnings="-register-all"]
Inductive Node : Type :=
| Element (tagName : string) (attributes : list (string * string))
          (childNodes : list Node)
| Text (data : string)
| Comment (data : string).

Definition Attrs : Type := list (string * string).

Fixpoint getAttribute (name : string) (attrs : Attrs) : option string :=
  match attrs with
  | [] => None
  | (k, v) :: rest => if String.eqb k name then Some v else getAttribute name rest
  end.

Definition hasAttribute (name : string) (attrs : Attrs) : bool :=
  match getAttribute name attrs with Some _ => true | None => false end.

(** [el.getAttribute(name) || d] *)
Definition attrOr (name : string) (attrs : Attrs) (d : string) : string :=
  match getAttribute name attrs with
  | Some v => orElse v d
  | None => d
  end.

(** [el.setAttribute(name, value)]: the value of an attribute that is
    there is replaced where it stands, a new attribute goes last. *)
Fixpoint setAttribute (name value : string) (attrs : Attrs) : Attrs :=
  match attrs with
  | [] => [(name, value)]
  | (k, v) :: rest =>
      if String.eqb k name then (k, value) :: rest
      else (k, v) :: setAttribute name value rest
  end.

Fixpoint removeAttribute (name : string) (attrs : Attrs) : Attrs :=
  match attrs with
  | [] => []
  | (k, v) :: rest =>
      if String.eqb k name then rest else (k, v) :: removeAttribute name rest
  end.

Definition tagOf (n : Node) : string :=
  match n with Element t _ _ => t | _ => EmptyString end.

Definition attrsOf (n : Node) : Attrs :=
  match n with Element _ a _ => a | _ => [] end.

Definition childrenOf (n : Node) : list Node :=
  match n with Element _ _ c => c | _ => [] end.

Definition isElement (n : Node) : bool :=
  match n with Element _ _ _ => true | _ => false end.

Definition isText (n : Node) : bool :=
  match n with Text _ => true | _ => false end.

(** [node.textContent]: the text of the text nodes below an element, in
    document order; the data of a text node or comment. *)
Fixpoint textContent (n : Node) : string :=
  match n with
  | Element _ _ c =>
      String.concat EmptyString
        (map (fun k => match k with Comment _ => EmptyString | _ => textContent k end) c)
  | Text d => d
  | Comment d => d
  end.

(** The children after [el.textContent = s]. *)
Definition textChildren (s : string) : list Node :=
  if truthy s then [Text s] else [].

(** The tokens of a [class] attribute. *)
Fixpoint tokens (s : string) (cur : string) : list string :=
  match s with
  | EmptyString => if truthy cur then [reverse cur] else []
  | String c t =>
      if is_space c
      then (if truthy cur then reverse cur :: tokens t EmptyString
            else tokens t EmptyString)
      else tokens t (String c cur)
  end.

Definition hasClass (cls : string) (attrs : Attrs) : bool :=
  match getAttribute "class" attrs with
  | Some v => existsb (String.eqb cls) (tokens v EmptyString)
  | None => false
  end.

(** [[name*="part"]] *)
Definition attrContains (name part : string) (attrs : Attrs) : bool :=
  match getAttribute name attrs with
  | Some v => truthy part && includes v part
  | None => false
  end.

(** [[name*="part" i]] *)
Definition attrContainsCI (name part : string) (attrs : Attrs) : bool :=
  match getAttribute name attrs with
  | Some v => truthy part && includes (toLowerCase v) (toLowerCase part)
  | None => false
  end.

(** A simple selector as a test on the tag name and the attributes. *)
Definition Selector : Type := string -> Attrs -> bool.

(** The type selector for the name whose upper-case form is [tag], on a
    [tagName]: it matches the HTML element of that name and the element of
    another namespace whose name is the lower-case form. A comparison of
    [tagName] with a string in the source is [String.eqb] instead. *)
Definition named (tag t : string) : bool :=
  String.eqb t tag || String.eqb t (toLowerCase tag).

Definition byTag (tag : string) : Selector := fun t _ => named tag t.

Definition anyOf (sels : list Selector) : Selector :=
  fun t a => existsb (fun s => s t a) sels.

(** The elements from an element up to the root, nearest first, as pairs of
    tag name and attributes: what [closest] walks through. *)
Definition Chain : Type := list (string * Attrs).

(** [el.closest(sel) !== null] *)
Definition closestExists (sel : Selector) (chain : Chain) : bool :=
  existsb (fun e => sel (fst e) (snd e)) chain.

(** ** Positions

    A position is the list of child indices from the root of a forest to a
    node. [querySelectorAll] answers a static list: the model keeps the
    positions, in document order, of the nodes that matched. *)

Definition Path : Type := list nat.

Fixpoint getAt (forest : list Node) (p : Path) : option Node :=
  match p with
  | [] => None
  | [i] => nth_error forest i
  | i :: p' =>
      match nth_error forest i with
      | Some (Element _ _ c) => getAt c p'
      | _ => None
      end
  end.

Fixpoint replaceNth (l : list Node) (i : nat) (f : Node -> Node) : list Node :=
  match l, i with
  | [], _ => []
  | x :: r, O => f x :: r
  | x :: r, S i' => x :: replaceNth r i' f
  end.

Fixpoint updateAt (forest : list Node) (p : Path) (f : Node -> Node) : list Node :=
  match p with
  | [] => forest
  | [i] => replaceNth forest i f
  | i :: p' =>
      replaceNth forest i
        (fun n => match n with
                  | Element t a c => Element t a (updateAt c p' f)
                  | other => other
                  end)
  end.

(** The positions of the elements of a forest that satisfy [sel], in
    document order; [pre] is the position of the parent, last index
    first. *)
Fixpoint pathsOfNode (sel : Selector) (pre : Path) (i : nat) (n : Node)
  : list Path :=
  match n with
  | Element t a c =>
      let here := rev (i :: pre) in
      let below :=
        (fix go (k : nat) (l : list Node) : list Path :=
           match l with
           | [] => []
           | x :: r => (pathsOfNode sel (i :: pre) k x ++ go (S k) r)%list
           end) 0 c in
      if sel t a then here :: below else below
  | _ => []
  end.

Fixpoint pathsFrom (sel : Selector) (pre : Path) (k : nat) (l : list Node)
  : list Path :=
  match l with
  | [] => []
  | x :: r => (pathsOfNode sel pre k x ++ pathsFrom sel pre (S k) r)%list
  end.

(** [root.querySelectorAll(sel)] on the children of the root. *)
Definition querySelectorAll (sel : Selector) (forest : list Node) : list Path :=
  pathsFrom sel [] 0 forest.

(** [root.querySelector(sel)] *)
Definition querySelector (sel : Selector) (forest : list Node) : option Node :=
  match querySelectorAll sel forest with
  | p :: _ => getAt forest p
  | [] => None
  end.

(** [root.querySelectorAll(sel)] as the list of the elements themselves,
    for the loops that change nothing in the tree they go through. *)
Fixpoint selectNode (sel : Selector) (n : Node) : list Node :=
  match n with
  | Element t a c =>
      ((if sel t a then [n] else []) ++ flat_map (selectNode sel) c)%list
  | _ => []
  end.

Definition selectAll (sel : Selector) (forest : list Node) : list Node :=
  flat_map (selectNode sel) forest.

(** The proper prefixes of a position, longest first: the ancestors. *)
Fixpoint prefixes (p : Path) : list Path :=
  match p with
  | [] => []
  | i :: p' => (map (cons i) (prefixes p') ++ [[]])%list
  end.

Definition parentPath (p : Path) : Path := removelast p.

(** The chain of an element at [p]: itself, then its ancestors inside the
    forest, then the root element [(rootTag, rootAttrs)]. *)
Definition chainAt (rootTag : string) (rootAttrs : Attrs)
           (forest : list Node) (p : Path) : Chain :=
  let inside :=
    flat_map (fun q => match getAt forest q with
                       | Some (Element t a _) => [(t, a)]
                       | _ => []
                       end)
             (p :: filter (fun q => negb (Nat.eqb (List.length q) 0)) (prefixes p)) in
  (inside ++ [(rootTag, rootAttrs)])%list.

Definition isPrefixOf (q p : Path) : bool :=
  (List.length q <=? List.length p)%nat &&
  forallb (fun xy => Nat.eqb (fst xy) (snd xy)) (combine q p).

(** ** Serialisation: the [innerHTML] getter *)

Definition voidTags : list string :=
  ["AREA"; "BASE"; "BASEFONT"; "BGSOUND"; "BR"; "COL"; "EMBED"; "FRAME"; "HR";
   "IMG"; "INPUT"; "KEYGEN"; "LINK"; "META"; "PARAM"; "SOURCE"; "TRACK"; "WBR"].

Definition rawTextTags : list string :=
  ["STYLE"; "SCRIPT"; "XMP"; "IFRAME"; "NOEMBED"; "NOFRAMES"; "PLAINTEXT"].

Definition isVoid (t : string) : bool := existsb (String.eqb t) voidTags.
Definition isRawText (t : string) : bool := existsb (String.eqb t) rawTextTags.

Definition nbsp : ascii := ascii_of_N 160.

Fixpoint escapeText (s : string) : string :=
  match s with
  | EmptyString => EmptyString
  | String c t =>
      (if Ascii.eqb c "&" then "&amp;"
       else if Ascii.eqb c "<" then "&lt;"
       else if Ascii.eqb c ">" then "&gt;"
       else if Ascii.eqb c nbsp then "&nbsp;"
       else String c EmptyString) ++ escapeText t
  end.

Fixpoint escapeAttr (s : string) : string :=
  match s with
  | EmptyString => EmptyString
  | String c t =>
      (if Ascii.eqb c "&" then "&amp;"
       else if Ascii.eqb c DQ then "&quot;"
       else if Ascii.eqb c nbsp then "&nbsp;"
       else String c EmptyString) ++ escapeAttr t
  end.

Definition serializeAttrs (attrs : Attrs) : string :=
  String.concat EmptyString
    (map (fun kv => " " ++ fst kv ++ "=" ++ dq ++ escapeAttr (snd kv) ++ dq) attrs).

(** The serialisation of a node whose parent has tag [parent]. Attribute
    values are escaped as browsers did before [<] and [>] joined the
    escaped characters; the two agree on values without them. *)
Fixpoint serializeNode (parent : string) (n : Node) : string :=
  match n with
  | Element t a c =>
      let name := toLowerCase t in
      "<" ++ name ++ serializeAttrs a ++ ">" ++
      (if isVoid t then EmptyString
       else String.concat EmptyString (map (serializeNode t) c) ++ "</" ++ name ++ ">")
  | Text d => if isRawText parent then d else escapeText d
  | Comment d => "<!--" ++ d ++ "-->"
  end.

(** [el.innerHTML] of an element with tag [parent] and children [c]. *)
Definition innerHTML (parent : string) (c : list Node) : string :=
  String.concat EmptyString (map (serializeNode parent) c).

End Dom.

Import Dom.

(* ===================================================================== *)
(** * The HTML parser and serialiser as services

    The [innerHTML] setter of a detached [div] parses a fragment, the
    getter serialises the children. Both are parameters of the functions
    that use them. The serialiser of [Dom] is the reference instance of the
    getter; the reference instance of the setter below follows the HTML
    Standard on well-nested fragments: text, comments, elements with
    lower-case or upper-case names and quoted or absent attribute values,
    void elements, [script] and [style] with raw text, [title] with text,
    the character references [&amp;], [&lt;], [&gt;], [&quot;], [&nbsp;],
    [&#39;] and [&#x27;]. It answers the empty forest on other input:
    unclosed or misnested tags; carriage returns and null characters,
    which the parser rewrites; other character references; unquoted
    attribute values and attribute names that come twice in a tag or
    hold other characters than letters, digits, [-], [_] and [:] after
    their first; the tags of
    [unsupportedTags], among them those of forms, tables, [pre], SVG and
    MathML; and a start tag where the parser would close or move an open
    element before it goes on (see [nests]). Nothing below evaluates it
    there. *)
(* ===================================================================== *)

Module Html.

Record Services : Type := mkServices {
  parseFragment : string -> list Node;
  serialize : string -> list Node -> string
}.

Fixpoint span (p : ascii -> bool) (s : string) : string * string :=
  match s with
  | String c t =>
      if p c then let (a, b) := span p t in (String c a, b)
      else (EmptyString, s)
  | EmptyString => (EmptyString, EmptyString)
  end.

Definition nameChar (c : ascii) : bool :=
  is_alpha c || is_digit c || oneOf "-_:" c.

Fixpoint toUpperCase (s : string) : string :=
  match s with
  | EmptyString => EmptyString
  | String c t => String (to_upper c) (toUpperCase t)
  end.

Definition references : list (string * string) :=
  [ ("&amp;", "&"); ("&lt;", "<"); ("&gt;", ">"); ("&quot;", dq);
    ("&nbsp;", String nbsp EmptyString); ("&#39;", "'"); ("&#x27;", "'") ].

Fixpoint decodeWith (table : list (string * string)) (s : string)
  : option (string * string) :=
  match table with
  | [] => None
  | (k, v) :: rest =>
      if startsWith s k then Some (v, drop (String.length k) s)
      else decodeWith rest s
  end.

(** Character references decoded; [None] on a [&] outside the table. *)
Fixpoint decode (fuel : nat) (s : string) : option string :=
  match fuel with
  | O => None
  | S fuel' =>
      match s with
      | EmptyString => Some EmptyString
      | String "&" _ =>
          match decodeWith references s with
          | Some (v, rest) =>
              match decode fuel' rest with
              | Some r => Some (v ++ r)
              | None => None
              end
          | None => None
          end
      | String c t =>
          match decode fuel' t with
          | Some r => Some (String c r)
          | None => None
          end
      end
  end.

Definition decodeText (s : string) : option string :=
  decode (S (String.length s)) s.

(** The name of an attribute at the front of [s] and the text after it.
    An [=] where a name is to start is the first character of the name. *)
Definition attrName (s : string) : string * string :=
  match s with
  | String "=" t => let (name, r) := span nameChar t in (String "=" name, r)
  | _ => span nameChar s
  end.

(** One more attribute before the ones that follow it in the tag; [None]
    when the name comes again, where the parser drops the later one. *)
Definition withAttr (name value : string) (rest : option (Attrs * string))
  : option (Attrs * string) :=
  match rest with
  | Some (attrs, r) =>
      if hasAttribute name attrs then None else Some ((name, value) :: attrs, r)
  | None => None
  end.

(** The attributes of a start tag and the text after its [>]. *)
Fixpoint parseAttrs (fuel : nat) (s : string) : option (Attrs * string) :=
  match fuel with
  | O => None
  | S fuel' =>
      match s with
      | EmptyString => None
      | String ">" t => Some ([], t)
      | String "/" (String ">" t) => Some ([], t)
      | String c t =>
          if is_space c then parseAttrs fuel' t
          else
            let (name, afterName) := attrName s in
            if negb (truthy name) then None else
            match afterName with
            | String "=" (String q afterQuote) =>
                if Ascii.eqb q DQ || Ascii.eqb q "'" then
                  let (raw, afterValue) :=
                    span (fun x => negb (Ascii.eqb x q)) afterQuote in
                  match afterValue, decodeText raw with
                  | String _ afterClose, Some value =>
                      withAttr (toLowerCase name) value
                               (parseAttrs fuel' afterClose)
                  | _, _ => None
                  end
                else None
            | _ =>
                withAttr (toLowerCase name) EmptyString
                         (parseAttrs fuel' afterName)
            end
      end
  end.

(** The text before the first occurrence of [stop], compared without
    case, and the text from it on. *)
Fixpoint untilCI (stop : string) (s : string) : option (string * string) :=
  if startsWith (toLowerCase s) stop then Some (EmptyString, s)
  else match s with
       | EmptyString => None
       | String c t =>
           match untilCI stop t with
           | Some (a, b) => Some (String c a, b)
           | None => None
           end
       end.

Fixpoint until (stop : string) (s : string) : option (string * string) :=
  if startsWith s stop then Some (EmptyString, drop (String.length stop) s)
  else match s with
       | EmptyString => None
       | String c t =>
           match until stop t with
           | Some (a, b) => Some (String c a, b)
           | None => None
           end
       end.

(** The text after an end tag of [name]. *)
Definition closeTag (name : string) (s : string) : option string :=
  if startsWith (toLowerCase s) ("</" ++ toLowerCase name) then
    match span is_space (drop (2 + String.length name) s) with
    | (_, String ">" r) => Some r
    | _ => None
    end
  else None.

Definition unsupportedTags : list string :=
  ["HTML"; "HEAD"; "BODY"; "FRAMESET"; "FRAME"; "IFRAME"; "NOSCRIPT"; "XMP";
   "NOEMBED"; "NOFRAMES"; "PLAINTEXT"; "TEXTAREA"; "TEMPLATE"; "SVG"; "MATH";
   "TABLE"; "TR"; "TD"; "TH"; "TBODY"; "THEAD"; "TFOOT"; "CAPTION"; "COL";
   "COLGROUP"; "SELECT"; "OPTION"; "OPTGROUP"; "FORM"; "PRE"; "LISTING";
   "IMAGE"; "RB"; "RP"; "RT"; "RTC"; "APPLET"; "MARQUEE"; "OBJECT"].

(** The start tags that close an open [p]. *)
Definition closesParagraph : list string :=
  ["ADDRESS"; "ARTICLE"; "ASIDE"; "BLOCKQUOTE"; "CENTER"; "DETAILS"; "DIALOG";
   "DIR"; "DIV"; "DL"; "FIELDSET"; "FIGCAPTION"; "FIGURE"; "FOOTER"; "HEADER";
   "HGROUP"; "MAIN"; "MENU"; "NAV"; "OL"; "P"; "SEARCH"; "SECTION"; "SUMMARY";
   "UL"; "H1"; "H2"; "H3"; "H4"; "H5"; "H6"; "LI"; "DD"; "DT"; "HR"].

Definition isHeading (t : string) : bool :=
  existsb (String.eqb t) ["H1"; "H2"; "H3"; "H4"; "H5"; "H6"].

(** The start tag [tag] goes below the open elements [open], innermost
    first, as it is written: the parser neither closes one of them nor
    runs the adoption agency. The test refuses more than the parser
    changes: an open element counts wherever it is above. *)
Definition nests (open : list string) (tag : string) : bool :=
  let isOpen (t : string) := existsb (String.eqb t) open in
  negb (isOpen "P" && existsb (String.eqb tag) closesParagraph)
  && negb (isHeading tag && existsb isHeading open)
  && negb (String.eqb tag "LI" && isOpen "LI")
  && negb ((String.eqb tag "DD" || String.eqb tag "DT")
           && (isOpen "DD" || isOpen "DT"))
  && negb (String.eqb tag "A" && isOpen "A")
  && negb (String.eqb tag "BUTTON" && isOpen "BUTTON")
  && negb (String.eqb tag "NOBR" && isOpen "NOBR").

(** The nodes up to the end of the input or to an end tag, which is left
    in the remaining text; [open] holds the tags of the open elements,
    innermost first. *)
Fixpoint parseNodes (fuel : nat) (open : list string) (s : string)
  : option (list Node * string) :=
  match fuel with
  | O => None
  | S fuel' =>
      match s with
      | EmptyString => Some ([], EmptyString)
      | String "<" t =>
          if startsWith t "/" then Some ([], s)
          else if startsWith t "!--" then
            match until "-->" (drop 3 t) with
            | Some (d, r) =>
                match parseNodes fuel' open r with
                | Some (sibs, r') => Some (Comment d :: sibs, r')
                | None => None
                end
            | None => None
            end
          else
            let (name, afterName) := span nameChar t in
            let tag := toUpperCase name in
            if negb (truthy name) || existsb (String.eqb tag) unsupportedTags
               || negb (nests open tag)
            then None else
            match parseAttrs (S (String.length afterName)) afterName with
            | None => None
            | Some (attrs, body) =>
                if isVoid tag then
                  match parseNodes fuel' open body with
                  | Some (sibs, r') => Some (Element tag attrs [] :: sibs, r')
                  | None => None
                  end
                else if existsb (String.eqb tag) ["SCRIPT"; "STYLE"; "TITLE"] then
                  match untilCI ("</" ++ toLowerCase name) body with
                  | Some (raw, r) =>
                      let content :=
                        if String.eqb tag "TITLE" then decodeText raw else Some raw in
                      match content, closeTag name r with
                      | Some d, Some r' =>
                          match parseNodes fuel' open r' with
                          | Some (sibs, r'') =>
                              Some (Element tag attrs (textChildren d) :: sibs, r'')
                          | None => None
                          end
                      | _, _ => None
                      end
                  | None => None
                  end
                else
                  match parseNodes fuel' (tag :: open) body with
                  | Some (children, r) =>
                      match closeTag name r with
                      | Some r' =>
                          match parseNodes fuel' open r' with
                          | Some (sibs, r'') =>
                              Some (Element tag attrs children :: sibs, r'')
                          | None => None
                          end
                      | None => None
                      end
                  | None => None
                  end
            end
      | _ =>
          let (raw, r) := span (fun c => negb (Ascii.eqb c "<")) s in
          match decodeText raw, parseNodes fuel' open r with
          | Some d, Some (sibs, r') => Some (Text d :: sibs, r')
          | _, _ => None
          end
      end
  end.

(** The children of the context element for the text [s]; [None]
    outside the fragment above. *)
Definition parseOpt (s : string) : option (list Node) :=
  if all_chars (fun c => negb ((code c =? 0)%N || (code c =? 13)%N)) s then
    match parseNodes (S (String.length s)) [] s with
    | Some (nodes, EmptyString) => Some nodes
    | _ => None
    end
  else None.

Definition parse (s : string) : list Node :=
  match parseOpt s with
  | Some nodes => nodes
  | None => []
  end.

Definition reference : Services := mkServices parse innerHTML.

End Html.

(* ===================================================================== *)
(** * Internal links and contact links: the [a[href]] loop *)
(* ===================================================================== *)

(** The values a property read of [routeMap] can give. [routeMap] is an
    object literal, so a key it does not own is looked up in
    [Object.prototype]. *)
Inductive JsValue : Type :=
| JsUndefined
| JsString (s : string)
| JsNative (name : string)
| JsObjectPrototype.

Definition routeMap : list (string * string) :=
  [ ("/social-media-management", "/social-media-management");
    ("/local-seo", "/local-seo");
    ("/ppc-advertising", "/ppc-advertising");
    ("/wordpress-development", "/wordpress-development");
    ("/contact-us", "/contact-us");
    ("/who-we-are", "/who-we-are");
    ("/portfolio", "/portfolio");
    ("/work", "/work");
    ("/blog", "/blog");
    ("/careers", "/careers") ].

Definition objectPrototype : list (string * JsValue) :=
  [ ("constructor", JsNative "Object");
    ("__proto__", JsObjectPrototype);
    ("hasOwnProperty", JsNative "hasOwnProperty");
    ("isPrototypeOf", JsNative "isPrototypeOf");
    ("propertyIsEnumerable", JsNative "propertyIsEnumerable");
    ("toLocaleString", JsNative "toLocaleString");
    ("toString", JsNative "toString");
    ("valueOf", JsNative "valueOf");
    ("__defineGetter__", JsNative "__defineGetter__");
    ("__defineSetter__", JsNative "__defineSetter__");
    ("__lookupGetter__", JsNative "__lookupGetter__");
    ("__lookupSetter__", JsNative "__lookupSetter__") ].

Fixpoint assoc {A : Type} (key : string) (l : list (string * A)) : option A :=
  match l with
  | [] => None
  | (k, v) :: rest => if String.eqb k key then Some v else assoc key rest
  end.

(** [routeMap[path]] *)
Definition routeMapGet (path : string) : JsValue :=
  match assoc path routeMap with
  | Some s => JsString s
  | None =>
      match assoc path objectPrototype with
      | Some v => v
      | None => JsUndefined
      end
  end.

Definition toBoolean (v : JsValue) : bool :=
  match v with
  | JsUndefined => false
  | JsString s => truthy s
  | JsNative _ | JsObjectPrototype => true
  end.

(** The string [setAttribute] stores for a value; a built-in function
    as V8 prints it. *)
Definition toStringValue (v : JsValue) : string :=
  match v with
  | JsUndefined => "undefined"
  | JsString s => s
  | JsNative name => "function " ++ name ++ "() { [native code] }"
  | JsObjectPrototype => "[object Object]"
  end.

(** [alluredigital\.net] followed by group 1, the longest run of
    characters other than [?] and [#]. *)
Definition afterDomain : regex :=
  Seq (Lit "alluredigital.net") (Grp 1 (Star (Cls true (oneOf "?#")))).

(** [if (path.endsWith('/') && path !== '/') path = path.slice(0, -1)] *)
Definition dropTrailingSlash (path : string) : string :=
  if endsWith path "/" && negb (String.eqb path "/") then dropLast path else path.

Section Links.

Variable newURL : Url.constructor.

(** The [try] block: the new value of [href] for a parsed URL. *)
Definition routeFor (url : URL) : string :=
  let path := dropTrailingSlash (pathname url) in
  if toBoolean (routeMapGet path) then toStringValue (routeMapGet path)
  else if startsWith path "/blog/" then path
  else if String.eqb path "/" || String.eqb path EmptyString then "/"
  else path.

(** The [catch] block: the new value of [href], [None] when the attribute
    is left as it is. *)
Definition routeByPattern (href : string) : option string :=
  match Regex.search false afterDomain href with
  | Some (_, _, cs, _) =>
      if truthy (cap 1 cs)
      then Some (orElse (dropTrailingSlash (cap 1 cs)) "/")
      else None
  | None => None
  end.

(** The new value of an [href] that contains [alluredigital.net]. *)
Definition internalHref (href : string) : option string :=
  match newURL href None with
  | Some url => Some (routeFor url)
  | None => routeByPattern href
  end.

(** One turn of the loop over [a[href]], on the attributes of the anchor. *)
Definition fixAnchor (attrs : Attrs) : Attrs :=
  match getAttribute "href" attrs with
  | None => attrs
  | Some href =>
      if truthy href && (startsWith href "tel:" || startsWith href "mailto:")
      then
        let attrs1 := removeAttribute "href" attrs in
        let currentStyle := attrOr "style" attrs1 EmptyString in
        setAttribute "style"
          (trim (currentStyle ++ " pointer-events: none; cursor: default;")) attrs1
      else if truthy href && includes href "alluredigital.net" then
        match internalHref href with
        | Some h => setAttribute "href" h attrs
        | None => attrs
        end
      else attrs
  end.

(** [body.querySelectorAll('a[href]').forEach(...)]: the loop changes
    attributes only, so it is a map over the tree. *)
Fixpoint fixAnchors (n : Node) : Node :=
  match n with
  | Element t a c =>
      Element t (if named "A" t then fixAnchor a else a) (map fixAnchors c)
  | other => other
  end.

End Links.

(** What the specification asks of the [href] of an internal link: the
    path without one trailing slash, [/] for an empty path. *)
Definition specPath (path : string) : string :=
  orElse (dropTrailingSlash path) "/".

(* ===================================================================== *)
(** * Contact information: [removeContactInfo] *)
(* ===================================================================== *)

Module Contact.

Definition spaces : regex := Star space.

(** [/\(212\)\s*301-7615/gi] *)
Definition phoneParenDash : regex := Seqs [Lit "(212)"; spaces; Lit "301-7615"].
(** [/212-301-7615/gi] *)
Definition phoneDashes : regex := Lit "212-301-7615".
(** [/\(212\)\s*301\s*7615/gi] *)
Definition phoneParenSpace : regex :=
  Seqs [Lit "(212)"; spaces; Lit "301"; spaces; Lit "7615"].
(** [/212\s*301\s*7615/gi] *)
Definition phoneSpaces : regex :=
  Seqs [Lit "212"; spaces; Lit "301"; spaces; Lit "7615"].
(** [/tel:[\d\s\-\(\)]+/gi] *)
Definition telLink : regex :=
  Seq (Lit "tel:")
      (Plus (Cls false (fun c => is_digit c || is_space c || oneOf "-()" c))).
(** [/info@alluredigital\.net/gi] *)
Definition infoMail : regex := Lit "info@alluredigital.net".
(** [[a-zA-Z0-9._%+-]] *)
Definition localPart (c : ascii) : bool :=
  is_alpha c || is_digit c || oneOf "._%+-" c.
(** [/[a-zA-Z0-9._%+-]+@alluredigital\.net/gi] *)
Definition anyMail : regex :=
  Seq (Plus (Cls false localPart)) (Lit "@alluredigital.net").
(** [/mailto:[a-zA-Z0-9._%+-]+@alluredigital\.net/gi] *)
Definition mailtoLink : regex :=
  Seqs [Lit "mailto:"; Plus (Cls false localPart); Lit "@alluredigital.net"].
(** [5300\s*Kings\s*Highway\s*Brooklyn] and then every character up to
    the next [<], with the flags [gi]. *)
Definition streetAndCity : regex :=
  Seqs [Lit "5300"; spaces; Lit "Kings"; spaces; Lit "Highway"; spaces;
        Lit "Brooklyn"; Star (Cls true (oneOf "<"))].
(** [/5300\s*Kings\s*Highway/gi] *)
Definition street : regex :=
  Seqs [Lit "5300"; spaces; Lit "Kings"; spaces; Lit "Highway"].
(** [/Brooklyn,\s*NY\s*11234/gi] *)
Definition cityZip : regex :=
  Seqs [Lit "Brooklyn,"; spaces; Lit "NY"; spaces; Lit "11234"].

Definition remove (r : regex) (s : string) : string :=
  replaceAll true r EmptyString s.

(** The replacements on the HTML string. *)
Definition removeFromString (html : string) : string :=
  let html := remove phoneParenDash html in
  let html := remove phoneDashes html in
  let html := remove phoneParenSpace html in
  let html := remove phoneSpaces html in
  let html := remove telLink html in
  let html := remove infoMail html in
  let html := remove anyMail html in
  let html := remove mailtoLink html in
  let html := remove streetAndCity html in
  let html := remove cityZip html in
  html.

(** The replacements on the text content of an element. *)
Definition removeFromText (text : string) : string :=
  let text := remove phoneParenDash text in
  let text := remove phoneDashes text in
  let text := remove infoMail text in
  let text := remove street text in
  let text := remove cityZip text in
  text.

(** [tempDiv.querySelectorAll('*').forEach(...)]: only an element whose
    single child is a text node is changed, so the loop is a map over the
    tree. *)
Fixpoint scrub (n : Node) : Node :=
  match n with
  | Element t a c =>
      let content := textContent n in
      let text := removeFromText content in
      match c with
      | [Text _] =>
          if truthy content && negb (String.eqb text content)
          then Element t a (textChildren (trim text))
          else n
      | _ => Element t a (map scrub c)
      end
  | other => other
  end.

Definition removeContactInfo (H : Html.Services) (html : string) : string :=
  let tempDiv := Html.parseFragment H (removeFromString html) in
  Html.serialize H "DIV" (map scrub tempDiv).

(** The occurrences the specification rules out of the result. *)
Definition leaks (html : string) : bool :=
  test true phoneParenDash html || test true phoneDashes html ||
  test true phoneParenSpace html || test true phoneSpaces html ||
  test true anyMail html || test true streetAndCity html ||
  test true cityZip html.

End Contact.

(* ===================================================================== *)
(** * Branding replacement: [replaceBranding] and the head injection *)
(* ===================================================================== *)

Module Branding.

Definition rimalweb : string := "Rimalweb".

(** The three spellings of the name the text passes look for. *)
Definition names : list string :=
  ["Allure Digital"; "AllureDigital"; "allure digital"].

(** The text holds no word-bounded occurrence of a spelling of the name,
    whatever the case of its letters. *)
Definition noBrand (text : string) : bool :=
  forallb (fun w => negb (test true (Seqs [Wb; Lit w; Wb]) text)) names.

(** [/\bAllure Digital\b/gi], [/\bAllureDigital\b/gi],
    [/\ballure digital\b/gi] in a row. *)
Definition brandWords (text : string) : string :=
  let text := replaceAll true (Seqs [Wb; Lit "Allure Digital"; Wb]) rimalweb text in
  let text := replaceAll true (Seqs [Wb; Lit "AllureDigital"; Wb]) rimalweb text in
  let text := replaceAll true (Seqs [Wb; Lit "allure digital"; Wb]) rimalweb text in
  text.

(** [/Allure Digital/gi] and [/AllureDigital/gi] in a row. *)
Definition brandNames (text : string) : string :=
  let text := replaceAll true (Lit "Allure Digital") rimalweb text in
  let text := replaceAll true (Lit "AllureDigital") rimalweb text in
  text.

(** The replacements on the text of an injected [title]. *)
Definition brandTitle (text : string) : string :=
  let text := replaceAll true (Lit "Allure Digital") rimalweb text in
  let text := replaceAll true (Lit "AllureDigital") rimalweb text in
  let text := replaceAll true (Lit "allure digital") rimalweb text in
  text.

(** The replacements on the [content] of an injected [meta]. *)
Definition brandMeta (content : string) : string :=
  let content := replaceAll true (Lit "Allure Digital") rimalweb content in
  let content := replaceAll true (Lit "AllureDigital") rimalweb content in
  let content := replaceAll true (Lit "allure digital") rimalweb content in
  let content := replaceAll true (Lit "alluredigital.net") "rimalweb.com" content in
  content.

(** [/https?:\/\//i] *)
Definition schemeMark : regex := Seqs [Lit "http"; Opt (Chr "s"); Lit "://"].
(** [/\/assets\//] *)
Definition assetsMark : regex := Lit "/assets/".
(** [/\.(png|jpg|jpeg|gif|svg|css|js)/i] *)
Definition extensionMark : regex :=
  Seq (Chr ".")
      (Alt (Lit "png") (Alt (Lit "jpg") (Alt (Lit "jpeg") (Alt (Lit "gif")
      (Alt (Lit "svg") (Alt (Lit "css") (Lit "js"))))))).
(** [/^\/[^\/]/] *)
Definition pathMark : regex := Seqs [Bol; Chr "/"; Cls true (oneOf "/")].

(** The text is plain: not part of a URL or of a path. *)
Definition plainText (text : string) : bool :=
  negb (test true schemeMark text) &&
  negb (test false assetsMark text) &&
  negb (test true extensionMark text) &&
  negb (test false pathMark text).

Definition anchorWithHref : Selector :=
  fun t a => named "A" t && hasAttribute "href" a.

Definition insideBareImage (chain : Chain) : bool :=
  closestExists (byTag "IMG") chain && negb (closestExists anchorWithHref chain).

(** The two tests of the walker on the parent element of a text node,
    [chain] being the chain of that parent; a text node without a parent
    element is passed over. *)
Definition skipped (chain : Chain) : bool :=
  match chain with
  | [] => true
  | (tag, attrs) :: _ =>
      (String.eqb tag "SCRIPT" || String.eqb tag "STYLE" ||
       String.eqb tag "NOSCRIPT" ||
       (hasAttribute "src" attrs && negb (String.eqb tag "A")) ||
       insideBareImage chain)
      ||
      (if String.eqb tag "A" && hasAttribute "href" attrs then false
       else hasAttribute "href" attrs && negb (String.eqb tag "A"))
  end.

(** The walk over the text nodes of the tree; [chain] is the chain of the
    parent of [n]. *)
Fixpoint walkText (chain : Chain) (n : Node) : Node :=
  match n with
  | Element t a c => Element t a (map (walkText ((t, a) :: chain)) c)
  | Text d =>
      if skipped chain then n
      else if truthy d && plainText d then Text (brandWords d)
      else n
  | Comment _ => n
  end.

(** [querySelectorAll('title')]: the text of every title is set anew, which
    leaves it a single text node. *)
Fixpoint brandTitles (n : Node) : Node :=
  match n with
  | Element t a c =>
      if named "TITLE" t && truthy (textContent n)
      then Element t a (textChildren (brandNames (textContent n)))
      else Element t a (map brandTitles c)
  | other => other
  end.

Definition mentionsAllure (s : string) : bool :=
  includes s "Allure" || includes s "allure".

(** [setAttribute(name, brandNames(value))] when the value is there, not
    empty, and mentions the name. *)
Definition brandAttr (name : string) (attrs : Attrs) : Attrs :=
  match getAttribute name attrs with
  | Some v =>
      if truthy v && mentionsAllure v
      then setAttribute name (brandNames v) attrs else attrs
  | None => attrs
  end.

(** [querySelectorAll('img[alt]')] *)
Fixpoint brandAlts (n : Node) : Node :=
  match n with
  | Element t a c =>
      Element t (if named "IMG" t then brandAttr "alt" a else a)
              (map brandAlts c)
  | other => other
  end.

Definition headingSelector : Selector :=
  anyOf [ byTag "H1"; byTag "H2"; byTag "H3"; byTag "H4"; byTag "H5"; byTag "H6";
          (fun _ a => hasClass "elementor-heading-title" a);
          (fun _ a => hasClass "bdt-ep-hover-box-title" a);
          (fun _ a => attrContains "class" "heading" a) ].

(** The loop over the headings, in document order: a heading whose text
    changes becomes a single text node, and what was below it is out of
    the tree when the loop comes to it. *)
Fixpoint brandHeadings (n : Node) : Node :=
  match n with
  | Element t a c =>
      let originalText := textContent n in
      let newText := brandWords originalText in
      if headingSelector t a && truthy originalText
         && negb (String.eqb newText originalText)
      then Element t a (textChildren newText)
      else Element t a (map brandHeadings c)
  | other => other
  end.

Definition blockSelector : Selector :=
  anyOf [byTag "SPAN"; byTag "DIV"; byTag "P"; byTag "LI"].

(** The replacement in the direct text nodes of an element. *)
Definition brandDirectText (n : Node) : Node :=
  match n with
  | Text d =>
      if truthy d && negb (String.eqb (brandWords d) d)
      then Text (brandWords d) else n
  | other => other
  end.

(** The loop over [span, div, p, li]; [chain] is the chain of the parent
    of [n]. The direct text nodes of an element with element children are
    replaced when the loop is at the element, its element children are
    visited after it. *)
Fixpoint brandBlocks (chain : Chain) (n : Node) : Node :=
  match n with
  | Element t a c =>
      let here := (t, a) :: chain in
      let originalText := textContent n in
      let newText := brandWords originalText in
      if blockSelector t a && negb (insideBareImage here)
         && truthy originalText && negb (String.eqb newText originalText)
      then
        if forallb (fun k => negb (isElement k)) c
        then Element t a (textChildren newText)
        else Element t a
               (map (fun k => match k with
                              | Text _ => brandDirectText k
                              | _ => brandBlocks here k
                              end) c)
      else Element t a (map (brandBlocks here) c)
  | other => other
  end.

(** The loop over [[data-title], [data-text], [data-content]]. *)
Fixpoint brandData (n : Node) : Node :=
  match n with
  | Element t a c =>
      Element t
        (if hasAttribute "data-title" a || hasAttribute "data-text" a
            || hasAttribute "data-content" a
         then brandAttr "data-content" (brandAttr "data-text" (brandAttr "data-title" a))
         else a)
        (map brandData c)
  | other => other
  end.

Definition rootChain : Chain := [("DIV", [])].

(** The text-node pass on the children of [tempDiv]. *)
Definition walkPass (forest : list Node) : list Node :=
  map (walkText rootChain) forest.

(** The passes of [replaceBranding] on the children of [tempDiv]. *)
Definition replaceBrandingDom (forest : list Node) : list Node :=
  let forest := walkPass forest in
  let forest := map brandTitles forest in
  let forest := map brandAlts forest in
  let forest := map brandHeadings forest in
  let forest := map (brandBlocks rootChain) forest in
  let forest := map brandData forest in
  forest.

Definition replaceBranding (H : Html.Services) (html : string) : string :=
  Html.serialize H "DIV" (replaceBrandingDom (Html.parseFragment H html)).

(** The chain of the parent of the node at [p]: the ancestors inside the
    forest, nearest first, then [tempDiv]. *)
Fixpoint parentChain (chain : Chain) (forest : list Node) (p : Path) : Chain :=
  match p with
  | [] => chain
  | [_] => chain
  | i :: p' =>
      match nth_error forest i with
      | Some (Element t a c) => parentChain ((t, a) :: chain) c p'
      | _ => chain
      end
  end.

(** The [src] and [href] attributes of the elements of a tree, each with
    the tag of its element. *)
Definition linkAttrs (t : string) (a : Attrs) : list (string * string * string) :=
  flat_map (fun kv => if String.eqb (fst kv) "src" || String.eqb (fst kv) "href"
                      then [(t, fst kv, snd kv)] else []) a.

Fixpoint linkValues (n : Node) : list (string * string * string) :=
  match n with
  | Element t a c => (linkAttrs t a ++ flat_map linkValues c)%list
  | _ => []
  end.

(** The same of the elements no pass can take out of the tree: the
    passes drop elements only where they set the text of a [title] or of
    a heading, so these are the elements that are not below one. *)
Fixpoint keptLinks (n : Node) : list (string * string * string) :=
  match n with
  | Element t a c =>
      (linkAttrs t a
       ++ (if named "TITLE" t || headingSelector t a then []
           else flat_map keptLinks c))%list
  | _ => []
  end.

(** What the tests of the walker read of a chain: the tags, and whether
    [src] and [href] are there. *)
Definition outline (chain : Chain) : list (string * bool * bool) :=
  map (fun e => (fst e, hasAttribute "src" (snd e), hasAttribute "href" (snd e)))
      chain.

(** Every text node of the tree that the walker does not pass over and
    whose text is plain holds no occurrence of the name; [chain] is the
    chain of the parent of [n]. *)
Fixpoint clean (chain : Chain) (n : Node) : bool :=
  match n with
  | Element t a c => forallb (clean ((t, a) :: chain)) c
  | Text d => skipped chain || negb (plainText d) || noBrand d
  | Comment _ => true
  end.

(** The elements [els], outermost first, each the only child of the one
    before it, around [leaf]. *)
Fixpoint wrap (els : list (string * Attrs)) (leaf : Node) : Node :=
  match els with
  | [] => leaf
  | (t, a) :: rest => Element t a [wrap rest leaf]
  end.

End Branding.

(* ===================================================================== *)
(** * JSON values and the rewrite of [data-settings] attributes *)
(* ===================================================================== *)

Module Json.

(** A number carries the text [JSON.stringify] prints for it. The fields
    of an object are in the order in which [for ... in] and
    [JSON.stringify] go through them. *)
#[warnings="-register-all"]
Inductive Value : Type :=
| Null
| Boolean (b : bool)
| Number (text : string)
| Str (s : string)
| Array (items : list Value)
| Object (fields : list (string * Value)).

(** [JSON.parse], [None] for the [SyntaxError] it throws, and
    [JSON.stringify]. *)
Record Services : Type := mkServices {
  parse : string -> option Value;
  stringify : Value -> string
}.

(** [obj[key]] on a parsed object, [None] for [undefined]. *)
Definition get (key : string) (fields : list (string * Value)) : option Value :=
  assoc key fields.

(** [obj[key] = v]: in place when the key is there, last otherwise. *)
Fixpoint set (key : string) (v : Value) (fields : list (string * Value))
  : list (string * Value) :=
  match fields with
  | [] => [(key, v)]
  | (k, w) :: rest =>
      if String.eqb k key then (k, v) :: rest else (k, w) :: set key v rest
  end.

(** ** Reference instance

    [stringify] is the algorithm of the language. The reference [parse]
    reads the JSON grammar with integer numbers of at most fifteen digits,
    the two-character escapes of the grammar, and objects
    whose keys are distinct and not integer-like; it answers [None] on
    every text that is not JSON, and also on JSON outside this fragment,
    where nothing below evaluates it. *)

Definition hex4 (c : ascii) : string :=
  bs ++ "u00" ++ String (to_lower (Url.hexDigit (code c / 16)))
              (String (to_lower (Url.hexDigit (code c mod 16))) EmptyString).

Fixpoint quoteChars (s : string) : string :=
  match s with
  | EmptyString => EmptyString
  | String c t =>
      (if Ascii.eqb c DQ then bs ++ dq
       else if Ascii.eqb c BS then bs ++ bs
       else if (code c =? 8)%N then bs ++ "b"
       else if (code c =? 12)%N then bs ++ "f"
       else if (code c =? 10)%N then bs ++ "n"
       else if (code c =? 13)%N then bs ++ "r"
       else if (code c =? 9)%N then bs ++ "t"
       else if (code c <? 32)%N then hex4 c
       else String c EmptyString) ++ quoteChars t
  end.

Definition quote (s : string) : string := dq ++ quoteChars s ++ dq.

Fixpoint stringifyRef (v : Value) : string :=
  match v with
  | Null => "null"
  | Boolean true => "true"
  | Boolean false => "false"
  | Number text => text
  | Str s => quote s
  | Array items => "[" ++ JsString.join "," (map stringifyRef items) ++ "]"
  | Object fields =>
      "{" ++ JsString.join ","
               (map (fun kv => quote (fst kv) ++ ":" ++ stringifyRef (snd kv)) fields)
          ++ "}"
  end.

Definition isWs (c : ascii) : bool :=
  let n := code c in (n =? 32)%N || (n =? 9)%N || (n =? 10)%N || (n =? 13)%N.

Fixpoint skipWs (s : string) : string :=
  match s with
  | String c t => if isWs c then skipWs t else s
  | EmptyString => EmptyString
  end.

(** The characters of a string literal after its opening quote. *)
Fixpoint readString (s : string) : option (string * string) :=
  match s with
  | EmptyString => None
  | String c t =>
      if Ascii.eqb c DQ then Some (EmptyString, t)
      else if (code c <? 32)%N then None
      else if Ascii.eqb c BS then
        match t with
        | String e t' =>
            let unescaped :=
              if Ascii.eqb e DQ then Some DQ
              else if Ascii.eqb e BS then Some BS
              else if Ascii.eqb e "/" then Some "/"%char
              else if Ascii.eqb e "b" then Some (ascii_of_N 8)
              else if Ascii.eqb e "f" then Some (ascii_of_N 12)
              else if Ascii.eqb e "n" then Some (ascii_of_N 10)
              else if Ascii.eqb e "r" then Some (ascii_of_N 13)
              else if Ascii.eqb e "t" then Some (ascii_of_N 9)
              else None in
            match unescaped, readString t' with
            | Some u, Some (r, rest) => Some (String u r, rest)
            | _, _ => None
            end
        | EmptyString => None
        end
      else
        match readString t with
        | Some (r, rest) => Some (String c r, rest)
        | None => None
        end
  end.

Definition readNumber (s : string) : option (string * string) :=
  let (sign, s1) :=
    match s with
    | String "-" t => ("-", t)
    | _ => (EmptyString, s)
    end in
  let (digits, rest) := Html.span is_digit s1 in
  let wellFormed :=
    truthy digits && (String.eqb digits "0" || negb (startsWith digits "0"))
    && (String.length digits <=? 15)%nat
    && match rest with
       | String c _ => negb (oneOf ".eE" c)
       | EmptyString => true
       end in
  if wellFormed
  then Some (if String.eqb digits "0" then "0" else sign ++ digits, rest)
  else None.

Definition integerLike (k : string) : bool :=
  truthy k && Url.all_chars is_digit k
  && (String.eqb k "0" || negb (startsWith k "0")).

Fixpoint readValue (fuel : nat) (s : string) : option (Value * string) :=
  match fuel with
  | O => None
  | S fuel' =>
      let s := skipWs s in
      if startsWith s "null" then Some (Null, drop 4 s)
      else if startsWith s "true" then Some (Boolean true, drop 4 s)
      else if startsWith s "false" then Some (Boolean false, drop 5 s)
      else
        match s with
        | EmptyString => None
        | String c t =>
            if Ascii.eqb c DQ then
              match readString t with
              | Some (r, rest) => Some (Str r, rest)
              | None => None
              end
            else if Ascii.eqb c "[" then
              match skipWs t with
              | String "]" rest => Some (Array [], rest)
              | _ =>
                  match
                  (fix items (n : nat) (s : string) : option (list Value * string) :=
                     match n with
                     | O => None
                     | S n' =>
                         match readValue fuel' s with
                         | Some (v, rest) =>
                             match skipWs rest with
                             | String "," rest' =>
                                 match items n' rest' with
                                 | Some (vs, r) => Some (v :: vs, r)
                                 | None => None
                                 end
                             | String "]" rest' => Some ([v], rest')
                             | _ => None
                             end
                         | None => None
                         end
                     end) fuel' t
                  with
                  | Some (vs, r) => Some (Array vs, r)
                  | None => None
                  end
              end
            else if Ascii.eqb c "{" then
              match skipWs t with
              | String "}" rest => Some (Object [], rest)
              | _ =>
                  match
                  (fix fields (n : nat) (s : string)
                     : option (list (string * Value) * string) :=
                     match n with
                     | O => None
                     | S n' =>
                         match skipWs s with
                         | String q afterQuote =>
                             if negb (Ascii.eqb q DQ) then None else
                             match readString afterQuote with
                             | Some (k, afterKey) =>
                                 match skipWs afterKey with
                                 | String ":" afterColon =>
                                     match readValue fuel' afterColon with
                                     | Some (v, rest) =>
                                         match skipWs rest with
                                         | String "," rest' =>
                                             match fields n' rest' with
                                             | Some (kvs, r) =>
                                                 if integerLike k
                                                    || existsb (fun kv => String.eqb (fst kv) k) kvs
                                                 then None
                                                 else Some ((k, v) :: kvs, r)
                                             | None => None
                                             end
                                         | String "}" rest' =>
                                             if integerLike k then None
                                             else Some ([(k, v)], rest')
                                         | _ => None
                                         end
                                     | None => None
                                     end
                                 | _ => None
                                 end
                             | None => None
                             end
                         | EmptyString => None
                         end
                     end) fuel' t
                  with
                  | Some (kvs, r) => Some (Object kvs, r)
                  | None => None
                  end
              end
            else
              match readNumber s with
              | Some (text, rest) => Some (Number text, rest)
              | None => None
              end
        end
  end.

Definition parseRef (s : string) : option Value :=
  match readValue (S (String.length s)) s with
  | Some (v, rest) =>
      match skipWs rest with
      | EmptyString => Some v
      | _ => None
      end
  | None => None
  end.

Definition reference : Services := mkServices parseRef stringifyRef.

End Json.

Module Settings.

(** [s.replace(/p/g, r)] for a literal [p]. *)
Definition lit (p r : string) (s : string) : string :=
  replaceAll false (Lit p) r s.

(** The decoding of the character references of the attribute value. *)
Definition decodeEntities (jsonStr : string) : string :=
  lit "&#x27;" "'" (lit "&#39;" "'" (lit "&gt;" ">" (lit "&lt;" "<"
    (lit "&quot;" dq (lit "&amp;" "&" jsonStr))))).

(** The encoding of the new JSON text for the attribute. *)
Definition encodeEntities (fixedJson : string) : string :=
  lit ">" "&gt;" (lit "<" "&lt;" (lit "'" "&#39;" (lit dq "&quot;"
    (lit "&" "&amp;" fixedJson)))).

Definition notQuote (c : ascii) : bool := negb (Ascii.eqb c DQ).

(** [https?:\/\/], group 1 an optional run of characters other than the
    double quote and [/] that ends in a dot, group 2 [alluredigital] or
    [rimalweb], [\.net], group 3 the longest run of characters other than
    the double quote; flags [gi]. *)
Definition domainUrl : regex :=
  Seqs [ Lit "http"; Opt (Chr "s"); Lit "://";
         Opt (Grp 1 (Seq (Plus (Cls false (fun c => notQuote c && negb (Ascii.eqb c "/"))))
                         (Chr ".")));
         Grp 2 (Alt (Lit "alluredigital") (Lit "rimalweb"));
         Lit ".net";
         Grp 3 (Star (Cls false notQuote)) ].

(** [data-settings=] and a double-quoted value, group 1, without a double
    quote inside; flags [gi]. *)
Definition dataSettingsAttr : regex :=
  Seqs [ Lit "data-settings="; Chr DQ; Grp 1 (Star (Cls false notQuote)); Chr DQ ].

Definition aboutBanner : string :=
  "https://alluredigital.net/wp-content/uploads/2022/12/about-banner.png".

Section Rewrite.

Variable newURL : Url.constructor.
Variable J : Json.Services.

(** The callback of the URL replacement: the URL with [rimalweb.net]
    turned back into [alluredigital.net] when group 2 is [rimalweb], then
    [fixAssetUrl]. *)
Definition fixMatch (urlMatch : string) (cs : list (nat * string)) : string :=
  let urlToFix :=
    if String.eqb (cap 2 cs) "rimalweb"
    then replaceAll true rimalwebNet "alluredigital.net" urlMatch
    else urlMatch in
  fixAssetUrl newURL urlToFix.

(** The [catch] of [JSON.parse]: the URLs of the raw attribute value are
    replaced, backslashes and double quotes of the new URL escaped. *)
Definition fixRaw (jsonStr : string) : string :=
  replaceAllWith true domainUrl
    (fun urlMatch cs =>
       lit dq (bs ++ dq) (lit bs (bs ++ bs) (fixMatch urlMatch cs)))
    jsonStr.

(** [fixUrlsInObject]. The new object is filled by assignment, and an
    assignment to [__proto__] makes no property. *)
Fixpoint fixUrlsInObject (obj : Json.Value) : Json.Value :=
  match obj with
  | Json.Str s => Json.Str (replaceAllWith true domainUrl fixMatch s)
  | Json.Array items => Json.Array (map fixUrlsInObject items)
  | Json.Object fields =>
      Json.Object
        ((fix each (l : list (string * Json.Value)) : list (string * Json.Value) :=
            match l with
            | [] => []
            | (key, v) :: rest =>
                if String.eqb key "__proto__" then each rest
                else (key, fixUrlsInObject v) :: each rest
            end) fields)
  | other => other
  end.

(** The replacement of the hero slideshow by the banner image; [None] is
    the [TypeError] of a property read on [null]. *)
Definition replaceSlideshow (parsed : Json.Value) : option Json.Value :=
  match parsed with
  | Json.Null => None
  | Json.Object fields =>
      match Json.get "background_background" fields,
            Json.get "background_slideshow_gallery" fields with
      | Some (Json.Str kind), Some (Json.Array _) =>
          if String.eqb kind "slideshow" then
            let fields :=
              Json.set "background_slideshow_gallery"
                (Json.Array [Json.Object [("id", Json.Number "393");
                                          ("url", Json.Str aboutBanner)]]) fields in
            let fields := Json.set "background_background" (Json.Str "classic") fields in
            let fields :=
              Json.set "background_image"
                (Json.Object [("url", Json.Str aboutBanner)]) fields in
            Some (Json.Object fields)
          else Some parsed
      | _, _ => Some parsed
      end
  | _ => Some parsed
  end.

(** The body of the outer [try]: the text that replaces the attribute,
    [None] when a step throws. *)
Definition processSettings (jsonStr : string) : option string :=
  let decoded := decodeEntities jsonStr in
  match Json.parse J decoded with
  | None => Some ("data-settings=" ++ dq ++ fixRaw jsonStr ++ dq)
  | Some parsed =>
      match replaceSlideshow parsed with
      | None => None
      | Some parsed' =>
          let fixedObj := fixUrlsInObject parsed' in
          let fixedJson := Json.stringify J fixedObj in
          Some ("data-settings=" ++ dq ++ encodeEntities fixedJson ++ dq)
      end
  end.

(** The callback of the replacement: in the outer [catch] the matched
    text goes back as it was. *)
Definition settingsCallback (matched : string) (cs : list (nat * string)) : string :=
  match processSettings (cap 1 cs) with
  | Some replacement => replacement
  | None => matched
  end.

Definition rewriteDataSettings (bodyHtml : string) : string :=
  replaceAllWith true dataSettingsAttr settingsCallback bodyHtml.

End Rewrite.

End Settings.

(* ===================================================================== *)
(** * The rewrite-on-mount routine: the body of [useEffect]

    The routine is a sequence of operations on three objects: the parsed
    document [doc], the live document (its [head], and the container of
    the component), and the state of the component. The model runs the
    routine on the parsed document and answers the operations in the order
    in which the routine performs them. *)
(* ===================================================================== *)

Module Effect.

(** A change of the parsed body, at the position of the element. *)
Inductive Change : Type :=
| SetAttr (name value : string)
| RemoveAttr (name : string)
| PutLogo (replaced : string) (newNode : Node).

Inductive Op : Type :=
| SetIsLoading (b : bool)
| HeadAppend (n : Node)
| ContainerClassName (className : string)
| ContainerSetAttribute (name value : string)
| ParsedBody (p : Path) (c : Change)
| ContainerInnerHTML (html : string)
| ImageOnError (p : Path)
| ImageProbe (src : string)
| SlideshowRemove (p : Path)
| StyleSet (p : Path) (property value : string)
| AwaitScripts (n : nat)
| SetTimeout (ms : nat).

(** The parsed document: the attributes of its root element, its [head]
    and its [body], each absent when [doc.querySelector] finds none. The
    elements of a parsed document have no layout: their [offsetWidth] and
    [offsetHeight] are 0. *)
Record Document : Type := mkDocument {
  htmlAttrs : Attrs;
  head : option Node;
  body : option Node
}.

(** [Math.round(parseInt(text) * factor).toString()] for the two factors
    of the routine: a computation on floating-point numbers, taken as a
    service. *)
Inductive Factor : Type := Shrink70 | Grow120.

(** The services of the browser the routine calls. [validName] is the
    check [setAttribute] makes on the name it is given: [false] where it
    throws [InvalidCharacterError] (the parser accepts names, such as
    [=x], that [setAttribute] refuses). [metaSelector] reads the selector
    [meta[name="key"]] for a [key] that does not stand for itself inside
    the quotes: [None] where [document.querySelector] throws
    [SyntaxError], else whether the selector finds an element among the
    nodes of the live document. *)
Record Platform : Type := mkPlatform {
  newURL : Url.constructor;
  parseFromString : string -> Document;
  html : Html.Services;
  json : Json.Services;
  roundScaled : Factor -> string -> string;
  random : nat -> string;
  validName : string -> bool;
  metaSelector : string -> option (list Node -> bool)
}.

(** The state of the component that outlives a run: the two sets of
    identifiers, and the live document the routine reads and extends. *)
Record State : Type := mkSt {
  stylesLoaded : list string;
  scriptsLoaded : list string;
  liveHead : list Node;
  liveOther : list Node;
  randoms : nat
}.

Definition has (set : list string) (x : string) : bool :=
  existsb (String.eqb x) set.

Definition add (set : list string) (x : string) : list string :=
  if has set x then set else (set ++ [x])%list.

Definition setAttrs (a : Attrs) (n : Node) : Node :=
  match n with
  | Element t _ c => Element t a c
  | other => other
  end.

(** The descendants of an element, as a forest. *)
Definition below (forest : list Node) (p : Path) : list Node :=
  match getAt forest p with
  | Some n => childrenOf n
  | None => []
  end.

(** [el.closest(sel)]: the position of the nearest element, from the
    element at [p] upwards inside the forest, that satisfies [sel]. *)
Definition closestPath (sel : Selector) (forest : list Node) (p : Path)
  : option Path :=
  find (fun q => match getAt forest q with
                 | Some (Element t a _) => sel t a
                 | _ => false
                 end)
       (p :: filter (fun q => negb (Nat.eqb (List.length q) 0)) (prefixes p)).

Section Routine.

Variable P : Platform.

Definition fixUrl : string -> string := fixAssetUrl (newURL P).
Definition assetFilename : string -> option string := getAssetFilename (newURL P).

(** ** (a) Head injection *)

(** [link[rel="stylesheet"], style]; the value of [rel] is compared
    without case, as selectors do in HTML documents. *)
Definition styleSelector : Selector :=
  fun t a =>
    (named "LINK" t &&
     match getAttribute "rel" a with
     | Some r => String.eqb (toLowerCase r) "stylesheet"
     | None => false
     end)
    || named "STYLE" t.

Definition externalFont (href : string) : bool :=
  includes href "fonts.googleapis.com" || includes href "googleapis.com"
  || includes href "gstatic.com".

(** One turn of the loop over the style sheets of the parsed head. *)
Definition injectStyle (st : State) (el : Node) : State * list Op :=
  match el with
  | Element "LINK" a c =>
      let href := attrOr "href" a EmptyString in
      let styleId := href in
      if has (stylesLoaded st) styleId then (st, [])
      else
        let injected (a' : Attrs) :=
          let clone := Element "LINK" (setAttribute "data-injected" "true" a') c in
          (mkSt (add (stylesLoaded st) styleId) (scriptsLoaded st)
                (liveHead st ++ [clone])%list (liveOther st) (randoms st),
           [HeadAppend clone]) in
        if externalFont href then (st, [])
        else if includes href "alluredigital.net" || startsWith href "http" then
          match assetFilename href with
          | Some filename =>
              if truthy filename
              then injected (setAttribute "href" ("/assets/" ++ filename) a)
              else (st, [])
          | None => (st, [])
          end
        else injected a
  | Element "STYLE" a c =>
      let text := take 50 (textContent el) in
      let styleId := if truthy text then text else random P (randoms st) in
      let randoms' := if truthy text then randoms st else S (randoms st) in
      if has (stylesLoaded st) styleId
      then (mkSt (stylesLoaded st) (scriptsLoaded st) (liveHead st)
                 (liveOther st) randoms', [])
      else
        let clone := Element "STYLE" (setAttribute "data-injected" "true" a) c in
        (mkSt (add (stylesLoaded st) styleId) (scriptsLoaded st)
              (liveHead st ++ [clone])%list (liveOther st) randoms',
         [HeadAppend clone])
  | _ => (st, [])
  end.

(** The name the selector [meta[name="..."]] is built from. *)
Definition metaKey (a : Attrs) : string :=
  match getAttribute "name" a with
  | Some n => if truthy n then n
              else match getAttribute "property" a with
                   | Some p => p
                   | None => "null"
                   end
  | None => match getAttribute "property" a with
            | Some p => p
            | None => "null"
            end
  end.

(** A name stands for itself inside the quoted string of the selector
    when it has no double quote, backslash, line break or null character:
    the selector is then well-formed and asks for that very value of
    [name]. What the selector is for another name (a backslash starts an
    escape, a double quote ends the string, a line break makes the string
    a bad one, a null character is read as another character) is left to
    [metaSelector]. *)
Definition plainName (s : string) : bool :=
  Url.all_chars
    (fun c => negb (Ascii.eqb c DQ || Ascii.eqb c BS || (code c =? 0)%N
                    || (code c =? 10)%N || (code c =? 12)%N || (code c =? 13)%N)) s.

Definition liveQuery (st : State) (sel : Selector) : bool :=
  match querySelectorAll sel (liveHead st ++ liveOther st)%list with
  | [] => false
  | _ :: _ => true
  end.

(** [document.querySelector(...)] of the duplicate check, as a boolean:
    [None] when the query throws. *)
Definition duplicateQuery (st : State) (t : string) (a : Attrs) : option bool :=
  if String.eqb t "META" then
    if plainName (metaKey a)
    then Some (liveQuery st (fun t' a' => named "META" t' &&
                               match getAttribute "name" a' with
                               | Some n => String.eqb n (metaKey a)
                               | None => false
                               end))
    else match metaSelector P (metaKey a) with
         | Some found => Some (found (liveHead st ++ liveOther st)%list)
         | None => None
         end
  else Some (liveQuery st (byTag "TITLE")).

(** One turn of the loop over [meta, title]; [None] when the query
    throws. *)
Definition injectMeta (st : State) (el : Node) : option (State * list Op) :=
  match el with
  | Element t a c =>
      let isMeta := String.eqb t "META" in
      match duplicateQuery st t a with
      | None => None
      | Some existing =>
        if existing then Some (st, [])
        else
          let c' :=
            if String.eqb t "TITLE" && truthy (textContent el)
            then textChildren (Branding.brandTitle (textContent el)) else c in
          let a' :=
            if isMeta then
              match getAttribute "content" a with
              | Some content =>
                  if truthy content
                  then setAttribute "content" (Branding.brandMeta content) a
                  else a
              | None => a
              end
            else a in
          let clone := Element t a' c' in
          Some (mkSt (stylesLoaded st) (scriptsLoaded st)
                     (liveHead st ++ [clone])%list (liveOther st) (randoms st),
                [HeadAppend clone])
      end
  | _ => Some (st, [])
  end.

Fixpoint forEachStyle (st : State) (els : list Node) : State * list Op :=
  match els with
  | [] => (st, [])
  | el :: rest =>
      let (st1, ops1) := injectStyle st el in
      let (st2, ops2) := forEachStyle st1 rest in
      (st2, (ops1 ++ ops2)%list)
  end.

(** The loop over [meta, title]: the state and the operations up to the
    end of the loop or to the throw, and whether the loop came to its
    end. *)
Fixpoint forEachMeta (st : State) (els : list Node) : State * list Op * bool :=
  match els with
  | [] => (st, [], true)
  | el :: rest =>
      match injectMeta st el with
      | None => (st, [], false)
      | Some (st1, ops1) =>
          let '(st2, ops2, ok) := forEachMeta st1 rest in
          (st2, (ops1 ++ ops2)%list, ok)
      end
  end.

Definition headInjection (st : State) (head : Node) : State * list Op * bool :=
  let inHead := childrenOf head in
  let (st1, ops1) := forEachStyle st (selectAll styleSelector inHead) in
  let '(st2, ops2, ok) :=
    forEachMeta st1 (selectAll (anyOf [byTag "META"; byTag "TITLE"]) inHead) in
  (st2, (ops1 ++ ops2)%list, ok).

(** ** (b) The parsed body *)

(** [setAttribute(name, value)] for every attribute but [class], in
    order, up to the first name [setAttribute] refuses: the operations,
    and whether the loop came to its end. *)
Fixpoint copyEach (attrs : Attrs) : list Op * bool :=
  match attrs with
  | [] => ([], true)
  | (name, value) :: rest =>
      if String.eqb name "class" then copyEach rest
      else if validName P name then
        let (ops, ok) := copyEach rest in
        (ContainerSetAttribute name value :: ops, ok)
      else ([], false)
  end.

(** The class and the attributes of the body go to the container; the
    boolean is [false] when a [setAttribute] throws. *)
Definition copyBodyAttributes (bodyAttrs : Attrs) : list Op * bool :=
  let bodyClasses := attrOr "class" bodyAttrs EmptyString in
  let (ops, ok) := copyEach bodyAttrs in
  (((if truthy bodyClasses then [ContainerClassName bodyClasses] else [])
    ++ ops)%list, ok).

Definition applyChange (c : Change) (a : Attrs) : Attrs :=
  match c with
  | SetAttr name value => setAttribute name value a
  | RemoveAttr name => removeAttribute name a
  | PutLogo _ _ => a
  end.

Definition applyChanges (cs : list Change) (a : Attrs) : Attrs :=
  fold_left (fun acc c => applyChange c acc) cs a.

(** A loop over the elements that satisfy [sel] which changes attributes
    only: [changes] answers the changes of one turn from the attributes of
    the element. *)
Definition forEachAttrs (sel : Selector) (changes : Attrs -> list Change)
           (forest : list Node) : list Node * list Op :=
  fold_left
    (fun (acc : list Node * list Op) (p : Path) =>
       let (f, ops) := acc in
       match getAt f p with
       | Some (Element t a c) =>
           let cs := changes a in
           (updateAt f p (setAttrs (applyChanges cs a)),
            (ops ++ map (ParsedBody p) cs)%list)
       | _ => acc
       end)
    (querySelectorAll sel forest) (forest, []).

Definition quoteChar (c : ascii) : bool := Ascii.eqb c "'" || Ascii.eqb c DQ.

(** [url(], an optional quote, group 1 a run of characters other than the
    quotes and [)], an optional quote, [)]; flag [g]. *)
Definition cssUrl : regex :=
  Seqs [ Lit "url("; Opt (Cls false quoteChar);
         Grp 1 (Plus (Cls false (fun c => negb (quoteChar c || Ascii.eqb c ")"))));
         Opt (Cls false quoteChar); Chr ")" ].

Definition welcomeText (s : string) : bool :=
  includes s "Welcome to" || includes s "Breaking Through"
  || includes s "Digital Impasse".

Definition sectionOrDiv : Selector := anyOf [byTag "SECTION"; byTag "DIV"].

(** [el.closest('section, div')?.querySelector(sel)?.textContent] names the
    welcome section. *)
Definition inWelcomeSection (sel : Selector) (forest : list Node) (p : Path) : bool :=
  match closestPath sectionOrDiv forest p with
  | Some q =>
      match querySelector sel (below forest q) with
      | Some h => welcomeText (textContent h)
      | None => false
      end
  | None => false
  end.

(** [parseInt(el.getAttribute(name) || el.offsetWidth.toString() || '200')]
    reads the attribute, or ["0"] on an element without layout. *)
Definition dimension (name : string) (a : Attrs) : string := attrOr name a "0".

Definition isLogoImage (src : string) : bool :=
  let srcLower := toLowerCase src in
  includes srcLower "allure" &&
  (includes srcLower "logo" || includes srcLower "asset-1"
   || includes srcLower "symbol").

Definition isInHeader (chain : Chain) : bool :=
  closestExists (byTag "HEADER") chain
  || closestExists (fun _ a => match getAttribute "data-elementor-type" a with
                               | Some v => String.eqb v "header"
                               | None => false
                               end) chain
  || closestExists (fun _ a => attrContainsCI "class" "elementor-location-header" a) chain.

Definition isInFooter (chain : Chain) : bool :=
  closestExists (byTag "FOOTER") chain
  || closestExists (fun _ a => attrContainsCI "class" "footer" a) chain.

Definition hasLogoClass (chain : Chain) : bool :=
  closestExists (fun _ a => attrContainsCI "class" "logo" a) chain
  || closestExists (fun _ a => attrContainsCI "class" "brand" a) chain
  || closestExists (fun _ a => attrContainsCI "class" "site-logo" a) chain
  || closestExists (fun _ a => attrContainsCI "class" "elementor-widget-image" a) chain.

(** The chain of the element at [p] of the body: up to the body and the
    root element. *)
Definition bodyChain (d : Document) (bodyAttrs : Attrs)
           (forest : list Node) (p : Path) : Chain :=
  (chainAt "BODY" bodyAttrs forest p ++ [("HTML", htmlAttrs d)])%list.

(** The Rimalweb logo that takes the place of a logo image. *)
Definition newLogo (a : Attrs) (inFooter : bool) : Node :=
  let width := roundScaled P Grow120 (dimension "width" a) in
  let height := roundScaled P Grow120 (dimension "height" a) in
  let classes := attrOr "class" a EmptyString in
  let style := attrOr "style" a EmptyString in
  let alt := attrOr "alt" a "Rimalweb" in
  let opacityStyle := if inFooter then "opacity: 0.5; " else EmptyString in
  Element "IMG"
    [ ("src", "/rimal.png"); ("width", width); ("height", height);
      ("alt", alt); ("class", classes);
      ("style", "width: " ++ width ++ "px; height: " ++ height
                ++ "px; object-fit: contain; " ++ opacityStyle ++ style) ]
    [].

(** One turn of the loop over [img[src]]. [dead] holds the positions of
    the anchors a logo has replaced: the images that were below them are
    out of the tree, and what the loop does to them changes nothing. The
    boolean is [false] from the turn on in which a call throws: the copy
    of the attributes of a parent anchor onto its clone is a
    [setAttribute] with the names of the page. *)
Definition imageStep (d : Document) (bodyAttrs : Attrs)
           (acc : list Node * list Path * list Op * bool) (p : Path)
  : list Node * list Path * list Op * bool :=
  let '(forest, dead, ops, running) := acc in
  if negb running then acc
  else if existsb (fun q => isPrefixOf q p) dead then acc
  else
    match getAt forest p with
    | Some (Element t a c) =>
        match getAttribute "src" a with
        | Some src =>
            if negb (truthy src) then acc
            else
              let fixedSrc := fixUrl src in
              let a1 := setAttribute "src" fixedSrc a in
              let forest1 := updateAt forest p (setAttrs a1) in
              let ops1 := [ParsedBody p (SetAttr "src" fixedSrc)] in
              let welcome :=
                inWelcomeSection
                  (anyOf [byTag "H2"; byTag "H1";
                          (fun _ x => hasClass "elementor-heading-title" x)])
                  forest1 p in
              let resize :=
                if welcome then
                  let width := roundScaled P Shrink70 (dimension "width" a1) in
                  let height := roundScaled P Shrink70 (dimension "height" a1) in
                  let currentStyle := attrOr "style" a1 EmptyString in
                  [ SetAttr "width" width; SetAttr "height" height;
                    SetAttr "style"
                      ("width: " ++ width ++ "px; height: " ++ height
                       ++ "px; max-width: " ++ width
                       ++ "px; object-fit: contain; " ++ currentStyle) ]
                else [] in
              let a2 := applyChanges resize a1 in
              let forest2 := updateAt forest1 p (setAttrs a2) in
              let ops2 := (ops ++ ops1 ++ map (ParsedBody p) resize)%list in
              let chain := bodyChain d bodyAttrs forest2 p in
              if isLogoImage src
                 && (isInHeader chain || isInFooter chain || hasLogoClass chain)
              then
                let logo := newLogo a2 (isInFooter chain) in
                let pp := parentPath p in
                match getAt forest2 pp with
                | Some (Element "A" pa _) =>
                    if forallb (fun kv => validName P (fst kv)) pa then
                      let link := Element "A" pa [logo] in
                      (updateAt forest2 pp (fun _ => link), pp :: dead,
                       (ops2 ++ [ParsedBody pp (PutLogo "A" link)])%list, true)
                    else (forest2, dead, ops2, false)
                | _ =>
                    (updateAt forest2 p (fun _ => logo), dead,
                     (ops2 ++ [ParsedBody p (PutLogo "IMG" logo)])%list, true)
                end
              else (forest2, dead, ops2, true)
        | None => acc
        end
    | _ => acc
    end.

(** The loop over [img[src]]: the new body, the operations, and whether
    the loop came to its end. *)
Definition fixImages (d : Document) (bodyAttrs : Attrs) (forest : list Node)
  : list Node * list Op * bool :=
  let '(forest', _, ops, ok) :=
    fold_left (imageStep d bodyAttrs)
      (querySelectorAll (fun t a => named "IMG" t && hasAttribute "src" a) forest)
      (forest, [], [], true) in
  (forest', ops, ok).

(** The loop over [link[href]]. *)
Definition fixCssLinks : list Node -> list Node * list Op :=
  forEachAttrs (fun t a => named "LINK" t && hasAttribute "href" a)
    (fun a => match getAttribute "href" a with
              | Some href => if truthy href then [SetAttr "href" (fixUrl href)] else []
              | None => []
              end).

(** The loop over [[style*="background"]]. *)
Definition fixBackgrounds : list Node -> list Node * list Op :=
  forEachAttrs (fun _ a => attrContains "style" "background" a)
    (fun a =>
       let style := attrOr "style" a EmptyString in
       [SetAttr "style"
          (replaceAllWith false cssUrl
             (fun _ cs => "url('" ++ fixUrl (cap 1 cs) ++ "')") style)]).

(** The changes of one turn of the loop over [a[href]]. *)
Definition anchorChanges (a : Attrs) : list Change :=
  match getAttribute "href" a with
  | None => []
  | Some href =>
      if truthy href && (startsWith href "tel:" || startsWith href "mailto:")
      then
        let currentStyle := attrOr "style" (removeAttribute "href" a) EmptyString in
        [ RemoveAttr "href";
          SetAttr "style"
            (trim (currentStyle ++ " pointer-events: none; cursor: default;")) ]
      else if truthy href && includes href "alluredigital.net" then
        match internalHref (newURL P) href with
        | Some h => [SetAttr "href" h]
        | None => []
        end
      else []
  end.

Definition fixLinks : list Node -> list Node * list Op :=
  forEachAttrs (fun t a => named "A" t && hasAttribute "href" a) anchorChanges.

(** ** (b) The body as a string *)

Definition notQuote : ascii -> bool := Settings.notQuote.

(** [src=], a double-quoted value, group 1, that holds [domain]; flags
    [gi]. *)
Definition srcWith (domain : string) : regex :=
  Seqs [ Lit "src="; Chr DQ;
         Grp 1 (Seqs [Star (Cls false notQuote); Lit domain; Star (Cls false notQuote)]);
         Chr DQ ].

(** [srcset=] and a double-quoted value, group 1; flags [gi]. *)
Definition srcsetAttr : regex :=
  Seqs [ Lit "srcset="; Chr DQ; Grp 1 (Star (Cls false notQuote)); Chr DQ ].

Definition notQuoteParen (c : ascii) : bool :=
  negb (quoteChar c || Ascii.eqb c ")").

(** [url(], an optional quote, group 1 a run without quotes and [)] that
    holds one of the two domains, an optional quote, [)]; flags [gi]. *)
Definition cssDomainUrl : regex :=
  Seqs [ Lit "url("; Opt (Cls false quoteChar);
         Grp 1 (Seqs [ Star (Cls false notQuoteParen);
                       Alt (Lit "alluredigital") (Lit "rimalweb"); Lit ".net";
                       Star (Cls false notQuoteParen) ]);
         Opt (Cls false quoteChar); Chr ")" ].

Definition toAllure (url : string) : string :=
  replaceAll true rimalwebNet "alluredigital.net" url.

(** [s.split(/\s+/)] on a trimmed string. *)
Definition splitSpaces (s : string) : list string :=
  match tokens s EmptyString with
  | [] => [EmptyString]
  | l => l
  end.

(** One candidate of a [srcset]. *)
Definition fixCandidate (src : string) : string :=
  let parts := splitSpaces (trim src) in
  let first := nth 0 parts EmptyString in
  if truthy first
     && (includes first "alluredigital.net" || includes first "rimalweb.net")
  then
    let urlToFix := if includes first "rimalweb.net" then toAllure first else first in
    fixUrl urlToFix
    ++ (if truthy (nth 1 parts EmptyString) then " " ++ nth 1 parts EmptyString
        else EmptyString)
  else trim src.

(** The rewrites of the serialised body, in the order of the source. *)
Definition rewriteBodyHtml (bodyHtml : string) : string :=
  let bodyHtml := Settings.rewriteDataSettings (newURL P) (json P) bodyHtml in
  let bodyHtml :=
    replaceAllWith true (srcWith "alluredigital.net")
      (fun _ cs => "src=" ++ dq ++ fixUrl (cap 1 cs) ++ dq) bodyHtml in
  let bodyHtml :=
    replaceAllWith true srcsetAttr
      (fun _ cs =>
         "srcset=" ++ dq
         ++ JsString.join ", " (map fixCandidate (split "," (cap 1 cs))) ++ dq)
      bodyHtml in
  let bodyHtml :=
    replaceAllWith true cssDomainUrl
      (fun _ cs =>
         let url := cap 1 cs in
         let urlToFix := if includes url "rimalweb.net" then toAllure url else url in
         "url('" ++ fixUrl urlToFix ++ "')")
      bodyHtml in
  let bodyHtml :=
    replaceAllWith true (srcWith "rimalweb.net")
      (fun _ cs => "src=" ++ dq ++ fixUrl (toAllure (cap 1 cs)) ++ dq) bodyHtml in
  bodyHtml.

(** The loops over the parsed body, then its text: the new body, the
    operations, and the HTML that goes to the container, [None] when the
    loop over the images has thrown. *)
Definition cleanBody (d : Document) (bodyAttrs : Attrs) (forest : list Node)
  : list Node * list Op * option string :=
  let '(f1, ops1, ok) := fixImages d bodyAttrs forest in
  if negb ok then (f1, ops1, None)
  else
    let (f2, ops2) := fixCssLinks f1 in
    let (f3, ops3) := fixBackgrounds f2 in
    let (f4, ops4) := fixLinks f3 in
    let bodyHtml := Html.serialize (html P) "BODY" f4 in
    let cleanedHtml := Branding.replaceBranding (html P) (rewriteBodyHtml bodyHtml) in
    let cleanedHtml := Contact.removeContactInfo (html P) cleanedHtml in
    (f4, (ops1 ++ ops2 ++ ops3 ++ ops4)%list, Some cleanedHtml).

(** ** (d) Fix-ups on the container after the insertion *)

Definition localAsset (src : string) : bool :=
  (includes src "/assets/" || includes src "alluredigital.net"
   || includes src "rimalweb.net")
  && negb (includes src "data:").

(** One turn of the loop over the images of the container: the error
    handler, then the probe with a new [Image]. *)
Definition guardImage (forest : list Node) (p : Path) : list Op :=
  match getAt forest p with
  | Some (Element _ a _) =>
      let src := attrOr "src" a EmptyString in
      if includes src "data:image/svg+xml" then []
      else (ImageOnError p :: (if localAsset src then [ImageProbe src] else []))
  | _ => []
  end.

Definition desktopImages : list string :=
  [ "/assets/alluredigital.net_wp-content_uploads_2023_01_MACBOOK.png";
    "/assets/alluredigital.net_wp-content_uploads_2023_01_imac.png";
    "/assets/alluredigital.net_wp-content_uploads_2023_01_IPAD-VER.png";
    "/assets/alluredigital.net_wp-content_uploads_2023_01_responsive-devices.png" ].

(** [background-image:], white space, then the [url( )] of [cssUrl]; flag
    [i]. *)
Definition backgroundImage : regex :=
  Seqs [Lit "background-image:"; Star space; cssUrl].

(** One turn of the loop over the elements with a background image. *)
Definition guardBackground (forest : list Node) (p : Path) : list Op :=
  match getAt forest p with
  | Some (Element _ a _) =>
      if inWelcomeSection (anyOf [byTag "H2"; byTag "H1"]) forest p
         && hasClass "bdt-scroll-image" a
      then
        match desktopImages with
        | first :: _ => [ImageProbe first]
        | [] => []
        end
      else
        let style := attrOr "style" a EmptyString in
        match Regex.search true backgroundImage style with
        | Some (_, _, cs, _) =>
            let bgUrl := cap 1 cs in
            if truthy bgUrl && localAsset bgUrl then [ImageProbe bgUrl] else []
        | None => []
        end
  | _ => []
  end.

(** JavaScript truthiness of a parsed value. *)
Definition truthyValue (v : Json.Value) : bool :=
  match v with
  | Json.Null => false
  | Json.Boolean b => b
  | Json.Number text => negb (String.eqb text "0" || String.eqb text "-0")
  | Json.Str s => truthy s
  | Json.Array _ | Json.Object _ => true
  end.

(** [v.includes(needle)]: on a string, on an array, a [TypeError]
    ([None]) on the other values. *)
Definition includesOf (v : Json.Value) (needle : string) : option bool :=
  match v with
  | Json.Str s => Some (includes s needle)
  | Json.Array items =>
      Some (existsb (fun i => match i with
                              | Json.Str s => String.eqb s needle
                              | _ => false
                              end) items)
  | _ => None
  end.

(** [v.url], [None] for [undefined]. *)
Definition urlOf (v : Json.Value) : option Json.Value :=
  match v with
  | Json.Object fields => Json.get "url" fields
  | _ => None
  end.

(** The decoding of the second reading of a [data-settings] value. *)
Definition decodeSettings (settings : string) : string :=
  Settings.lit "&#39;" "'" (Settings.lit "&gt;" ">" (Settings.lit "&lt;" "<"
    (Settings.lit "&quot;" dq (Settings.lit "&amp;" "&" settings)))).

(** The elements of the gallery, as far as the loop gets: it stops at an
    element whose [url] is neither a string nor an array. A [url] that is
    an array goes to [src] as the text [display] gives. *)
Fixpoint probeGallery (display : Json.Value -> string) (items : list Json.Value)
  : list Op :=
  match items with
  | [] => []
  | item :: rest =>
      if negb (truthyValue item) then probeGallery display rest
      else
        match urlOf item with
        | None => probeGallery display rest
        | Some u =>
            if negb (truthyValue u) then probeGallery display rest
            else
              match includesOf u "/assets/", includesOf u "alluredigital.net",
                    includesOf u "rimalweb.net" with
              | Some b1, Some b2, Some b3 =>
                  if b1 || b2 || b3
                  then ImageProbe (display u) :: probeGallery display rest
                  else probeGallery display rest
              | _, _, _ => []
              end
        end
  end.

(** The text of a value where a string is expected. *)
Fixpoint display (v : Json.Value) : string :=
  match v with
  | Json.Null => "null"
  | Json.Boolean true => "true"
  | Json.Boolean false => "false"
  | Json.Number text => text
  | Json.Str s => s
  | Json.Array items =>
      JsString.join ","
        (map (fun i => match i with Json.Null => EmptyString | _ => display i end) items)
  | Json.Object _ => "[object Object]"
  end.

(** The first element below [p] with the class of the slideshow that an
    earlier turn has not removed. *)
Definition findSlideshow (forest : list Node) (removed : list Path) (p : Path)
  : option Path :=
  find (fun q => negb (existsb (fun r => isPrefixOf r q
                                          && (List.length p <? List.length r)%nat)
                               removed))
       (map (fun q => (p ++ q)%list)
            (querySelectorAll (fun _ a => hasClass "elementor-background-slideshow" a)
                              (below forest p))).

(** One turn of the loop over [[data-settings]]: the operations and the
    slideshow it removes. A throw inside the [try] ends the turn. *)
Definition guardSlideshow (forest : list Node) (removed : list Path) (p : Path)
  : list Op * list Path :=
  match getAt forest p with
  | Some (Element _ a _) =>
      match getAttribute "data-settings" a with
      | Some settings =>
          if truthy settings && includes settings "background_slideshow_gallery" then
            match Json.parse (json P) (decodeSettings settings) with
            | Some (Json.Object fields) =>
                let gallery :=
                  match Json.get "background_slideshow_gallery" fields with
                  | Some (Json.Array items) => (probeGallery display items, removed)
                  | _ => ([], removed)
                  end in
                let classic :=
                  match Json.get "background_background" fields with
                  | Some (Json.Str kind) => String.eqb kind "classic"
                  | _ => false
                  end in
                match (if classic then Json.get "background_image" fields else None) with
                | Some image =>
                    if negb (truthyValue image) then gallery
                    else
                      match urlOf image with
                      | Some u =>
                          if negb (truthyValue u) then gallery
                          else
                            match includesOf u "about-banner", u with
                            | Some true, Json.Str url =>
                                let aboutBannerUrl := fixUrl url in
                                let slideshow := findSlideshow forest removed p in
                                ((match slideshow with
                                  | Some q => [SlideshowRemove q]
                                  | None => []
                                  end
                                  ++ [ StyleSet p "backgroundImage" ("url('" ++ aboutBannerUrl ++ "')");
                                       StyleSet p "backgroundSize" "70%";
                                       StyleSet p "backgroundPosition" "center";
                                       StyleSet p "backgroundRepeat" "no-repeat" ])%list,
                                 match slideshow with
                                 | Some q => q :: removed
                                 | None => removed
                                 end)
                            | Some true, _ => ([], removed)
                            | Some false, _ => gallery
                            | None, _ => ([], removed)
                            end
                      | None => gallery
                      end
                | None => gallery
                end
            | _ => ([], removed)
            end
          else ([], removed)
      | None => ([], removed)
      end
  | _ => ([], removed)
  end.

(** The three loops over the container, whose children are the parse of
    the cleaned HTML. *)
Definition fixups (cleanedHtml : string) : list Op :=
  let forest := Html.parseFragment (html P) cleanedHtml in
  let images :=
    flat_map (guardImage forest)
      (querySelectorAll (fun t a => named "IMG" t && hasAttribute "src" a) forest) in
  let backgrounds :=
    flat_map (guardBackground forest)
      (querySelectorAll (fun _ a => attrContains "style" "background-image" a
                                    || hasClass "bdt-scroll-image" a) forest) in
  let slideshows :=
    fst (fold_left
           (fun (acc : list Op * list Path) (p : Path) =>
              let (ops, removed) := acc in
              let (ops', removed') := guardSlideshow forest removed p in
              ((ops ++ ops')%list, removed'))
           (querySelectorAll (fun _ a => hasAttribute "data-settings" a) forest)
           ([], [])) in
  (images ++ backgrounds ++ slideshows)%list.

(** ** (e) Script injection and the signal of readiness *)

Definition externalApi (src : string) : bool :=
  existsb (includes src)
    [ "maps.googleapis.com"; "googleapis.com"; "gstatic.com";
      "googletagmanager.com"; "google-analytics.com"; "facebook.net";
      "clarity.ms"; "cleantalk.org"; "pearldiver.io"; "usbrowserspeed.com";
      "recaptcha" ].

Definition trackingText (scriptText : string) : bool :=
  existsb (includes scriptText)
    ["gtag"; "fbq"; "clarity"; "dataLayer"; "google"; "maps"; "recaptcha"].

(** [newScript.setAttribute(name, value)] for the attributes of the
    script of the page, in order, [src] left out when [skipSrc]: [None]
    when a [setAttribute] throws. *)
Fixpoint copyAttributes (skipSrc : bool) (from : Attrs) (to : Attrs)
  : option Attrs :=
  match from with
  | [] => Some to
  | (name, value) :: rest =>
      if skipSrc && String.eqb name "src" then copyAttributes skipSrc rest to
      else if validName P name
      then copyAttributes skipSrc rest (setAttribute name value to)
      else None
  end.

(** [newScript.async = true] and [newScript.defer = true] for a script
    of the page that has the attribute: the attribute of the new script,
    which the copy has set already, gets the empty text. *)
Definition setFlag (name : string) (from to : Attrs) : Attrs :=
  if hasAttribute name from then setAttribute name EmptyString to else to.

(** One turn of the loop over the scripts of the parsed document. The
    loop reads the [src] property: on an HTML script it is not empty
    exactly when the element has a [src] attribute; a script of another
    namespace (the [script] of SVG) has no such property and goes the way
    of the inline scripts, whatever its attributes. The state, the
    operations, and the number of promises pushed (0 or 1); [None] when
    the copy of the attributes throws, before anything is appended. *)
Definition injectScript (st : State) (script : Node)
  : option (State * list Op * nat) :=
  match script with
  | Element t a c =>
      let loaded (scriptId : string) (n : Node) (promises : nat) :=
        Some (mkSt (stylesLoaded st) (add (scriptsLoaded st) scriptId)
                   (liveHead st ++ [n])%list (liveOther st) (randoms st),
              [HeadAppend n], promises) in
      if String.eqb t "SCRIPT" && hasAttribute "src" a then
        let src := attrOr "src" a EmptyString in
        let scriptId := src in
        if externalApi src then Some (st, [], 0)
        else if has (scriptsLoaded st) scriptId then Some (st, [], 0)
        else
          let build (value : string) :=
            match copyAttributes true a [("src", value)] with
            | Some attrs =>
                loaded scriptId
                  (Element "SCRIPT" (setFlag "defer" a (setFlag "async" a attrs)) [])
                  1
            | None => None
            end in
          if includes src "alluredigital.net" || startsWith src "http" then
            match assetFilename src with
            | Some filename =>
                if truthy filename then build ("/assets/" ++ filename)
                else Some (st, [], 0)
            | None => Some (st, [], 0)
            end
          else build src
      else
        let scriptText := textContent script in
        if negb (truthy scriptText) then Some (st, [], 0)
        else if trackingText scriptText then Some (st, [], 0)
        else
          let scriptId := take 50 scriptText in
          if has (scriptsLoaded st) scriptId then Some (st, [], 0)
          else
            match copyAttributes false a [] with
            | Some attrs =>
                loaded scriptId (Element "SCRIPT" attrs (textChildren scriptText)) 0
            | None => None
            end
  | _ => Some (st, [], 0)
  end.

(** The loop over the scripts: the state, the operations and the promises
    up to the end of the loop or to the throw, and whether the loop came
    to its end. *)
Fixpoint forEachScript (st : State) (scripts : list Node)
  : State * list Op * nat * bool :=
  match scripts with
  | [] => (st, [], 0, true)
  | script :: rest =>
      match injectScript st script with
      | None => (st, [], 0, false)
      | Some (st1, ops1, n1) =>
          let '(st2, ops2, n2, ok) := forEachScript st1 rest in
          (st2, (ops1 ++ ops2)%list, n1 + n2, ok)
      end
  end.

(** [doc.querySelectorAll('script')] after the loops over the body: the
    scripts of HTML and those of the other namespaces. *)
Definition allScripts (d : Document) (bodyForest : list Node) : list Node :=
  let inHead := match head d with Some h => childrenOf h | None => [] end in
  (selectAll (byTag "SCRIPT") inHead ++ selectAll (byTag "SCRIPT") bodyForest)%list.

(** The loop over the scripts and, when it came to its end, the signal of
    readiness. *)
Definition scriptInjection (st : State) (d : Document) (bodyForest : list Node)
  : State * list Op * nat * bool :=
  let '(st', ops, promises, ok) := forEachScript st (allScripts d bodyForest) in
  (st',
   (ops ++ (if ok
            then [if Nat.eqb promises 0 then SetTimeout 100 else AwaitScripts promises]
            else []))%list,
   promises, ok).

(** ** The routine *)

(** The operations of the five phases, in the order of the phases, and
    whether the routine came to its end: [completed] is [false] when a
    call has thrown, and the operations are then those before the
    throw. *)
Record Run : Type := mkRun {
  headOps : list Op;
  bodyOps : list Op;
  insertion : list Op;
  fixupOps : list Op;
  scriptOps : list Op;
  promises : nat;
  final : State;
  completed : bool
}.


(** The routine on a parsed document. *)
Definition rewriteOnMount (st : State) (d : Document) : Run :=
  let '(st1, opsA, headDone) :=
    match head d with
    | Some h => headInjection st h
    | None => (st, [], true)
    end in
  if negb headDone then mkRun opsA [] [] [] [] 0 st1 false
  else
    match body d with
    | Some (Element _ bodyAttrs forest) =>
        let (opsC, copied) := copyBodyAttributes bodyAttrs in
        if negb copied then mkRun opsA opsC [] [] [] 0 st1 false
        else
          let '(forest', opsB, cleaned) := cleanBody d bodyAttrs forest in
          match cleaned with
          | None => mkRun opsA (opsC ++ opsB)%list [] [] [] 0 st1 false
          | Some cleanedHtml =>
              let '(st2, opsE, n, ok) := scriptInjection st1 d forest' in
              mkRun opsA
                    (opsC ++ opsB)%list
                    [ContainerInnerHTML cleanedHtml]
                    (fixups cleanedHtml)
                    opsE n st2 ok
          end
    | _ => mkRun opsA [] [] [] [] 0 st1 true
    end.


End Routine.

(** ** Reference platform *)

Definition hexValue (c : ascii) : option N :=
  if is_digit c then Some (code c - 48)%N
  else if ((97 <=? code c) && (code c <=? 102))%N then Some (code c - 87)%N
  else if ((65 <=? code c) && (code c <=? 70))%N then Some (code c - 55)%N
  else None.

Definition isHex (c : ascii) : bool :=
  match hexValue c with Some _ => true | None => false end.

Fixpoint numberOf (base : N) (digits : string) (acc : N) : N :=
  match digits with
  | EmptyString => acc
  | String c t =>
      numberOf base t
        (base * acc + match hexValue c with Some v => v | None => 0 end)%N
  end.

Fixpoint digitsOf (fuel : nat) (n : N) (acc : string) : string :=
  match fuel with
  | O => acc
  | S fuel' =>
      let acc' := String (ascii_of_N (48 + n mod 10)) acc in
      if (n / 10 =? 0)%N then acc' else digitsOf fuel' (n / 10)%N acc'
  end.

(** [parseInt(text)]: after white space a sign, then the digits, those
    of base 16 after [0x]; the sign, the magnitude and the number of
    digits read, [None] for [NaN]. *)
Definition parseIntRef (text : string) : option (bool * N * nat) :=
  let s := trimStart text in
  let (negative, s) :=
    match s with
    | String "-" t => (true, t)
    | String "+" t => (false, t)
    | _ => (false, s)
    end in
  let (base, digits) :=
    if startsWith (toLowerCase s) "0x"
    then (16%N, fst (Html.span isHex (drop 2 s)))
    else (10%N, fst (Html.span is_digit s)) in
  if truthy digits
  then Some (negative, numberOf base digits 0, String.length digits)
  else None.

(** [Math.round(parseInt(text) * factor).toString()] with exact
    arithmetic. The reference instance is exact where the number the
    text starts with has at most twelve digits and the product is not
    half way between two integers (the product of the language is a
    floating-point number, and which way such a tie goes depends on its
    rounding); outside that fragment it answers [NaN], and nothing below
    evaluates it there. *)
Definition roundScaledRef (f : Factor) (text : string) : string :=
  match parseIntRef text with
  | None => "NaN"
  | Some (negative, n, len) =>
      let tenths := match f with Shrink70 => (7 * n)%N | Grow120 => (12 * n)%N end in
      if (12 <? len)%nat || (tenths mod 10 =? 5)%N then "NaN"
      else
        let magnitude := if negative then ((tenths + 4) / 10)%N
                         else ((tenths + 5) / 10)%N in
        (if negative && negb (magnitude =? 0)%N then "-" else EmptyString)
        ++ digitsOf 20 magnitude EmptyString
  end.

Definition emptyDocument : Document := mkDocument [] None None.

(** The reference parser of documents reads a text of the shape
    [<html ..><head>..</head><body ..>..</body></html>], the content of
    the head and of the body in the fragment of [Html.parse], the head
    holding nothing but comments, white space and the elements that stay
    in a head; it answers the empty document on other texts, where
    nothing below evaluates it. *)
Definition staysInHead (n : Node) : bool :=
  match n with
  | Element t _ _ =>
      existsb (String.eqb t) ["TITLE"; "META"; "LINK"; "STYLE"; "SCRIPT"; "BASE"]
  | Text d => Url.all_chars is_space d
  | Comment _ => true
  end.

Definition afterTag (name : string) (s : string) : option (Attrs * string) :=
  if startsWith (toLowerCase s) ("<" ++ name)
  then
    let r := drop (S (String.length name)) s in
    Html.parseAttrs (S (String.length r)) r
  else None.

Definition parseDocumentRef (text : string) : Document :=
  if negb (Url.all_chars (fun c => negb ((code c =? 0)%N || (code c =? 13)%N)) text)
  then emptyDocument else
  match afterTag "html" text with
  | Some (rootAttrs, s1) =>
      match afterTag "head" s1 with
      | Some (headAttrs, s2) =>
          match Html.untilCI "</head>" s2 with
          | Some (headText, s3) =>
              match afterTag "body" (drop 7 s3) with
              | Some (bodyAttrs, s4) =>
                  match Html.untilCI "</body></html>" s4 with
                  | Some (bodyText, rest) =>
                      match Html.parseOpt headText, Html.parseOpt bodyText with
                      | Some inHead, Some inBody =>
                          if String.eqb (toLowerCase rest) "</body></html>"
                             && forallb staysInHead inHead
                          then mkDocument rootAttrs
                                 (Some (Element "HEAD" headAttrs inHead))
                                 (Some (Element "BODY" bodyAttrs inBody))
                          else emptyDocument
                      | _, _ => emptyDocument
                      end
                  | None => emptyDocument
                  end
              | None => emptyDocument
              end
          | None => emptyDocument
          end
      | None => emptyDocument
      end
  | None => emptyDocument
  end.

(** The check of [setAttribute] as the DOM Standard has it: a name is
    refused when it is empty or holds white space, the null character,
    [/], [=] or [>]. (A browser that checks the [Name] production of XML
    refuses more names.) *)
Definition validNameRef (name : string) : bool :=
  truthy name &&
  Url.all_chars
    (fun c => negb ((code c =? 0)%N || (code c =? 9)%N || (code c =? 10)%N
                    || (code c =? 12)%N || (code c =? 13)%N || (code c =? 32)%N
                    || Ascii.eqb c "/" || Ascii.eqb c "=" || Ascii.eqb c ">"))
    name.

(** The reading of the rest of [meta[name="key"]] after the opening
    quote, as CSS reads a string: where the string ends. *)
Inductive CssString : Type :=
| Closed (value : option string) (rest : string)
| AtEnd (value : option string)
| BadString.

Inductive CssMode : Type :=
| Plain
| Escape
| Hex (digits : nat) (value : N).

(** A character at the front of the value read so far, which is kept in
    reverse; [None] once the value has left ASCII: after an escape of a
    code above 127, and after a null character, which is read as the
    replacement character. *)
Definition pushChar (c : ascii) (acc : option string) : option string :=
  match acc with
  | Some a => if (code c =? 0)%N then None else Some (String c a)
  | None => None
  end.

Definition pushCode (v : N) (acc : option string) : option string :=
  if ((0 <? v) && (v <? 128))%N then pushChar (ascii_of_N v) acc else None.

Definition newline : ascii := ascii_of_N 10.

(** The line breaks of the input, each made one line feed. *)
Fixpoint cssLines (s : string) : string :=
  match s with
  | EmptyString => EmptyString
  | String c t =>
      if (code c =? 13)%N then
        match t with
        | String c' t' =>
            if (code c' =? 10)%N then String newline (cssLines t')
            else String newline (cssLines t)
        | EmptyString => String newline EmptyString
        end
      else if (code c =? 12)%N then String newline (cssLines t)
      else String c (cssLines t)
  end.

Fixpoint cssString (m : CssMode) (s : string) (acc : option string) : CssString :=
  match s with
  | EmptyString =>
      match m with
      | Hex _ v => AtEnd (pushCode v acc)
      | _ => AtEnd acc
      end
  | String c t =>
      let plain (acc : option string) :=
        if Ascii.eqb c DQ then Closed acc t
        else if Ascii.eqb c newline then BadString
        else if Ascii.eqb c BS then cssString Escape t acc
        else cssString Plain t (pushChar c acc) in
      match m with
      | Plain => plain acc
      | Escape =>
          if Ascii.eqb c newline then cssString Plain t acc
          else match hexValue c with
               | Some v => cssString (Hex 1 v) t acc
               | None => cssString Plain t (pushChar c acc)
               end
      | Hex n v =>
          match hexValue c with
          | Some w =>
              if (n <? 6)%nat then cssString (Hex (S n) (16 * v + w)%N) t acc
              else plain (pushCode v acc)
          | None =>
              if Ascii.eqb c newline || Ascii.eqb c " " || (code c =? 9)%N
              then cssString Plain t (pushCode v acc)
              else plain (pushCode v acc)
          end
      end
  end.

Definition reverseValue (v : option string) : option string :=
  match v with
  | Some s => Some (reverse s)
  | None => None
  end.

(** [meta[name="value"]] *)
Definition metaNamedQuery (value : string) (nodes : list Node) : bool :=
  match querySelectorAll
          (fun t a => named "META" t &&
                      match getAttribute "name" a with
                      | Some n => String.eqb n value
                      | None => false
                      end) nodes with
  | [] => false
  | _ :: _ => true
  end.

(** The reference reading of the selector of the duplicate check. It is
    exact where the string of the selector runs to the quote the routine
    writes after the key, or to the end of the text, with a value in
    ASCII; where a line break makes it a bad string; and where a quote
    inside the key is followed by letters and digits only, which no
    selector allows before the text that is left. It answers [None] for
    every other quote inside the key and no element for a value outside
    ASCII, where nothing below evaluates it. *)
Definition metaSelectorRef (key : string) : option (list Node -> bool) :=
  match cssString Plain (cssLines (key ++ dq ++ "]")) (Some EmptyString) with
  | Closed v rest =>
      if String.eqb rest "]" then
        match reverseValue v with
        | Some value => Some (metaNamedQuery value)
        | None => Some (fun _ => false)
        end
      else None
  | AtEnd v =>
      match reverseValue v with
      | Some value => Some (metaNamedQuery value)
      | None => Some (fun _ => false)
      end
  | BadString => None
  end.

Definition referencePlatform : Platform :=
  mkPlatform Url.reference parseDocumentRef Html.reference Json.reference
             roundScaledRef (fun n => "0." ++ digitsOf 20 (N.of_nat n) EmptyString)
             validNameRef metaSelectorRef.

Definition freshState : State := mkSt [] [] [] [] 0.

End Effect.

(* ===================================================================== *)
(** * Readiness: the promises of the scripts and the timers

    What the routine leaves behind when it returns: a promise for every
    external script it appended, resolved by the [load] and by the [error]
    event of the script; [Promise.all] on them with a completion callback
    that starts a timer of 300 ms and a rejection handler that hides the
    overlay at once; or, without any promise, a timer of 100 ms. The event
    loop is a transition system over these: an event of a script, the
    passing of time, the firing of a timer that is due. The callbacks of a
    promise run in the turn of the event that settles it. *)
(* ===================================================================== *)

Module Readiness.

(** What the page does to the completion callback: [jQuery(document)
    .ready(...)] is a call into a script of the page, and the callback
    throws when that call does. *)
Record Env : Type := mkEnv {
  completionThrows : bool
}.

Record Loop : Type := mkLoop {
  now : nat;
  isLoading : bool;
  pending : list nat;
  settledAt : option nat;
  timers : list nat
}.

Inductive Event : Type :=
| ScriptLoad (i : nat)
| ScriptError (i : nat)
| Elapse (ms : nat)
| TimerFires.

(** The state when the routine returns at time [t0] with [n] promises. *)
Definition afterEffect (n t0 : nat) : Loop :=
  mkLoop t0 true (seq 0 n) None
         (if Nat.eqb n 0 then [t0 + 100] else []).

(** [resolve()] of the promise of script [i]; when it was the last one
    pending, [Promise.all] is fulfilled and its callback runs. *)
Definition resolve (env : Env) (i : nat) (s : Loop) : Loop :=
  if existsb (Nat.eqb i) (pending s) then
    let pending' := filter (fun j => negb (Nat.eqb i j)) (pending s) in
    match pending' with
    | [] =>
        if completionThrows env
        then mkLoop (now s) false [] (Some (now s)) (timers s)
        else mkLoop (now s) (isLoading s) [] (Some (now s))
                    (timers s ++ [now s + 300])
    | _ :: _ => mkLoop (now s) (isLoading s) pending' (settledAt s) (timers s)
    end
  else s.

(** The first timer that is due fires: [setIsLoading(false)]. *)
Fixpoint fire (t : nat) (l : list nat) : option (list nat) :=
  match l with
  | [] => None
  | due :: rest =>
      if (due <=? t)%nat then Some rest
      else match fire t rest with
           | Some rest' => Some (due :: rest')
           | None => None
           end
  end.

Definition step (env : Env) (s : Loop) (e : Event) : Loop :=
  match e with
  | ScriptLoad i => resolve env i s
  | ScriptError i => resolve env i s
  | Elapse ms => mkLoop (now s + ms) (isLoading s) (pending s) (settledAt s) (timers s)
  | TimerFires =>
      match fire (now s) (timers s) with
      | Some rest => mkLoop (now s) false (pending s) (settledAt s) rest
      | None => s
      end
  end.

Definition run (env : Env) (s : Loop) (events : list Event) : Loop :=
  fold_left (step env) events s.

(** The state is one the event loop can be in after the routine returned
    at [t0] with [n] promises. *)
Definition consistent (env : Env) (n t0 : nat) (s : Loop) : Prop :=
  t0 <= now s /\
  match n with
  | O =>
      pending s = [] /\ settledAt s = None /\
      Forall (fun due => due = t0 + 100) (timers s) /\
      (isLoading s = false -> t0 + 100 <= now s)
  | S _ =>
      match pending s with
      | _ :: _ => isLoading s = true /\ timers s = [] /\ settledAt s = None
      | [] =>
          exists t, settledAt s = Some t /\ t0 <= t /\ t <= now s /\
                    (completionThrows env = false ->
                     Forall (fun due => due = t + 300) (timers s) /\
                     (isLoading s = false -> t + 300 <= now s))
      end
  end.

End Readiness.

(* ===================================================================== *)
(** * Reading the operations of a run *)
(* ===================================================================== *)

Module Trace.

Import Effect.





Definition appendsScript (o : Op) : bool :=
  match o with
  | HeadAppend (Element t _ _) => String.eqb t "SCRIPT"
  | _ => false
  end.






End Trace.

(* ===================================================================== *)
(** * What the component renders *)
(* ===================================================================== *)

Module Render.

Import Effect.













End Render.

(** ** A page for the examples *)

Definition samplePage : string :=
  "<html lang='en'><head><title>Allure Digital</title>"
  ++ "<link rel='stylesheet' href='https://alluredigital.net/wp-content/litespeed/css/main.css?ver=3'>"
  ++ "<meta name='description' content='Allure Digital agency'>"
  ++ "<script src='https://alluredigital.net/wp-includes/js/jquery.min.js'></script>"
  ++ "</head><body class='home'>"
  ++ "<header><a href='https://alluredigital.net/'>"
  ++ "<img src='https://alluredigital.net/wp-content/uploads/2022/12/Allure-Logo.png' width='200' height='50' alt='Allure Digital'>"
  ++ "</a></header><p>Welcome</p>"
  ++ "</body></html>".

Definition sampleRun : Effect.Run :=
  Effect.rewriteOnMount Effect.referencePlatform Effect.freshState
    (Effect.parseFromString Effect.referencePlatform samplePage).

Definition sampleLogo : Node :=
  Element "IMG"
    [("src", "/rimal.png"); ("width", "240"); ("height", "60");
     ("alt", "Allure Digital"); ("class", "");
     ("style", "width: 240px; height: 60px; object-fit: contain; ")] [].

(** ** Induction on nodes *)

Section NodeInduction.

Variable P : Node -> Prop.
Hypothesis P_element : forall t a c, Forall P c -> P (Element t a c).
Hypothesis P_text : forall d, P (Text d).
Hypothesis P_comment : forall d, P (Comment d).

Fixpoint Node_forall_ind (n : Node) : P n :=
  match n with
  | Element t a c =>
      P_element t a c
        ((fix all (l : list Node) : Forall P l :=
            match l with
            | [] => Forall_nil P
            | x :: r => Forall_cons x (Node_forall_ind x) (all r)
            end) c)
  | Text d => P_text d
  | Comment d => P_comment d
  end.

End NodeInduction.

(* ===================================================================== *)
(** * Further definitions: what the statements below speak of *)
(* ===================================================================== *)

(** A character that can stand in a flat file name: neither [/] nor
    [?]. *)
Definition flatChar (c : ascii) : bool :=
  negb (Ascii.eqb c "/") && negb (Ascii.eqb c "?").

(** What a match can hold: the state of the matcher keeps to characters
    of the text it runs on that satisfy [p]. *)
Definition charsOk (p : ascii -> bool) (st : mstate) : Prop :=
  all_chars p (rest st) = true /\
  Forall (fun ic => all_chars p (snd ic) = true) (caps st).

(** The attributes of an anchor that the loop over [a[href]] writes. *)
Definition linkWritten (kv : string * string) : bool :=
  String.eqb (fst kv) "href" || String.eqb (fst kv) "style".

(** A tree without the [href] and [style] attributes of its anchors. *)
Fixpoint forgetLinks (n : Node) : Node :=
  match n with
  | Element t a c =>
      Element t
        (if named "A" t then filter (fun kv => negb (linkWritten kv)) a else a)
        (map forgetLinks c)
  | other => other
  end.

(** The ten patterns of the string pass of [removeContactInfo], in the
    order of the source. *)
Definition contactPatterns : list regex :=
  [ Contact.phoneParenDash; Contact.phoneDashes; Contact.phoneParenSpace;
    Contact.phoneSpaces; Contact.telLink; Contact.infoMail; Contact.anyMail;
    Contact.mailtoLink; Contact.streetAndCity; Contact.cityZip ].

(** The elements of a tree, tag and attributes, in document order. *)
Fixpoint elementsOf (n : Node) : list (string * Attrs) :=
  match n with
  | Element t a c => (t, a) :: flat_map elementsOf c
  | _ => []
  end.

(** The comments of a tree, in document order. *)
Fixpoint commentsOf (n : Node) : list string :=
  match n with
  | Element _ _ c => flat_map commentsOf c
  | Text _ => []
  | Comment d => [d]
  end.

(** [s.replace(/c/g, r)] for one character [c], written out. *)
Fixpoint substChar (c : ascii) (r s : string) : string :=
  match s with
  | EmptyString => EmptyString
  | String a t => (if Ascii.eqb a c then r else String a EmptyString) ++ substChar c r t
  end.

(** A character that cannot end a double-quoted attribute value or open
    a tag inside it. *)
Definition attrSafe (c : ascii) : bool :=
  negb (Ascii.eqb c DQ || Ascii.eqb c "'" || Ascii.eqb c "<" || Ascii.eqb c ">").

(** A parsed value without the text of its strings and without the keys
    an assignment does not keep. *)
Fixpoint skeleton (v : Json.Value) : Json.Value :=
  match v with
  | Json.Str _ => Json.Str EmptyString
  | Json.Array items => Json.Array (map skeleton items)
  | Json.Object fields =>
      Json.Object
        ((fix each (l : list (string * Json.Value)) : list (string * Json.Value) :=
            match l with
            | [] => []
            | (key, w) :: rest =>
                if String.eqb key "__proto__" then each rest
                else (key, skeleton w) :: each rest
            end) fields)
  | other => other
  end.

(** ** Induction on parsed values *)

Section ValueInduction.

Variable Q : Json.Value -> Prop.
Hypothesis Q_null : Q Json.Null.
Hypothesis Q_boolean : forall b, Q (Json.Boolean b).
Hypothesis Q_number : forall t, Q (Json.Number t).
Hypothesis Q_str : forall s, Q (Json.Str s).
Hypothesis Q_array : forall items, Forall Q items -> Q (Json.Array items).
Hypothesis Q_object :
  forall fields, Forall (fun kv => Q (snd kv)) fields -> Q (Json.Object fields).

Fixpoint Value_forall_ind (v : Json.Value) : Q v :=
  match v with
  | Json.Null => Q_null
  | Json.Boolean b => Q_boolean b
  | Json.Number t => Q_number t
  | Json.Str s => Q_str s
  | Json.Array items =>
      Q_array items
        ((fix all (l : list Json.Value) : Forall Q l :=
            match l with
            | [] => Forall_nil Q
            | x :: r => Forall_cons x (Value_forall_ind x) (all r)
            end) items)
  | Json.Object fields =>
      Q_object fields
        ((fix all (l : list (string * Json.Value))
            : Forall (fun kv => Q (snd kv)) l :=
            match l with
            | [] => Forall_nil _
            | (k, w) :: r =>
                Forall_cons (P := fun kv => Q (snd kv)) (k, w)
                            (Value_forall_ind w) (all r)
            end) fields)
  end.

End ValueInduction.


(** The script [i] fires its [load] or its [error] event among
    [events]. *)
Definition fired (i : nat) (events : list Readiness.Event) : bool :=
  existsb (fun e => match e with
                    | Readiness.ScriptLoad j | Readiness.ScriptError j => Nat.eqb i j
                    | _ => false
                    end) events.

(** The overlay can still go: it is down, or scripts are awaited and no
    timer runs, or a timer runs that is due within 300 ms. *)
Definition willSettle (s : Readiness.Loop) : Prop :=
  Readiness.isLoading s = false \/
  (Readiness.pending s <> [] /\ Readiness.timers s = []) \/
  (Readiness.timers s <> [] /\
   Forall (fun due => due <= Readiness.now s + 300) (Readiness.timers s)).

(** [meta[name="key"]], the selector of the duplicate check. *)
Definition metaNamed (key : string) : Selector :=
  fun t a => named "META" t &&
             match getAttribute "name" a with
             | Some n => String.eqb n key
             | None => false
             end.

(** An element of tag [tag] is appended to the head. *)
Definition appendsTag (tag : string) (o : Effect.Op) : bool :=
  match o with
  | Effect.HeadAppend (Element t _ _) => String.eqb t tag
  | _ => false
  end.

(** A change of the attributes of the elements that satisfy [sel], as a
    map over the tree. *)
Fixpoint mapAttrs (sel : Selector) (g : Attrs -> Attrs) (n : Node) : Node :=
  match n with
  | Element t a c => Element t (if sel t a then g a else a) (map (mapAttrs sel g) c)
  | other => other
  end.

(** One turn of [forEachAttrs], on the forest alone. *)
Definition turn (changes : Attrs -> list Effect.Change)
           (f : list Node) (p : Path) : list Node :=
  match getAt f p with
  | Some (Element t a c) =>
      updateAt f p (Effect.setAttrs (Effect.applyChanges (changes a) a))
  | _ => f
  end.

(** What the loop over [link[href]] does to the attributes of one
    element: [href] becomes [fixAssetUrl(href)] when it is not empty. *)
Definition cssLinkAttrs (P : Effect.Platform) (a : Attrs) : Attrs :=
  match getAttribute "href" a with
  | Some href => if truthy href then setAttribute "href" (Effect.fixUrl P href) a else a
  | None => a
  end.

(** What the loop over [[style*="background"]] does to the attributes of
    one element: every [url( )] of the style is rewritten. *)
Definition backgroundAttrs (P : Effect.Platform) (a : Attrs) : Attrs :=
  setAttribute "style"
    (replaceAllWith false Effect.cssUrl
       (fun _ cs => "url('" ++ Effect.fixUrl P (cap 1 cs) ++ "')")
       (attrOr "style" a EmptyString)) a.




(* ===================================================================== *)
(** * Properties *)
(* ===================================================================== *)

(** ** The primitives on concrete inputs *)

Example replaceAll_ci :
  replaceAll true (Lit "ab") "X" "zABcabab-" = "zXcXX-".
Proof. reflexivity. Qed.

Example replaceAll_word_boundary :
  replaceAll true (Seqs [Wb; Lit "PPC"; Wb]) "Ads" "PPC xPPC ppc." = "Ads xPPC Ads.".
Proof. reflexivity. Qed.

Example star_is_greedy_and_backtracks :
  matchHere false (Seqs [Star (Cls false is_alpha); Chr "b"]) None "aabab!"
  = Some ("aabab", []).
Proof. reflexivity. Qed.

Example reference_absolute :
  reference "https://www.Example.com/a/b.css?ver=1#top" None
  = Some (mkURL "https:" "www.example.com" "/a/b.css" "?ver=1" "#top").
Proof. reflexivity. Qed.

Example reference_relative :
  reference "/wp-content/x.js" (Some "https://alluredigital.net")
  = Some (mkURL "https:" "alluredigital.net" "/wp-content/x.js" "" "").
Proof. reflexivity. Qed.

Example reference_relative_dir :
  reference "a/../b/./c" (Some "https://alluredigital.net/x/y")
  = Some (mkURL "https:" "alluredigital.net" "/x/b/c" "" "").
Proof. reflexivity. Qed.

Example reference_bare_host :
  reference "https://alluredigital.net" None
  = Some (mkURL "https:" "alluredigital.net" "/" "" "").
Proof. reflexivity. Qed.

Example reference_opaque :
  reference "mailto:info@alluredigital.net" None
  = Some (mkURL "mailto:" "" "info@alluredigital.net" "" "").
Proof. reflexivity. Qed.

Example reference_no_scheme_no_base :
  reference "//alluredigital.net/blog" None = None.
Proof. reflexivity. Qed.

Example getAssetFilename_uploads :
  getAssetFilename reference
    "https://www.alluredigital.net/wp-content/uploads/2023/01/MACBOOK.png?x=1"
  = Some "alluredigital.net_wp-content_uploads_2023_01_MACBOOK.png".
Proof. reflexivity. Qed.

Example getAssetFilename_root :
  getAssetFilename reference "https://alluredigital.net/" = None.
Proof. reflexivity. Qed.

Example fixAssetUrl_size_suffix :
  fixAssetUrl reference
    "https://alluredigital.net/wp-content/uploads/2022/12/about-banner-2048x903.png"
  = "/assets/alluredigital.net_wp-content_uploads_2022_12_about-banner.png".
Proof. reflexivity. Qed.

Example fixAssetUrl_rimalweb :
  fixAssetUrl reference "//Rimalweb.net/a/b.css" = "/assets/alluredigital.net_a_b.css".
Proof. reflexivity. Qed.

(** ** Asset remap *)

Lemma first_piece_beforeFirst (sep : ascii) (s : string) :
  hd EmptyString (split sep s) = beforeFirst sep s.
Proof.
  induction s as [|c t IH]; simpl; [reflexivity|].
  destruct (Ascii.eqb c sep); [reflexivity|].
  destruct (split sep t) as [|p ps]; simpl in *; rewrite <- IH; reflexivity.
Qed.

Lemma branches_agree (u : URL) :
  litespeedBranch u = generalBranch u /\ uploadsBranch u = generalBranch u.
Proof. split; reflexivity. Qed.

Lemma generalBranch_rule (u : URL) :
  generalBranch u = orNull (codeAssetName u).
Proof.
  unfold generalBranch, codeAssetName.
  now rewrite first_piece_beforeFirst.
Qed.

Lemma all_chars_drop (p : ascii -> bool) (n : nat) (s : string) :
  all_chars p s = true -> all_chars p (drop n s) = true.
Proof.
  revert s; induction n as [|n IH]; intros [|c t] H; simpl; auto.
  simpl in H. apply andb_true_iff in H as [_ H]. now apply IH.
Qed.

Lemma all_chars_removeFirst (p : ascii -> bool) (pat s : string) :
  all_chars p s = true -> all_chars p (replaceFirst pat "" s) = true.
Proof.
  induction s as [|c t IH]; intros H.
  - simpl. destruct pat; reflexivity.
  - cbn [replaceFirst]. destruct (startsWith (String c t) pat).
    + cbn [append]. now apply all_chars_drop.
    + simpl in *. apply andb_true_iff in H as [Hc H].
      rewrite Hc. now apply IH.
Qed.

Lemma all_chars_app (p : ascii -> bool) (s t : string) :
  all_chars p s = true -> all_chars p t = true -> all_chars p (s ++ t) = true.
Proof.
  induction s as [|c s IH]; simpl; intros Hs Ht; auto.
  apply andb_true_iff in Hs as [Hc Hs]. rewrite Hc. now apply IH.
Qed.

Lemma pathParts_nonempty (u : URL) :
  pathParts u <> [] -> pathname u <> EmptyString.
Proof.
  unfold pathParts. intros H E. rewrite E in H. now apply H.
Qed.

Lemma name_truthy (s : string) :
  s <> EmptyString -> noQueryMark s = true ->
  truthy (beforeFirst "?" (replaceChar "/" "_" s)) = true.
Proof.
  destruct s as [|c t]; [congruence|]. intros _ H.
  unfold noQueryMark in H. simpl in H.
  apply andb_true_iff in H as [Hc _]. simpl.
  destruct (Ascii.eqb c "/") eqn:Es; [reflexivity|].
  apply negb_true_iff in Hc. now rewrite Hc.
Qed.

Lemma codeAssetName_truthy (u : URL) :
  pathParts u <> [] ->
  noQueryMark (hostname u) = true -> noQueryMark (pathname u) = true ->
  truthy (codeAssetName u) = true.
Proof.
  intros Hp Hh Hq. unfold codeAssetName. apply name_truthy.
  - apply pathParts_nonempty in Hp.
    destruct (replaceFirst "www." "" (hostname u)); simpl; congruence.
  - unfold noQueryMark in *. apply all_chars_app; [|assumption].
    now apply all_chars_removeFirst.
Qed.

Lemma getAssetFilename_codeRule (newURL : Url.constructor) (url : string) :
  getAssetFilename newURL url = codeRule newURL url.
Proof.
  unfold getAssetFilename, codeRule, ruleWith.
  destruct (newURL url (Some siteBase)) as [u|]; [|reflexivity].
  destruct (pathParts u) as [|x l]; [reflexivity|]. cbn [List.length Nat.eqb].
  rewrite (proj1 (branches_agree u)), (proj2 (branches_agree u)).
  rewrite generalBranch_rule.
  now destruct (includes (pathname u) "/litespeed/"),
               (includes (pathname u) "/wp-content/uploads/").
Qed.

(** C1 (as amended). [getAssetFilename] answers [null] when the URL cannot
    be parsed and when its path has no non-empty segment; on every other
    URL object (whose host name and path, as the URL Standard has it, hold
    no [?]) it answers the host name with its first [www.] removed,
    wherever that stands, followed by the path, every [/] turned into [_],
    cut at the first [?]. *)
Theorem getAssetFilename_rule (newURL : Url.constructor) (url : string) :
  (newURL url (Some siteBase) = None -> getAssetFilename newURL url = None) /\
  (forall u, newURL url (Some siteBase) = Some u ->
     (pathParts u = [] -> getAssetFilename newURL url = None) /\
     (pathParts u <> [] ->
      noQueryMark (hostname u) = true -> noQueryMark (pathname u) = true ->
      getAssetFilename newURL url = Some (codeAssetName u))).
Proof.
  rewrite getAssetFilename_codeRule. unfold codeRule, ruleWith. split.
  - now intros ->.
  - intros u ->. split.
    + now intros ->.
    + intros Hp Hh Hq. pose proof (codeAssetName_truthy u Hp Hh Hq) as Ht.
      destruct (pathParts u); [congruence|].
      unfold orNull. now rewrite Ht.
Qed.

Lemma getAssetFilename_rule_witness :
  let url := "https://www.alluredigital.net/wp-content/litespeed/css/a.css?ver=2" in
  let u := mkURL "https:" "www.alluredigital.net" "/wp-content/litespeed/css/a.css" "?ver=2" "" in
  reference url (Some siteBase) = Some u /\
  pathParts u <> [] /\
  noQueryMark (hostname u) = true /\ noQueryMark (pathname u) = true /\
  getAssetFilename reference url
  = Some "alluredigital.net_wp-content_litespeed_css_a.css".
Proof.
  intros url u.
  assert (Hp : pathParts u <> []) by (vm_compute; discriminate).
  split; [reflexivity|]. split; [exact Hp|].
  split; [reflexivity|]. split; [reflexivity|].
  exact (proj2 (proj2 (getAssetFilename_rule reference url) u eq_refl)
           Hp eq_refl eq_refl).
Defined.

(** C1 as stated fails: a [www.] inside the host name is removed too,
    where the rule of the specification only drops a leading one. *)
Lemma getAssetFilename_inner_www :
  let url := "https://cdn.www.alluredigital.net/css/site.css" in
  let u := mkURL "https:" "cdn.www.alluredigital.net" "/css/site.css" "" "" in
  reference url (Some siteBase) = Some u /\
  pathParts u <> [] /\
  specAssetName u = "cdn.www.alluredigital.net_css_site.css" /\
  getAssetFilename reference url = Some "cdn.alluredigital.net_css_site.css" /\
  getAssetFilename reference url <> Some (specAssetName u).
Proof.
  repeat split; try reflexivity; vm_compute; discriminate.
Qed.

(** C8 (as amended). The three branches of [getAssetFilename] compute the
    same value on every URL object, and the function is extensionally the
    single rule: host name with its first [www.] removed (wherever it
    stands), then the path, slashes as underscores, cut at the first [?];
    under the guards of the function. *)
Theorem getAssetFilename_single_rule (newURL : Url.constructor) (url : string) :
  (forall u, litespeedBranch u = uploadsBranch u /\
             uploadsBranch u = generalBranch u /\
             generalBranch u = orNull (codeAssetName u)) /\
  getAssetFilename newURL url = codeRule newURL url.
Proof.
  split.
  - intros u. rewrite (proj1 (branches_agree u)), (proj2 (branches_agree u)).
    now rewrite generalBranch_rule.
  - apply getAssetFilename_codeRule.
Qed.

(** C8 as stated fails: with the rule that only drops a leading [www.] the
    function and the rule part on a host name with an inner [www.]. *)
Lemma getAssetFilename_not_specRule :
  let url := "https://shop.www.alluredigital.net/wp-content/uploads/2023/01/imac.png" in
  getAssetFilename reference url
  = Some "shop.alluredigital.net_wp-content_uploads_2023_01_imac.png" /\
  specRule reference url
  = Some "shop.www.alluredigital.net_wp-content_uploads_2023_01_imac.png" /\
  getAssetFilename reference url <> specRule reference url.
Proof.
  repeat split; try reflexivity; vm_compute; discriminate.
Qed.

Lemma fixAssetUrl_cases (newURL : Url.constructor) (u : string) :
  fixAssetUrl newURL u = u \/
  exists t, fixAssetUrl newURL u = "/assets/" ++ t.
Proof.
  unfold fixAssetUrl.
  destruct (negb (truthy u) || startsWith u "data:" || startsWith u "/assets/");
    [now left|].
  assert (Hap : forall o r, assetPath o = Some r -> exists t, r = "/assets/" ++ t).
  { intros [f|] r; simpl; [|discriminate].
    destruct (truthy f); [|discriminate].
    intros [= <-]. eauto. }
  match goal with |- context [match ?a with Some _ => _ | None => _ end] =>
    destruct a as [r|] eqn:E1 end.
  - right. destruct (includes u "alluredigital.net" || startsWith u "http");
      [|discriminate]. now apply Hap in E1.
  - match goal with |- context [match ?a with Some _ => _ | None => _ end] =>
      destruct a as [r|] eqn:E2 end; [|now left].
    right. destruct (includes u "rimalweb.net" || includes u "Rimalweb.net");
      [|discriminate]. now apply Hap in E2.
Qed.

Lemma fixAssetUrl_assets (newURL : Url.constructor) (t : string) :
  fixAssetUrl newURL ("/assets/" ++ t) = "/assets/" ++ t.
Proof.
  unfold fixAssetUrl.
  replace (startsWith ("/assets/" ++ t) "/assets/") with true by reflexivity.
  now rewrite orb_true_r.
Qed.

Lemma fixAssetUrl_data (newURL : Url.constructor) (t : string) :
  fixAssetUrl newURL ("data:" ++ t) = "data:" ++ t.
Proof.
  unfold fixAssetUrl.
  replace (startsWith ("data:" ++ t) "data:") with true by reflexivity.
  now rewrite orb_true_r.
Qed.

(** C9. [fixAssetUrl] is idempotent; every value it produces is its input
    or starts with [/assets/]; a string that starts with [/assets/] or
    [data:] comes back unchanged. *)
Theorem fixAssetUrl_idempotent (newURL : Url.constructor) (u : string) :
  fixAssetUrl newURL (fixAssetUrl newURL u) = fixAssetUrl newURL u /\
  (fixAssetUrl newURL u = u \/ startsWith (fixAssetUrl newURL u) "/assets/" = true) /\
  (forall t, fixAssetUrl newURL ("/assets/" ++ t) = "/assets/" ++ t) /\
  (forall t, fixAssetUrl newURL ("data:" ++ t) = "data:" ++ t).
Proof.
  split; [|split; [|split]].
  - destruct (fixAssetUrl_cases newURL u) as [E|[t E]]; rewrite E.
    + exact E.
    + apply fixAssetUrl_assets.
  - destruct (fixAssetUrl_cases newURL u) as [E|[t E]]; [now left|].
    right. now rewrite E.
  - apply fixAssetUrl_assets.
  - apply fixAssetUrl_data.
Qed.

(** ** Route handlers *)

Example googleAdsContent_rewrites :
  Routes.googleAdsContent "<a href=/ppc-advertising/>PPC Advertising</a>"
  = "<a href=/google-ads-management/>Google Ads Management</a>".
Proof. vm_compute. reflexivity. Qed.

(** C6 (as amended). Every route handler reads one fixed page file and
    renders [PageRenderer] on it. All of them hand the content of the file
    on unchanged, except [GoogleAdsManagement] and the second version of
    [ShopifyDevelopment], which first apply their chain of case-insensitive
    text replacements to it. *)
Theorem handlers_pass_content :
  (forall h name, In (h, name) Routes.passThrough ->
     forall cwd fs html, fs (Routes.pagePath cwd name) = Some html ->
       h cwd fs = Some (Routes.PageRendererElement html)) /\
  (forall cwd fs html, fs (Routes.pagePath cwd "page_0011.html") = Some html ->
     Routes.GoogleAdsManagement cwd fs
     = Some (Routes.PageRendererElement (Routes.googleAdsContent html))) /\
  (forall cwd fs html, fs (Routes.pagePath cwd "page_0015.html") = Some html ->
     Routes.ShopifyDevelopment' cwd fs
     = Some (Routes.PageRendererElement (Routes.shopifyContent html))) /\
  (forall hn, In hn Routes.handlers ->
     In hn Routes.passThrough \/
     hn = (Routes.GoogleAdsManagement, "page_0011.html") \/
     hn = (Routes.ShopifyDevelopment', "page_0015.html")).
Proof.
  split; [|split; [|split]].
  - intros h name Hin cwd fs html Hfs.
    simpl in Hin.
    repeat (destruct Hin as [[= <- <-]|Hin];
            [unfold Routes.Home, Routes.TechnicalSEO, Routes.ShopifyDevelopment,
               Routes.SocialMediaManagement, Routes.SocialMediaManagement',
               Routes.WorkCase, Routes.WorkCase', Routes.ContactUs,
               Routes.Careers, Routes.CRMDevelopment, Routes.AppianDevelopment,
               Routes.LocalSEO, Routes.WordPressDevelopment, Routes.BlogPost,
               Routes.BlogPost', Routes.BlogPost'', Routes.Blog, Routes.readThen;
             now rewrite Hfs|]).
    contradiction.
  - intros cwd fs html Hfs. unfold Routes.GoogleAdsManagement. now rewrite Hfs.
  - intros cwd fs html Hfs. unfold Routes.ShopifyDevelopment'. now rewrite Hfs.
  - intros hn Hin. simpl in Hin.
    repeat (destruct Hin as [<-|Hin];
            [first [ left; simpl; tauto | right; left; reflexivity
                   | right; right; reflexivity ]|]).
    contradiction.
Qed.

Lemma handlers_pass_content_witness :
  let fs := Routes.oneFile "/srv/allure_out/pages/page_0004.html" "<p>Allure Digital</p>" in
  fs (Routes.pagePath "/srv" "page_0004.html") = Some "<p>Allure Digital</p>" /\
  Routes.Home "/srv" fs = Some (Routes.PageRendererElement "<p>Allure Digital</p>").
Proof.
  intros fs. split; [reflexivity|].
  apply (proj1 handlers_pass_content Routes.Home "page_0004.html").
  - simpl. tauto.
  - reflexivity.
Defined.

(** C6 as stated fails: [GoogleAdsManagement] rewrites the content of the
    file before it reaches [PageRenderer]. *)
Lemma GoogleAdsManagement_rewrites :
  let fs := Routes.oneFile "/srv/allure_out/pages/page_0011.html"
                           "<h1>PPC Advertising</h1>" in
  fs (Routes.pagePath "/srv" "page_0011.html") = Some "<h1>PPC Advertising</h1>" /\
  Routes.GoogleAdsManagement "/srv" fs
  = Some (Routes.PageRendererElement "<h1>Google Ads Management</h1>") /\
  Routes.GoogleAdsManagement "/srv" fs
  <> Some (Routes.PageRendererElement "<h1>PPC Advertising</h1>").
Proof.
  intros fs. split; [reflexivity|]. split; [vm_compute; reflexivity|].
  vm_compute. discriminate.
Qed.

(** ** The reference HTML services on concrete inputs *)

Example parse_fragment :
  Html.parse "<p class='a b'>Hi <b>you</b> &amp; me<br></p><!--x-->"
  = [Element "P" [("class", "a b")]
       [Text "Hi "; Element "B" [] [Text "you"]; Text " & me"; Element "BR" [] []];
     Comment "x"].
Proof. vm_compute. reflexivity. Qed.

Example serialize_fragment :
  innerHTML "DIV"
    [Element "P" [("class", "a b")]
       [Text "Hi "; Element "B" [] [Text "you"]; Text " & me"; Element "BR" [] []];
     Comment "x"]
  = "<p class=" ++ dq ++ "a b" ++ dq ++ ">Hi <b>you</b> &amp; me<br></p><!--x-->".
Proof. vm_compute. reflexivity. Qed.

(** ** Internal links *)

Example fixAnchor_internal :
  fixAnchor Url.reference [("class", "x"); ("href", "https://alluredigital.net/local-seo/?a=1#top")]
  = [("class", "x"); ("href", "/local-seo")].
Proof. vm_compute. reflexivity. Qed.

Example fixAnchor_root :
  fixAnchor Url.reference [("href", "https://alluredigital.net")] = [("href", "/")].
Proof. vm_compute. reflexivity. Qed.

Example fixAnchor_by_pattern :
  fixAnchor Url.reference [("href", "//alluredigital.net/blog/post/?x=1")]
  = [("href", "/blog/post")].
Proof. vm_compute. reflexivity. Qed.

Example fixAnchor_tel :
  fixAnchor Url.reference [("href", "tel:2123017615"); ("style", "color:red")]
  = [("style", "color:red pointer-events: none; cursor: default;")].
Proof. vm_compute. reflexivity. Qed.

Example fixAnchor_inherited_key :
  fixAnchor Url.reference [("href", "x:constructor?alluredigital.net")]
  = [("href", "function Object() { [native code] }")].
Proof. vm_compute. reflexivity. Qed.

Lemma routeMap_identity (k v : string) : In (k, v) routeMap -> k = v.
Proof.
  unfold routeMap. simpl.
  intros H. repeat (destruct H as [[= <- <-]|H]; [reflexivity|]). contradiction.
Qed.

Lemma assoc_In {A : Type} (k : string) (l : list (string * A)) (v : A) :
  assoc k l = Some v -> In (k, v) l.
Proof.
  induction l as [|[k' v'] l IH]; simpl; [discriminate|].
  destruct (String.eqb k' k) eqn:E.
  - apply String.eqb_eq in E. intros [= <-]. left. now rewrite E.
  - intros H. right. now apply IH.
Qed.

Lemma dropLast_head (c : ascii) (t : string) :
  t <> EmptyString -> exists t', dropLast (String c t) = String c t'.
Proof. destruct t; [congruence|]. intros _. simpl. eauto. Qed.

Lemma dropTrailingSlash_head (t : string) :
  exists t', dropTrailingSlash (String "/" t) = String "/" t'.
Proof.
  unfold dropTrailingSlash.
  destruct (endsWith (String "/" t) "/" && negb (String.eqb (String "/" t) "/")) eqn:E;
    [|eauto].
  apply dropLast_head. intros ->. vm_compute in E. discriminate.
Qed.

(** The [try] branch on a path that starts with a slash, as the paths of
    [http] and [https] URLs do: the new [href] is the path without one
    trailing slash, and the lookup in [routeMap] does not change it. *)
Lemma routeFor_path (u : URL) (t : string) :
  pathname u = String "/" t -> routeFor u = specPath (pathname u).
Proof.
  intros E. unfold routeFor, specPath. rewrite E.
  destruct (dropTrailingSlash_head t) as [t' ->].
  unfold routeMapGet.
  destruct (assoc (String "/" t') routeMap) as [s|] eqn:Ea.
  - apply assoc_In, routeMap_identity in Ea. subst s. reflexivity.
  - replace (assoc (String "/" t') objectPrototype) with (@None JsValue)
      by reflexivity.
    cbn [toBoolean]. unfold orElse. cbn [truthy].
    destruct (startsWith (String "/" t') "/blog/"); [reflexivity|].
    destruct (String.eqb (String "/" t') "/" || String.eqb (String "/" t') "") eqn:E2;
      [|reflexivity].
    apply orb_true_iff in E2 as [E2|E2]; apply String.eqb_eq in E2.
    + now rewrite E2.
    + discriminate.
Qed.

(** The [catch] branch when the text after the domain is not empty. *)
Lemma routeByPattern_path (href b m a p : string) cs :
  Regex.search false afterDomain href = Some (b, m, cs, a) ->
  cap 1 cs = p -> p <> EmptyString ->
  routeByPattern href = Some (specPath p).
Proof.
  intros Hs Hc Hp. unfold routeByPattern. rewrite Hs, Hc.
  destruct p; [congruence|]. reflexivity.
Qed.

(** C3, where the code parts from it. An [href] that does not parse as an
    absolute URL and has nothing after [alluredigital.net] (here a
    protocol-relative link to the site root) is left as it is: the [catch]
    block is guarded by [pathMatch[1]], which is falsy for the empty path,
    so its own [path || '/'] is never reached with an empty path. The
    specification asks for [/]. *)
Theorem internalHref_bare_host :
  Url.reference "//alluredigital.net" None = None /\
  Regex.search false afterDomain "//alluredigital.net"
  = Some ("//", "alluredigital.net", [(1, "")], "") /\
  internalHref Url.reference "//alluredigital.net" = None /\
  fixAnchor Url.reference [("href", "//alluredigital.net")]
  = [("href", "//alluredigital.net")] /\
  specPath "" = "/".
Proof. repeat split; vm_compute; reflexivity. Qed.

(** ** Contact information *)

Example removeContactInfo_plain :
  Contact.removeContactInfo Html.reference
    "<p>Call (212) 301-7615 or write to info@alluredigital.net</p><p>5300 Kings Highway Brooklyn, NY 11234</p>"
  = "<p>Call  or write to </p><p></p>".
Proof. vm_compute. reflexivity. Qed.

Lemma fixAnchor_contact (newURL : Url.constructor) (attrs : Attrs) (href : string) :
  getAttribute "href" attrs = Some href ->
  startsWith href "tel:" || startsWith href "mailto:" = true ->
  fixAnchor newURL attrs
  = setAttribute "style"
      (trim (attrOr "style" (removeAttribute "href" attrs) ""
             ++ " pointer-events: none; cursor: default;"))
      (removeAttribute "href" attrs).
Proof.
  intros Hh Hs. unfold fixAnchor. rewrite Hh, Hs.
  assert (Ht : truthy href = true).
  { destruct href; [|reflexivity]. discriminate. }
  now rewrite Ht.
Qed.

(** C4, where the code parts from it. Each pattern is removed in one pass
    and the passes run one after the other, so a removal can bring the
    pieces of a number together: the text left by the pass for
    [212-301-7615] is that very number, no later pass matches it, and the
    pass over the elements leaves an element with more than one child
    alone. *)
Theorem removeContactInfo_leaves_phone :
  Contact.removeFromString "<p>212-301-212-301-76157615<br></p>"
  = "<p>212-301-7615<br></p>" /\
  Contact.removeContactInfo Html.reference "<p>212-301-212-301-76157615<br></p>"
  = "<p>212-301-7615<br></p>" /\
  includes
    (Contact.removeContactInfo Html.reference "<p>212-301-212-301-76157615<br></p>")
    "212-301-7615" = true /\
  Contact.leaks
    (Contact.removeContactInfo Html.reference "<p>212-301-212-301-76157615<br></p>")
  = true.
Proof. repeat split; vm_compute; reflexivity. Qed.

(** ** Branding *)

Example replaceBranding_text :
  Branding.replaceBranding Html.reference
    "<div><h2>About Allure Digital</h2><p>AllureDigital, <a href='https://alluredigital.net/'>allure digital</a></p><img src='/assets/allure-logo.png' alt='Allure Digital logo'></div>"
  = "<div><h2>About Rimalweb</h2><p>Rimalweb, <a href=" ++ dq ++ "https://alluredigital.net/" ++ dq
    ++ ">Rimalweb</a></p><img src=" ++ dq ++ "/assets/allure-logo.png" ++ dq
    ++ " alt=" ++ dq ++ "Rimalweb logo" ++ dq ++ "></div>".
Proof. vm_compute. reflexivity. Qed.

Example brandMeta_domain :
  Branding.brandMeta "Visit https://alluredigital.net/ today"
  = "Visit https://Rimalweb.net/ today".
Proof. vm_compute. reflexivity. Qed.

Lemma getAt_cons (forest : list Node) (i j : nat) (p : Path) :
  getAt forest (i :: j :: p)
  = match nth_error forest i with
    | Some (Element _ _ c) => getAt c (j :: p)
    | _ => None
    end.
Proof. reflexivity. Qed.

Lemma walkText_at (p : Path) :
  forall (forest : list Node) (chain : Chain) (d : string),
    getAt forest p = Some (Text d) ->
    getAt (map (Branding.walkText chain) forest) p
    = Some (Branding.walkText (Branding.parentChain chain forest p) (Text d)).
Proof.
  induction p as [|i p IH]; intros forest chain d H; [discriminate|].
  destruct p as [|j p].
  - cbn [getAt Branding.parentChain] in *. rewrite nth_error_map, H. reflexivity.
  - rewrite getAt_cons in *. rewrite nth_error_map.
    cbn [Branding.parentChain].
    destruct (nth_error forest i) as [[t a c| |]|]; try discriminate.
    cbn [option_map Branding.walkText]. now apply IH.
Qed.

Lemma linkAttrs_setAttribute (t k v : string) (a : Attrs) :
  String.eqb k "src" || String.eqb k "href" = false ->
  Branding.linkAttrs t (setAttribute k v a) = Branding.linkAttrs t a.
Proof.
  intros Hk. induction a as [|[k' v'] a IH]; simpl.
  - now rewrite Hk.
  - destruct (String.eqb k' k) eqn:E; simpl.
    + apply String.eqb_eq in E. subst k'. now rewrite Hk.
    + now rewrite IH.
Qed.

Lemma linkAttrs_brandAttr (t k : string) (a : Attrs) :
  String.eqb k "src" || String.eqb k "href" = false ->
  Branding.linkAttrs t (Branding.brandAttr k a) = Branding.linkAttrs t a.
Proof.
  intros Hk. unfold Branding.brandAttr.
  destruct (getAttribute k a) as [v|]; [|reflexivity].
  destruct (truthy v && Branding.mentionsAllure v); [|reflexivity].
  now apply linkAttrs_setAttribute.
Qed.

Lemma incl_flat_map_map {A B : Type} (g : A -> list B) (f : A -> A) (l : list A) :
  Forall (fun x => incl (g (f x)) (g x)) l ->
  incl (flat_map g (map f l)) (flat_map g l).
Proof.
  induction 1 as [|x l Hx _ IH]; simpl; [apply incl_refl|].
  apply incl_app; [now apply incl_appl | now apply incl_appr].
Qed.

Lemma linkValues_textChildren (s : string) :
  flat_map Branding.linkValues (textChildren s) = [].
Proof. unfold textChildren. now destruct (truthy s). Qed.

Ltac keep_attrs :=
  cbn [Branding.linkValues]; apply incl_app;
  [apply incl_appl, incl_refl | apply incl_appr].

Ltac drop_children :=
  cbn [Branding.linkValues]; rewrite linkValues_textChildren, app_nil_r;
  apply incl_appl, incl_refl.

Lemma walkText_links (n : Node) :
  forall chain, incl (Branding.linkValues (Branding.walkText chain n))
                     (Branding.linkValues n).
Proof.
  induction n as [t a c IH|d|d] using Node_forall_ind; intros chain.
  - cbn [Branding.walkText]. keep_attrs.
    apply incl_flat_map_map. eapply Forall_impl; [|exact IH]. now intros x Hx.
  - cbn [Branding.walkText].
    destruct (Branding.skipped chain); [apply incl_refl|].
    destruct (truthy d && Branding.plainText d); apply incl_refl.
  - apply incl_refl.
Qed.

Lemma brandTitles_links (n : Node) :
  incl (Branding.linkValues (Branding.brandTitles n)) (Branding.linkValues n).
Proof.
  induction n as [t a c IH|d|d] using Node_forall_ind; try apply incl_refl.
  cbn [Branding.brandTitles].
  destruct (named "TITLE" t && truthy (textContent (Element t a c))).
  - drop_children.
  - keep_attrs. now apply incl_flat_map_map.
Qed.

Lemma brandAlts_links (n : Node) :
  incl (Branding.linkValues (Branding.brandAlts n)) (Branding.linkValues n).
Proof.
  induction n as [t a c IH|d|d] using Node_forall_ind; try apply incl_refl.
  cbn [Branding.brandAlts Branding.linkValues].
  destruct (named "IMG" t);
    [rewrite linkAttrs_brandAttr by reflexivity|].
  all: apply incl_app; [apply incl_appl, incl_refl | apply incl_appr].
  all: now apply incl_flat_map_map.
Qed.

Lemma brandHeadings_links (n : Node) :
  incl (Branding.linkValues (Branding.brandHeadings n)) (Branding.linkValues n).
Proof.
  induction n as [t a c IH|d|d] using Node_forall_ind; try apply incl_refl.
  cbn [Branding.brandHeadings].
  match goal with |- context [if ?b then _ else _] => destruct b end.
  - drop_children.
  - keep_attrs. now apply incl_flat_map_map.
Qed.

Lemma brandBlocks_links (n : Node) :
  forall chain, incl (Branding.linkValues (Branding.brandBlocks chain n))
                     (Branding.linkValues n).
Proof.
  induction n as [t a c IH|d|d] using Node_forall_ind; intros chain;
    try apply incl_refl.
  cbn [Branding.brandBlocks].
  match goal with |- context [if ?b then _ else _] => destruct b end.
  - destruct (forallb (fun k => negb (isElement k)) c).
    + drop_children.
    + keep_attrs. apply incl_flat_map_map.
      eapply Forall_impl; [|exact IH]. intros x Hx.
      destruct x; [apply Hx| |apply incl_refl].
      unfold Branding.brandDirectText.
      match goal with |- context [if ?b then _ else _] => destruct b end;
        apply incl_refl.
  - keep_attrs. apply incl_flat_map_map.
    eapply Forall_impl; [|exact IH]. now intros x Hx.
Qed.

Lemma brandData_links (n : Node) :
  incl (Branding.linkValues (Branding.brandData n)) (Branding.linkValues n).
Proof.
  induction n as [t a c IH|d|d] using Node_forall_ind; try apply incl_refl.
  cbn [Branding.brandData Branding.linkValues].
  match goal with |- context [if ?b then _ else _] => destruct b end;
    [rewrite !linkAttrs_brandAttr by reflexivity|].
  all: apply incl_app; [apply incl_appl, incl_refl | apply incl_appr].
  all: now apply incl_flat_map_map.
Qed.

Lemma pass_links (f : Node -> Node) (forest : list Node) :
  (forall n, incl (Branding.linkValues (f n)) (Branding.linkValues n)) ->
  incl (flat_map Branding.linkValues (map f forest))
       (flat_map Branding.linkValues forest).
Proof.
  intros H. apply incl_flat_map_map. apply Forall_forall. intros x _. apply H.
Qed.

Lemma replaceBrandingDom_links (forest : list Node) :
  incl (flat_map Branding.linkValues (Branding.replaceBrandingDom forest))
       (flat_map Branding.linkValues forest).
Proof.
  unfold Branding.replaceBrandingDom, Branding.walkPass.
  eapply incl_tran; [apply pass_links, brandData_links|].
  eapply incl_tran; [apply pass_links; intros n; apply brandBlocks_links|].
  eapply incl_tran; [apply pass_links, brandHeadings_links|].
  eapply incl_tran; [apply pass_links, brandAlts_links|].
  eapply incl_tran; [apply pass_links, brandTitles_links|].
  apply pass_links. intros n. apply walkText_links.
Qed.

(** ** Occurrences of the name *)


Lemma is_word_to_upper (c : ascii) : is_word (to_upper c) = is_word c.
Proof. destruct c as [[] [] [] [] [] [] [] []]; reflexivity. Qed.

Lemma chr_eq_word (c a : ascii) :
  chr_eq true c a = true -> is_word c = is_word a.
Proof.
  unfold chr_eq. intros H. apply Ascii.eqb_eq in H.
  now rewrite <- (is_word_to_upper c), H, is_word_to_upper.
Qed.

Lemma length_drop (n : nat) (s : string) :
  String.length (drop n s) = String.length s - n.
Proof.
  revert s. induction n as [|n IH]; intros [|c t]; cbn; try lia. apply IH.
Qed.

Lemma length_take (n : nat) (s : string) :
  n <= String.length s -> String.length (take n s) = n.
Proof.
  revert s. induction n as [|n IH]; intros [|c t]; cbn; try lia.
  intros H. rewrite IH; lia.
Qed.

Lemma startsWithCI_length (w : string) :
  forall s, Scan.startsWithCI s w = true -> String.length w <= String.length s.
Proof.
  induction w as [|a w IH]; intros [|c s]; cbn; try lia; try discriminate.
  intros H. apply andb_true_iff in H as [_ H]. apply IH in H. lia.
Qed.

Lemma prevAfter_zero (p : option ascii) (s : string) : Scan.prevAfter p 0 s = p.
Proof. now destruct s. Qed.

Lemma drop_zero (s : string) : drop 0 s = s.
Proof. now destruct s. Qed.

Lemma rmatch_Lit (w : string) :
  forall p s cs k,
    rmatch true (Lit w) (mkState p s cs) k
    = if Scan.startsWithCI s w
      then k (mkState (Scan.prevAfter p (String.length w) s)
                      (drop (String.length w) s) cs)
      else None.
Proof.
  induction w as [|a w IH]; intros p s cs k.
  - cbn [Lit rmatch Scan.startsWithCI String.length].
    now rewrite prevAfter_zero, drop_zero.
  - destruct w as [|b w].
    + cbn [Lit rmatch rest caps Scan.startsWithCI String.length].
      destruct s as [|c t]; [reflexivity|].
      rewrite andb_true_r. cbn [Scan.prevAfter drop].
      now rewrite ?prevAfter_zero, ?drop_zero.
    + change (Lit (String a (String b w))) with (Seq (Chr a) (Lit (String b w))).
      cbn [rmatch rest caps]. destruct s as [|c t]; [reflexivity|].
      cbn [Scan.startsWithCI]. destruct (chr_eq true c a); [|reflexivity].
      cbn [andb]. rewrite IH. reflexivity.
Qed.

Lemma consumed_take (p q : option ascii) (s : string) (n : nat) (cs cs' : list (nat * string)) :
  n <= String.length s ->
  consumed (mkState p s cs) (mkState q (drop n s) cs') = take n s.
Proof.
  intros H. unfold consumed. cbn [rest]. rewrite length_drop.
  f_equal. lia.
Qed.

Lemma matchHere_word (w : string) (p : option ascii) (s : string) :
  matchHere true (Seqs [Wb; Lit w; Wb]) p s
  = if Scan.occursAt w p s then Some (take (String.length w) s, []) else None.
Proof.
  unfold matchHere, Seqs, Scan.occursAt. cbn [fold_right rmatch prev rest].
  destruct (xorb (word_opt p) (word_opt (next_char s))); [|reflexivity].
  rewrite rmatch_Lit. cbn [andb].
  destruct (Scan.startsWithCI s w) eqn:E; [|reflexivity].
  cbn [andb rmatch prev rest].
  destruct (xorb _ _); [|reflexivity].
  cbn [caps]. now rewrite consumed_take by now apply startsWithCI_length.
Qed.

Lemma matchHere_lit (w : string) (p : option ascii) (s : string) :
  matchHere true (Lit w) p s
  = if Scan.startsWithCI s w then Some (take (String.length w) s, []) else None.
Proof.
  unfold matchHere. rewrite rmatch_Lit.
  destruct (Scan.startsWithCI s w) eqn:E; [|reflexivity].
  cbn [caps]. now rewrite consumed_take by now apply startsWithCI_length.
Qed.

Lemma searchFrom_word_nil (w : string) (p : option ascii) :
  searchFrom true (Seqs [Wb; Lit w; Wb]) p "" = None <->
  Scan.occursAt w p "" = false.
Proof.
  cbn [searchFrom]. rewrite matchHere_word.
  destruct (Scan.occursAt w p ""); split; congruence.
Qed.

Lemma searchFrom_word_cons (w : string) (p : option ascii) (c : ascii) (t : string) :
  searchFrom true (Seqs [Wb; Lit w; Wb]) p (String c t) = None <->
  Scan.occursAt w p (String c t) = false /\
  searchFrom true (Seqs [Wb; Lit w; Wb]) (Some c) t = None.
Proof.
  cbn [searchFrom]. rewrite matchHere_word.
  destruct (Scan.occursAt w p (String c t)).
  - split; [discriminate | intros [H _]; discriminate].
  - destruct (searchFrom true (Seqs [Wb; Lit w; Wb]) (Some c) t) as [[[[b m] cs] a]|].
    + split; [discriminate | intros [_ H]; discriminate].
    + split; auto.
Qed.

Lemma prevAfter_app (k : nat) :
  forall (p : option ascii) (s y : string),
    k <= String.length s ->
    Scan.prevAfter p k (take k s ++ y) = Scan.prevAfter p k s.
Proof.
  induction k as [|k IH]; intros p s y H.
  - now rewrite !prevAfter_zero.
  - destruct s as [|c t]; cbn in H; [lia|]. cbn. apply IH. lia.
Qed.

Lemma drop_app (k : nat) :
  forall (s y : string),
    k <= String.length s -> drop k (take k s ++ y) = y.
Proof.
  induction k as [|k IH]; intros s y H.
  - cbn. now rewrite ?drop_zero.
  - destruct s as [|c t]; cbn in H; [lia|]. cbn. apply IH. lia.
Qed.

Lemma startsWithCI_app (u : string) :
  forall (s y : string),
    Scan.startsWithCI s u = true ->
    Scan.startsWithCI (take (String.length u) s ++ y) u = true.
Proof.
  induction u as [|a u IH]; intros s y H; [reflexivity|].
  destruct s as [|c t]; [discriminate|]. cbn in *.
  apply andb_true_iff in H as [H1 H2]. now rewrite H1, IH.
Qed.

Lemma compatible_prefix (rep : string) :
  forall (u x : string),
    Scan.startsWithCI (rep ++ x) u = true -> Scan.compatible u rep = true.
Proof.
  induction rep as [|b rep IH]; intros u x H.
  - now destruct u.
  - destruct u as [|a u]; [reflexivity|]. cbn in *.
    apply andb_true_iff in H as [H1 H2]. rewrite H1. now apply (IH u x).
Qed.

Lemma occursAt_context (w : string) (p p' : option ascii) (s : string) :
  w <> "" -> word_opt p = word_opt p' ->
  Scan.occursAt w p s = Scan.occursAt w p' s.
Proof.
  intros Hw Hp. unfold Scan.occursAt. rewrite Hp.
  destruct w as [|a w]; [congruence|].
  destruct s as [|c t]; [now rewrite !andb_false_r|]. reflexivity.
Qed.

Lemma searchFrom_context (w : string) (p p' : option ascii) (s : string) :
  w <> "" -> word_opt p = word_opt p' ->
  searchFrom true (Seqs [Wb; Lit w; Wb]) p s
  = searchFrom true (Seqs [Wb; Lit w; Wb]) p' s.
Proof.
  intros Hw Hp. destruct s as [|c t]; cbn [searchFrom];
    rewrite !matchHere_word, (occursAt_context w p p' _ Hw Hp); reflexivity.
Qed.

Lemma searchFrom_drop (w : string) (k : nat) :
  forall (p : option ascii) (s : string),
    k <= String.length s ->
    searchFrom true (Seqs [Wb; Lit w; Wb]) p s = None ->
    searchFrom true (Seqs [Wb; Lit w; Wb]) (Scan.prevAfter p k s) (drop k s) = None.
Proof.
  induction k as [|k IH]; intros p s Hk H.
  - now rewrite prevAfter_zero, drop_zero.
  - destruct s as [|c t]; cbn in Hk; [lia|].
    apply searchFrom_word_cons in H as [_ H]. cbn [Scan.prevAfter drop].
    apply IH; [lia | exact H].
Qed.

Section Replaced.

(** The expression whose matches are replaced: it matches [S n']
    characters where [hit] holds, and nothing elsewhere. *)
Variable r : regex.
Variable n' : nat.
Variable hit : option ascii -> string -> bool.
Variable bounded : bool.

Hypothesis r_match :
  forall p s, matchHere true r p s
              = if hit p s then Some (take (S n') s, []) else None.
Hypothesis hit_long : forall p s, hit p s = true -> S n' <= String.length s.
Hypothesis hit_first : forall p s, hit p s = true -> word_opt (next_char s) = true.
Hypothesis hit_last :
  forall p s, hit p s = true -> word_opt (Scan.prevAfter p (S n') s) = true.
Hypothesis hit_bounded :
  bounded = true -> forall p s, hit p s = true -> word_opt p = false.

Lemma replaceAllFrom_skip (k : nat) :
  forall (p : option ascii) (s : string),
    k <= String.length s ->
    replaceAllFrom true r (fun _ _ => Branding.rimalweb) p k s
    = replaceAllFrom true r (fun _ _ => Branding.rimalweb)
                     (Scan.prevAfter p k s) 0 (drop k s).
Proof.
  induction k as [|k IH]; intros p s H.
  - now rewrite prevAfter_zero, drop_zero.
  - destruct s as [|c t]; cbn in H; [lia|].
    cbn [replaceAllFrom Scan.prevAfter drop]. apply IH. lia.
Qed.

Lemma out_hit (p : option ascii) (s : string) :
  hit p s = true ->
  replaceAllFrom true r (fun _ _ => Branding.rimalweb) p 0 s
  = Branding.rimalweb
    ++ replaceAllFrom true r (fun _ _ => Branding.rimalweb)
                      (Scan.prevAfter p (S n') s) 0 (drop (S n') s).
Proof.
  intros H. pose proof (hit_long p s H) as Hl.
  destruct s as [|c t]; cbn in Hl; [lia|].
  cbn [replaceAllFrom]. rewrite r_match, H.
  rewrite length_take by (cbn; lia).
  rewrite replaceAllFrom_skip by lia. reflexivity.
Qed.

Lemma out_miss (p : option ascii) (c : ascii) (t : string) :
  hit p (String c t) = false ->
  replaceAllFrom true r (fun _ _ => Branding.rimalweb) p 0 (String c t)
  = String c (replaceAllFrom true r (fun _ _ => Branding.rimalweb) (Some c) 0 t).
Proof. intros H. cbn [replaceAllFrom]. now rewrite r_match, H. Qed.

Lemma out_nil (p : option ascii) :
  replaceAllFrom true r (fun _ _ => Branding.rimalweb) p 0 "" = "".
Proof.
  cbn [replaceAllFrom]. rewrite r_match.
  destruct (hit p "") eqn:H; [|reflexivity].
  apply hit_long in H. cbn in H. lia.
Qed.

(** The first character of the result is a word character exactly when
    that of the text is. *)
Lemma out_next (p : option ascii) (s : string) :
  word_opt (next_char (replaceAllFrom true r (fun _ _ => Branding.rimalweb) p 0 s))
  = word_opt (next_char s).
Proof.
  destruct (hit p s) eqn:H.
  - rewrite (out_hit p s H), (hit_first p s H). reflexivity.
  - destruct s as [|c t]; [now rewrite out_nil | now rewrite out_miss].
Qed.

(** What stands in the result where the text had [u]: when the result
    starts with [u], so does the text, and no match began inside. *)
Lemma out_window (u : string) :
  forall (q : option ascii) (t : string),
    Scan.safe bounded Branding.rimalweb (word_opt q) u = true ->
    Scan.startsWithCI
      (replaceAllFrom true r (fun _ _ => Branding.rimalweb) q 0 t) u = true ->
    Scan.startsWithCI t u = true /\
    replaceAllFrom true r (fun _ _ => Branding.rimalweb) q 0 t
    = take (String.length u) t
      ++ replaceAllFrom true r (fun _ _ => Branding.rimalweb)
                        (Scan.prevAfter q (String.length u) t) 0
                        (drop (String.length u) t).
Proof.
  induction u as [|a u IH]; intros q t Hsafe Hstart.
  - split; [reflexivity|]. cbn [String.length take append].
    now rewrite prevAfter_zero, drop_zero.
  - cbn [Scan.safe] in Hsafe. apply andb_true_iff in Hsafe as [Hhere Hsafe].
    destruct (hit q t) eqn:Hh.
    + exfalso. rewrite (out_hit q t Hh) in Hstart.
      apply compatible_prefix in Hstart. rewrite Hstart in Hhere.
      cbn [negb] in Hhere. rewrite orb_false_r in Hhere.
      apply andb_true_iff in Hhere as [Hb Hq].
      rewrite (hit_bounded Hb q t Hh) in Hq. discriminate.
    + destruct t as [|c t]; [now rewrite out_nil in Hstart|].
      rewrite (out_miss q c t Hh) in *. cbn [Scan.startsWithCI] in Hstart.
      apply andb_true_iff in Hstart as [Hc Hstart].
      assert (Hw : word_opt (Some c) = is_word a)
        by (cbn; now apply chr_eq_word).
      rewrite <- Hw in Hsafe.
      destruct (IH (Some c) t Hsafe Hstart) as [H1 H2].
      split; [cbn [Scan.startsWithCI]; now rewrite Hc, H1|].
      cbn [String.length take Scan.prevAfter drop append]. now rewrite <- H2.
Qed.

(** The word that is looked for in the result. *)
Variable a0 : ascii.
Variable v' : string.

Hypothesis v_first : chr_eq true "R" a0 = false.
Hypothesis v_safe : Scan.safe bounded Branding.rimalweb (is_word a0) v' = true.

Lemma occursAt_result (p : option ascii) (c : ascii) (t : string) :
  Scan.occursAt (String a0 v') p
    (String c (replaceAllFrom true r (fun _ _ => Branding.rimalweb) (Some c) 0 t))
  = true ->
  Scan.occursAt (String a0 v') p (String c t) = true.
Proof.
  unfold Scan.occursAt. cbn [next_char Scan.startsWithCI String.length
                             Scan.prevAfter drop].
  intros H. apply andb_true_iff in H as [H H3].
  apply andb_true_iff in H as [H1 H2].
  apply andb_true_iff in H2 as [Hc H2].
  assert (Hsafe : Scan.safe bounded Branding.rimalweb (word_opt (Some c)) v' = true).
  { cbn [word_opt]. now rewrite (chr_eq_word c a0 Hc). }
  destruct (out_window v' (Some c) t Hsafe H2) as [Hs Hout].
  pose proof (startsWithCI_length v' t Hs) as Hlen.
  rewrite Hout in H3.
  rewrite prevAfter_app, drop_app, out_next in H3 by exact Hlen.
  now rewrite H1, Hc, Hs, H3.
Qed.

(** No occurrence of the word in the result, when every occurrence in
    the text is a match, or when the text has none. *)
Lemma result_clean (n : nat) :
  forall (s : string) (p : option ascii),
    String.length s <= n ->
    (forall q x, Scan.occursAt (String a0 v') q x = true -> hit q x = true) \/
    searchFrom true (Seqs [Wb; Lit (String a0 v'); Wb]) p s = None ->
    searchFrom true (Seqs [Wb; Lit (String a0 v'); Wb]) p
      (replaceAllFrom true r (fun _ _ => Branding.rimalweb) p 0 s) = None.
Proof.
  induction n as [|n IH]; intros s p Hn Hyp.
  - destruct s; cbn in Hn; [|lia]. rewrite out_nil.
    apply searchFrom_word_nil. unfold Scan.occursAt.
    cbn [Scan.startsWithCI]. now rewrite andb_false_r.
  - destruct (hit p s) eqn:Hh.
    + rewrite (out_hit p s Hh).
      pose proof (hit_long p s Hh) as Hl.
      assert (Hrest : searchFrom true (Seqs [Wb; Lit (String a0 v'); Wb])
                        (Some "b"%char)
                        (replaceAllFrom true r (fun _ _ => Branding.rimalweb)
                           (Scan.prevAfter p (S n') s) 0 (drop (S n') s)) = None).
      { rewrite (searchFrom_context _ (Some "b"%char) (Scan.prevAfter p (S n') s))
          by (try discriminate; now rewrite (hit_last p s Hh)).
        apply IH.
        - rewrite length_drop. lia.
        - destruct Hyp as [Hyp|Hyp]; [now left | right].
          now apply searchFrom_drop. }
      unfold Branding.rimalweb. cbn [append].
      repeat (apply searchFrom_word_cons; split;
              [unfold Scan.occursAt;
               cbn [word_opt next_char xorb andb Scan.startsWithCI is_word];
               try reflexivity|]).
      * rewrite v_first. cbn [andb]. now rewrite andb_false_r.
      * exact Hrest.
    + destruct s as [|c t].
      * rewrite out_nil. apply searchFrom_word_nil. unfold Scan.occursAt.
        cbn [Scan.startsWithCI]. now rewrite andb_false_r.
      * rewrite (out_miss p c t Hh). apply searchFrom_word_cons. split.
        -- destruct (Scan.occursAt (String a0 v') p
                       (String c (replaceAllFrom true r
                                    (fun _ _ => Branding.rimalweb) (Some c) 0 t)))
             eqn:E; [exfalso|reflexivity].
           apply occursAt_result in E.
           destruct Hyp as [Hyp|Hyp].
           ++ apply Hyp in E. congruence.
           ++ apply searchFrom_word_cons in Hyp as [Hyp _]. congruence.
        -- apply IH; [cbn in Hn; lia|].
           destruct Hyp as [Hyp|Hyp]; [now left | right].
           now apply searchFrom_word_cons in Hyp as [_ Hyp].
Qed.

End Replaced.

Lemma chr_eq_trans (c a b : ascii) :
  chr_eq true a b = true -> chr_eq true c a = chr_eq true c b.
Proof.
  unfold chr_eq. intros H. apply Ascii.eqb_eq in H. now rewrite H.
Qed.

Lemma startsWithCI_sameCI (v : string) :
  forall (w x : string),
    Scan.sameCI v w = true -> Scan.startsWithCI x v = Scan.startsWithCI x w.
Proof.
  induction v as [|a v IH]; intros [|b w] x H; try discriminate; [reflexivity|].
  cbn in H. apply andb_true_iff in H as [Hab H].
  destruct x as [|c x]; [reflexivity|]. cbn [Scan.startsWithCI].
  now rewrite (chr_eq_trans c a b Hab), (IH w x H).
Qed.

Lemma sameCI_length (v : string) :
  forall w, Scan.sameCI v w = true -> String.length v = String.length w.
Proof.
  induction v as [|a v IH]; intros [|b w] H; try discriminate; [reflexivity|].
  cbn in H. apply andb_true_iff in H as [_ H]. cbn. now rewrite (IH w H).
Qed.

Lemma occursAt_sameCI (v w : string) (q : option ascii) (x : string) :
  Scan.sameCI v w = true -> Scan.occursAt v q x = Scan.occursAt w q x.
Proof.
  intros H. unfold Scan.occursAt.
  now rewrite (startsWithCI_sameCI v w x H), (sameCI_length v w H).
Qed.

Lemma prevAfter_word (w : string) :
  forall (p : option ascii) (s : string),
    Scan.startsWithCI s w = true ->
    word_opt (Scan.prevAfter p (String.length w) s)
    = word_opt (Scan.prevAfter p (String.length w) w).
Proof.
  induction w as [|a w IH]; intros p s H.
  - now rewrite !prevAfter_zero.
  - destruct s as [|c t]; [discriminate|]. cbn in H.
    apply andb_true_iff in H as [Hc H]. cbn [String.length Scan.prevAfter].
    destruct w as [|b w].
    + rewrite !prevAfter_zero. cbn. now apply chr_eq_word.
    + rewrite (IH (Some c) t H).
      destruct t as [|c' t']; [discriminate|]. reflexivity.
Qed.

Lemma test_search (r : regex) (s : string) :
  test true r s = false <-> searchFrom true r None s = None.
Proof.
  unfold test, Regex.search.
  destruct (searchFrom true r None s); split; intros H;
    try discriminate; reflexivity.
Qed.

Section Passes.

(** The word [w] whose matches a pass replaces, and the word [v] that
    is looked for in what the pass gives. *)
Variables (b0 : ascii) (w0 : string) (a0 : ascii) (v' : string).

Hypothesis w_first : is_word b0 = true.
Hypothesis w_last :
  forall p, word_opt (Scan.prevAfter p (S (String.length w0)) (String b0 w0)) = true.
Hypothesis v_first : chr_eq true "R" a0 = false.

Lemma startsWithCI_first (s : string) :
  Scan.startsWithCI s (String b0 w0) = true -> word_opt (next_char s) = true.
Proof.
  destruct s as [|c t]; [discriminate|]. cbn. intros H.
  apply andb_true_iff in H as [H _]. now rewrite (chr_eq_word c b0 H).
Qed.

Lemma occursAt_start (p : option ascii) (s : string) :
  Scan.occursAt (String b0 w0) p s = true ->
  Scan.startsWithCI s (String b0 w0) = true.
Proof.
  unfold Scan.occursAt. intros H. apply andb_true_iff in H as [H _].
  now apply andb_true_iff in H as [_ H].
Qed.

(** A pass of [/\bw\b/gi]. *)
Lemma pass_bounded (s : string) :
  Scan.safe true Branding.rimalweb (is_word a0) v' = true ->
  Scan.sameCI (String a0 v') (String b0 w0) = true \/
  test true (Seqs [Wb; Lit (String a0 v'); Wb]) s = false ->
  test true (Seqs [Wb; Lit (String a0 v'); Wb])
       (replaceAll true (Seqs [Wb; Lit (String b0 w0); Wb]) Branding.rimalweb s)
  = false.
Proof.
  intros Hsafe Hyp. apply test_search.
  unfold replaceAll, replaceAllWith.
  apply (result_clean (Seqs [Wb; Lit (String b0 w0); Wb]) (String.length w0)
           (Scan.occursAt (String b0 w0)) true) with (n := String.length s);
    try assumption; try lia.
  - intros p x. apply matchHere_word.
  - intros p x H. apply occursAt_start in H.
    now apply startsWithCI_length in H.
  - intros p x H. now apply startsWithCI_first, (occursAt_start p).
  - intros p x H. apply occursAt_start in H.
    change (S (String.length w0)) with (String.length (String b0 w0)).
    rewrite (prevAfter_word _ p x H). apply w_last.
  - intros _ p x H. pose proof (startsWithCI_first x (occursAt_start p x H)) as Hn.
    unfold Scan.occursAt in H. rewrite Hn in H.
    destruct (word_opt p); [discriminate | reflexivity].
  - destruct Hyp as [Hyp|Hyp].
    + left. intros q x H. now rewrite <- (occursAt_sameCI _ _ q x Hyp).
    + right. now apply test_search.
Qed.

(** A pass of [/w/gi]. *)
Lemma pass_plain (s : string) :
  Scan.safe false Branding.rimalweb (is_word a0) v' = true ->
  Scan.sameCI (String a0 v') (String b0 w0) = true \/
  test true (Seqs [Wb; Lit (String a0 v'); Wb]) s = false ->
  test true (Seqs [Wb; Lit (String a0 v'); Wb])
       (replaceAll true (Lit (String b0 w0)) Branding.rimalweb s)
  = false.
Proof.
  intros Hsafe Hyp. apply test_search.
  unfold replaceAll, replaceAllWith.
  apply (result_clean (Lit (String b0 w0)) (String.length w0)
           (fun _ x => Scan.startsWithCI x (String b0 w0)) false)
    with (n := String.length s);
    try assumption; try lia.
  - intros p x. apply matchHere_lit.
  - intros p x H. now apply startsWithCI_length in H.
  - intros p x H. now apply startsWithCI_first.
  - intros p x H.
    change (S (String.length w0)) with (String.length (String b0 w0)).
    rewrite (prevAfter_word _ p x H). apply w_last.
  - destruct Hyp as [Hyp|Hyp].
    + left. intros q x H. unfold Scan.occursAt in H.
      apply andb_true_iff in H as [H _]. apply andb_true_iff in H as [_ H].
      now rewrite <- (startsWithCI_sameCI _ _ x Hyp).
    + right. now apply test_search.
Qed.

End Passes.

(** After the three replacements of the walker no word-bounded
    occurrence of a spelling of the name is left. *)
Lemma brandWords_clean (s : string) :
  Branding.noBrand (Branding.brandWords s) = true.
Proof.
  unfold Branding.noBrand, Branding.names, Branding.brandWords.
  cbn [forallb]. rewrite !andb_true_iff, !negb_true_iff.
  repeat split.
  - apply pass_bounded; try reflexivity. right.
    apply pass_bounded; try reflexivity. right.
    apply pass_bounded; try reflexivity. now left.
  - apply pass_bounded; try reflexivity. right.
    apply pass_bounded; try reflexivity. now left.
  - apply pass_bounded; try reflexivity. now left.
Qed.

(** Nor after the two replacements of the title, of [alt] and of the
    data attributes. *)
Lemma brandNames_clean (s : string) :
  Branding.noBrand (Branding.brandNames s) = true.
Proof.
  unfold Branding.noBrand, Branding.names, Branding.brandNames.
  cbn [forallb]. rewrite !andb_true_iff, !negb_true_iff.
  repeat split.
  - apply pass_plain; try reflexivity. right.
    apply pass_plain; try reflexivity. now left.
  - apply pass_plain; try reflexivity. now left.
  - apply pass_plain; try reflexivity. right.
    apply pass_plain; try reflexivity. now left.
Qed.

(** A text in which the pattern matches nowhere comes back from a
    global replacement as it went in. *)
Lemma replaceAll_no_match (ci : bool) (r : regex)
      (f : string -> list (nat * string) -> string) (s : string) :
  forall pv, searchFrom ci r pv s = None -> replaceAllFrom ci r f pv 0 s = s.
Proof.
  induction s as [|c t IH]; intros pv H; cbn [searchFrom] in H;
    cbn [replaceAllFrom].
  - destruct (matchHere ci r pv "") as [[m cs]|]; [discriminate|reflexivity].
  - destruct (matchHere ci r pv (String c t)) as [[m cs]|]; [discriminate|].
    destruct (searchFrom ci r (Some c) t) as [[[[b m] cs] a]|] eqn:E;
      [discriminate|].
    now rewrite IH.
Qed.

Lemma test_false_replaceAll (ci : bool) (r : regex) (t s : string) :
  test ci r s = false -> replaceAll ci r t s = s.
Proof.
  unfold test, Regex.search, replaceAll, replaceAllWith. intros H.
  apply replaceAll_no_match.
  destruct (searchFrom ci r None s); [discriminate|reflexivity].
Qed.

(** ** The passes of [replaceBranding] on the tree *)

Lemma getAttribute_setAttribute (k v : string) (a : Attrs) :
  getAttribute k (setAttribute k v a) = Some v.
Proof.
  induction a as [|[k0 v0] a IH]; simpl.
  - now rewrite String.eqb_refl.
  - destruct (String.eqb k0 k) eqn:E; simpl; now rewrite E.
Qed.

Lemma getAttribute_setAttribute_other (k k' v : string) (a : Attrs) :
  k <> k' -> getAttribute k (setAttribute k' v a) = getAttribute k a.
Proof.
  intros Hk. induction a as [|[k0 v0] a IH]; simpl.
  - apply String.eqb_neq in Hk. rewrite String.eqb_sym. now rewrite Hk.
  - destruct (String.eqb k0 k') eqn:E; simpl.
    + apply String.eqb_eq in E. subst k0.
      destruct (String.eqb k' k) eqn:E2; [|reflexivity].
      apply String.eqb_eq in E2. congruence.
    + now rewrite IH.
Qed.

Lemma hasAttribute_brandAttr (k name : string) (a : Attrs) :
  hasAttribute k (Branding.brandAttr name a) = hasAttribute k a.
Proof.
  unfold Branding.brandAttr.
  destruct (getAttribute name a) as [v|] eqn:E; [|reflexivity].
  destruct (truthy v && Branding.mentionsAllure v); [|reflexivity].
  unfold hasAttribute. destruct (String.eqb k name) eqn:Ek.
  - apply String.eqb_eq in Ek. subst k.
    now rewrite getAttribute_setAttribute, E.
  - apply String.eqb_neq in Ek. now rewrite getAttribute_setAttribute_other.
Qed.

Lemma class_brandAttr (name : string) (a : Attrs) :
  name <> "class" ->
  getAttribute "class" (Branding.brandAttr name a) = getAttribute "class" a.
Proof.
  intros Hn. unfold Branding.brandAttr.
  destruct (getAttribute name a) as [v|]; [|reflexivity].
  destruct (truthy v && Branding.mentionsAllure v); [|reflexivity].
  apply getAttribute_setAttribute_other. congruence.
Qed.

Lemma headingSelector_class (t : string) (a a' : Attrs) :
  getAttribute "class" a' = getAttribute "class" a ->
  Branding.headingSelector t a' = Branding.headingSelector t a.
Proof.
  intros H. unfold Branding.headingSelector, anyOf, hasClass, attrContains.
  cbn [existsb]. now rewrite H.
Qed.

Lemma skipped_outline (chain chain' : Chain) :
  Branding.outline chain = Branding.outline chain' ->
  Branding.skipped chain = Branding.skipped chain'.
Proof.
  intros H.
  assert (Hc : forall sel : string -> bool -> bool -> bool,
             existsb (fun e => sel (fst e) (hasAttribute "src" (snd e))
                                   (hasAttribute "href" (snd e))) chain
             = existsb (fun e => sel (fst e) (hasAttribute "src" (snd e))
                                     (hasAttribute "href" (snd e))) chain').
  { intros sel. revert chain' H.
    induction chain as [|[t a] chain IH]; intros [|[t' a'] chain'] H;
      try discriminate; [reflexivity|].
    cbn in H. injection H as Ht Hs Hh Hrest. cbn [existsb fst snd].
    now rewrite Ht, Hs, Hh, (IH chain' Hrest). }
  unfold Branding.skipped.
  destruct chain as [|[t a] chain], chain' as [|[t' a'] chain'];
    try discriminate; [reflexivity|].
  assert (Hi : Branding.insideBareImage ((t, a) :: chain)
               = Branding.insideBareImage ((t', a') :: chain')).
  { unfold Branding.insideBareImage, closestExists, Branding.anchorWithHref, byTag.
    rewrite (Hc (fun t _ _ => named "IMG" t)).
    now rewrite (Hc (fun t _ h => named "A" t && h)). }
  rewrite Hi. cbn in H. injection H as Ht Hs Hh _. now rewrite Ht, Hs, Hh.
Qed.

Lemma clean_outline (n : Node) :
  forall chain chain',
    Branding.outline chain = Branding.outline chain' ->
    Branding.clean chain n = Branding.clean chain' n.
Proof.
  induction n as [t a c IH|d|d] using Node_forall_ind; intros chain chain' H;
    [|cbn [Branding.clean]; now rewrite (skipped_outline _ _ H)|reflexivity].
  cbn [Branding.clean].
  induction IH as [|x l Hx _ IHl]; [reflexivity|]. cbn [forallb].
  rewrite IHl. f_equal. apply Hx.
  unfold Branding.outline in *. cbn [map]. now rewrite H.
Qed.

Lemma noBrand_empty : Branding.noBrand "" = true.
Proof. reflexivity. Qed.

Lemma clean_textChildren (chain : Chain) (s : string) :
  Branding.noBrand s = true ->
  forallb (Branding.clean chain) (textChildren s) = true.
Proof.
  intros H. unfold textChildren. destruct (truthy s); [|reflexivity].
  cbn [forallb Branding.clean]. now rewrite H, !orb_true_r.
Qed.

Lemma forallb_map_forall {A : Type} (q q' : A -> bool) (f : A -> A) (l : list A) :
  Forall (fun x => q x = true -> q' (f x) = true) l ->
  forallb q l = true -> forallb q' (map f l) = true.
Proof.
  induction 1 as [|x l Hx _ IH]; cbn; [reflexivity|].
  intros H. apply andb_true_iff in H as [H1 H2]. now rewrite Hx, IH.
Qed.

Lemma walkText_clean (n : Node) :
  forall chain, Branding.clean chain (Branding.walkText chain n) = true.
Proof.
  induction n as [t a c IH|d|d] using Node_forall_ind; intros chain;
    [| |reflexivity].
  - cbn [Branding.walkText Branding.clean].
    induction IH as [|x l Hx _ IHl]; [reflexivity|]. cbn [map forallb].
    now rewrite Hx, IHl.
  - cbn [Branding.walkText].
    destruct (Branding.skipped chain) eqn:Es; [cbn [Branding.clean]; now rewrite Es|].
    destruct (truthy d) eqn:Et; cbn [andb].
    + destruct (Branding.plainText d) eqn:Ep; cbn [Branding.clean].
      * now rewrite brandWords_clean, !orb_true_r.
      * now rewrite Ep, orb_true_r.
    + destruct d; [|discriminate]. cbn [Branding.clean].
      now rewrite noBrand_empty, !orb_true_r.
Qed.

Lemma brandTitles_clean (n : Node) :
  forall chain, Branding.clean chain n = true ->
                Branding.clean chain (Branding.brandTitles n) = true.
Proof.
  induction n as [t a c IH|d|d] using Node_forall_ind; intros chain H;
    try exact H.
  cbn [Branding.brandTitles].
  destruct (named "TITLE" t && truthy (textContent (Element t a c))).
  - cbn [Branding.clean]. apply clean_textChildren, brandNames_clean.
  - cbn [Branding.clean] in *. revert H. apply forallb_map_forall.
    eapply Forall_impl; [|exact IH]. intros x Hx. apply Hx.
Qed.

Lemma brandAlts_clean (n : Node) :
  forall chain chain',
    Branding.outline chain = Branding.outline chain' ->
    Branding.clean chain n = true ->
    Branding.clean chain' (Branding.brandAlts n) = true.
Proof.
  induction n as [t a c IH|d|d] using Node_forall_ind; intros chain chain' Ho H;
    [|now rewrite <- (clean_outline _ _ _ Ho)|reflexivity].
  cbn [Branding.brandAlts Branding.clean] in *.
  revert H. apply forallb_map_forall.
  eapply Forall_impl; [|exact IH]. intros x Hx. apply Hx.
  unfold Branding.outline in *. cbn [map fst snd]. rewrite Ho.
  destruct (named "IMG" t); [now rewrite !hasAttribute_brandAttr | reflexivity].
Qed.

Lemma brandHeadings_clean (n : Node) :
  forall chain, Branding.clean chain n = true ->
                Branding.clean chain (Branding.brandHeadings n) = true.
Proof.
  induction n as [t a c IH|d|d] using Node_forall_ind; intros chain H;
    try exact H.
  cbn [Branding.brandHeadings].
  match goal with |- context [if ?b then _ else _] => destruct b end.
  - cbn [Branding.clean]. apply clean_textChildren, brandWords_clean.
  - cbn [Branding.clean] in *. revert H. apply forallb_map_forall.
    eapply Forall_impl; [|exact IH]. intros x Hx. apply Hx.
Qed.

Lemma brandBlocks_clean (n : Node) :
  forall chain chain',
    Branding.clean chain' n = true ->
    Branding.clean chain' (Branding.brandBlocks chain n) = true.
Proof.
  induction n as [t a c IH|d|d] using Node_forall_ind; intros chain chain' H;
    try exact H.
  cbn [Branding.brandBlocks].
  match goal with |- context [if ?b then _ else _] => destruct b end.
  - destruct (forallb (fun k => negb (isElement k)) c).
    + cbn [Branding.clean]. apply clean_textChildren, brandWords_clean.
    + cbn [Branding.clean] in *. revert H. apply forallb_map_forall.
      eapply Forall_impl; [|exact IH]. intros x Hx Hc.
      destruct x as [t' a' c'|d|d]; [now apply Hx| |exact Hc].
      unfold Branding.brandDirectText.
      match goal with |- context [if ?b then _ else _] => destruct b end;
        [|exact Hc].
      cbn [Branding.clean]. now rewrite brandWords_clean, orb_true_r.
  - cbn [Branding.clean] in *. revert H. apply forallb_map_forall.
    eapply Forall_impl; [|exact IH]. intros x Hx. apply Hx.
Qed.

Lemma brandData_clean (n : Node) :
  forall chain chain',
    Branding.outline chain = Branding.outline chain' ->
    Branding.clean chain n = true ->
    Branding.clean chain' (Branding.brandData n) = true.
Proof.
  induction n as [t a c IH|d|d] using Node_forall_ind; intros chain chain' Ho H;
    [|now rewrite <- (clean_outline _ _ _ Ho)|reflexivity].
  cbn [Branding.brandData Branding.clean] in *.
  revert H. apply forallb_map_forall.
  eapply Forall_impl; [|exact IH]. intros x Hx. apply Hx.
  unfold Branding.outline in *. cbn [map fst snd]. rewrite Ho.
  match goal with |- context [if ?b then _ else _] => destruct b end;
    [now rewrite !hasAttribute_brandAttr | reflexivity].
Qed.

Lemma forallb_map_all {A : Type} (q : A -> bool) (f : A -> A) (l : list A) :
  (forall x, q x = true -> q (f x) = true) ->
  forallb q l = true -> forallb q (map f l) = true.
Proof.
  intros H. apply forallb_map_forall. apply Forall_forall. intros x _. apply H.
Qed.

Lemma replaceBrandingDom_clean (forest : list Node) :
  forallb (Branding.clean Branding.rootChain) (Branding.replaceBrandingDom forest)
  = true.
Proof.
  unfold Branding.replaceBrandingDom, Branding.walkPass.
  apply forallb_map_all; [intros x; now apply brandData_clean|].
  apply forallb_map_all; [intros x; now apply brandBlocks_clean|].
  apply forallb_map_all; [intros x; now apply brandHeadings_clean|].
  apply forallb_map_all; [intros x; now apply brandAlts_clean|].
  apply forallb_map_all; [intros x; now apply brandTitles_clean|].
  induction forest as [|x l IH]; [reflexivity|]. cbn [map forallb].
  now rewrite walkText_clean, IH.
Qed.


Lemma clean_at (p : Path) :
  forall (forest : list Node) (chain : Chain) (d : string),
    forallb (Branding.clean chain) forest = true ->
    getAt forest p = Some (Text d) ->
    Branding.skipped (Branding.parentChain chain forest p) = false ->
    Branding.plainText d = true ->
    Branding.noBrand d = true.
Proof.
  induction p as [|i p IH]; intros forest chain d Hc Hat Hs Hp; [discriminate|].
  assert (Hnth : forall n, nth_error forest i = Some n ->
                           Branding.clean chain n = true).
  { intros n Hn. apply nth_error_In in Hn.
    rewrite forallb_forall in Hc. now apply Hc. }
  destruct p as [|j p].
  - cbn [getAt Branding.parentChain] in *. apply Hnth in Hat.
    cbn [Branding.clean] in Hat. now rewrite Hs, Hp in Hat.
  - rewrite getAt_cons in Hat. cbn [Branding.parentChain] in Hs.
    destruct (nth_error forest i) as [[t a c| |]|] eqn:En; try discriminate.
    specialize (Hnth _ eq_refl). cbn [Branding.clean] in Hnth.
    exact (IH c _ d Hnth Hat Hs Hp).
Qed.

(** *** The [src] and [href] attributes *)

Lemma keptLinks_textChildren (s : string) :
  flat_map Branding.keptLinks (textChildren s) = [].
Proof. unfold textChildren. now destruct (truthy s). Qed.

Lemma keptLinks_no_elements (c : list Node) :
  forallb (fun k => negb (isElement k)) c = true ->
  flat_map Branding.keptLinks c = [].
Proof.
  induction c as [|[t a c'|d|d] l IH]; cbn; try discriminate; auto.
Qed.

Lemma flat_map_map_same {A B : Type} (g : A -> list B) (f : A -> A) (l : list A) :
  Forall (fun x => g (f x) = g x) l -> flat_map g (map f l) = flat_map g l.
Proof.
  induction 1 as [|x l Hx _ IH]; cbn; [reflexivity|]. now rewrite Hx, IH.
Qed.

Lemma walkText_kept (n : Node) :
  forall chain, Branding.keptLinks (Branding.walkText chain n) = Branding.keptLinks n.
Proof.
  induction n as [t a c IH|d|d] using Node_forall_ind; intros chain;
    [| |reflexivity].
  - cbn [Branding.walkText Branding.keptLinks]. f_equal.
    destruct (named "TITLE" t || Branding.headingSelector t a); [reflexivity|].
    apply flat_map_map_same. eapply Forall_impl; [|exact IH]. now intros x Hx.
  - cbn [Branding.walkText].
    destruct (Branding.skipped chain); [reflexivity|].
    now destruct (truthy d && Branding.plainText d).
Qed.

Lemma brandTitles_kept (n : Node) :
  Branding.keptLinks (Branding.brandTitles n) = Branding.keptLinks n.
Proof.
  induction n as [t a c IH|d|d] using Node_forall_ind; try reflexivity.
  cbn [Branding.brandTitles].
  destruct (named "TITLE" t) eqn:Et; cbn [andb].
  - destruct (truthy (textContent (Element t a c)));
      cbn [Branding.keptLinks]; now rewrite Et.
  - cbn [Branding.keptLinks]. f_equal. rewrite Et. cbn [orb].
    destruct (Branding.headingSelector t a); [reflexivity|].
    now apply flat_map_map_same.
Qed.

Lemma kept_attrs (t : string) (a a' : Attrs) (c c' : list Node) :
  Branding.linkAttrs t a' = Branding.linkAttrs t a ->
  getAttribute "class" a' = getAttribute "class" a ->
  (named "TITLE" t || Branding.headingSelector t a = false ->
   flat_map Branding.keptLinks c' = flat_map Branding.keptLinks c) ->
  Branding.keptLinks (Element t a' c') = Branding.keptLinks (Element t a c).
Proof.
  intros Ha Hc Hk. cbn [Branding.keptLinks].
  rewrite Ha, (headingSelector_class t a a' Hc). f_equal.
  destruct (named "TITLE" t || Branding.headingSelector t a); [reflexivity|].
  now apply Hk.
Qed.

Lemma brandAlts_kept (n : Node) :
  Branding.keptLinks (Branding.brandAlts n) = Branding.keptLinks n.
Proof.
  induction n as [t a c IH|d|d] using Node_forall_ind; try reflexivity.
  cbn [Branding.brandAlts]. apply kept_attrs.
  - destruct (named "IMG" t); [now apply linkAttrs_brandAttr | reflexivity].
  - destruct (named "IMG" t); [now apply class_brandAttr | reflexivity].
  - intros _. now apply flat_map_map_same.
Qed.

Lemma brandHeadings_kept (n : Node) :
  Branding.keptLinks (Branding.brandHeadings n) = Branding.keptLinks n.
Proof.
  induction n as [t a c IH|d|d] using Node_forall_ind; try reflexivity.
  cbn [Branding.brandHeadings].
  destruct (Branding.headingSelector t a) eqn:Eh; cbn [andb].
  - match goal with |- context [if ?b then _ else _] => destruct b end;
      cbn [Branding.keptLinks]; now rewrite Eh, !orb_true_r.
  - cbn [Branding.keptLinks]. f_equal. rewrite Eh.
    destruct (named "TITLE" t || false); [reflexivity|].
    now apply flat_map_map_same.
Qed.

Lemma brandBlocks_kept (n : Node) :
  forall chain,
    Branding.keptLinks (Branding.brandBlocks chain n) = Branding.keptLinks n.
Proof.
  induction n as [t a c IH|d|d] using Node_forall_ind; intros chain;
    try reflexivity.
  cbn [Branding.brandBlocks].
  match goal with |- context [if ?b then _ else _] => destruct b end.
  - destruct (forallb (fun k => negb (isElement k)) c) eqn:El.
    + cbn [Branding.keptLinks].
      now rewrite keptLinks_textChildren, (keptLinks_no_elements c El).
    + cbn [Branding.keptLinks]. f_equal.
      destruct (named "TITLE" t || Branding.headingSelector t a); [reflexivity|].
      apply flat_map_map_same. eapply Forall_impl; [|exact IH]. intros x Hx.
      destruct x as [t' a' c'|d|d]; [apply Hx| |reflexivity].
      unfold Branding.brandDirectText.
      now match goal with |- context [if ?b then _ else _] => destruct b end.
  - cbn [Branding.keptLinks]. f_equal.
    destruct (named "TITLE" t || Branding.headingSelector t a); [reflexivity|].
    apply flat_map_map_same. eapply Forall_impl; [|exact IH]. now intros x Hx.
Qed.

Lemma brandData_kept (n : Node) :
  Branding.keptLinks (Branding.brandData n) = Branding.keptLinks n.
Proof.
  induction n as [t a c IH|d|d] using Node_forall_ind; try reflexivity.
  cbn [Branding.brandData]. apply kept_attrs.
  - match goal with |- context [if ?b then _ else _] => destruct b end;
      [now rewrite !linkAttrs_brandAttr | reflexivity].
  - match goal with |- context [if ?b then _ else _] => destruct b end;
      [now rewrite !class_brandAttr | reflexivity].
  - intros _. now apply flat_map_map_same.
Qed.

Lemma pass_kept (f : Node -> Node) (forest : list Node) :
  (forall n, Branding.keptLinks (f n) = Branding.keptLinks n) ->
  flat_map Branding.keptLinks (map f forest) = flat_map Branding.keptLinks forest.
Proof.
  intros H. apply flat_map_map_same. apply Forall_forall. intros x _. apply H.
Qed.

Lemma replaceBrandingDom_kept (forest : list Node) :
  flat_map Branding.keptLinks (Branding.replaceBrandingDom forest)
  = flat_map Branding.keptLinks forest.
Proof.
  unfold Branding.replaceBrandingDom, Branding.walkPass.
  rewrite (pass_kept _ _ brandData_kept).
  rewrite (pass_kept _ _ (fun n => brandBlocks_kept n Branding.rootChain)).
  rewrite (pass_kept _ _ brandHeadings_kept).
  rewrite (pass_kept _ _ brandAlts_kept).
  rewrite (pass_kept _ _ brandTitles_kept).
  apply pass_kept. intros n. apply walkText_kept.
Qed.

(** *** A text node reached through only children *)

Lemma brandWords_fixed (d : string) :
  Branding.noBrand d = true -> Branding.brandWords d = d.
Proof.
  unfold Branding.noBrand, Branding.names, Branding.brandWords. cbn [forallb].
  rewrite !andb_true_iff, !negb_true_iff. intros (H1 & H2 & H3 & _).
  rewrite (test_false_replaceAll _ _ _ _ H1).
  rewrite (test_false_replaceAll _ _ _ _ H2).
  now rewrite (test_false_replaceAll _ _ _ _ H3).
Qed.

Lemma textContent_wrap (els : list (string * Attrs)) (d : string) :
  textContent (Branding.wrap els (Text d)) = d.
Proof.
  induction els as [|[t a] els IH]; [reflexivity|].
  cbn [Branding.wrap textContent map String.concat].
  destruct els as [|[t' a'] els]; exact IH.
Qed.

Lemma walkText_wrap (els : list (string * Attrs)) (leaf : Node) :
  forall chain,
    Branding.walkText chain (Branding.wrap els leaf)
    = Branding.wrap els (Branding.walkText (rev els ++ chain)%list leaf).
Proof.
  induction els as [|[t a] els IH]; intros chain; [reflexivity|].
  cbn [Branding.wrap Branding.walkText map rev]. rewrite IH.
  now rewrite <- app_assoc.
Qed.

Lemma brandTitles_wrap (els : list (string * Attrs)) (d : string) :
  forallb (fun e => negb (named "TITLE" (fst e))) els = true ->
  Branding.brandTitles (Branding.wrap els (Text d)) = Branding.wrap els (Text d).
Proof.
  induction els as [|[t a] els IH]; [reflexivity|]. cbn [forallb fst].
  intros H. apply andb_true_iff in H as [Ht H]. apply negb_true_iff in Ht.
  cbn [Branding.wrap Branding.brandTitles]. rewrite Ht. cbn [andb map].
  now rewrite (IH H).
Qed.

Lemma brandAlts_wrap (els : list (string * Attrs)) (d : string) :
  exists els',
    List.length els' = List.length els /\
    Branding.brandAlts (Branding.wrap els (Text d)) = Branding.wrap els' (Text d).
Proof.
  induction els as [|[t a] els (els' & Hl & IH)]; [now exists []|].
  exists ((t, if named "IMG" t then Branding.brandAttr "alt" a else a) :: els').
  split; [cbn; now rewrite Hl|].
  cbn [Branding.wrap Branding.brandAlts map]. now rewrite IH.
Qed.

Lemma brandHeadings_wrap (els : list (string * Attrs)) (d : string) :
  Branding.noBrand d = true ->
  Branding.brandHeadings (Branding.wrap els (Text d)) = Branding.wrap els (Text d).
Proof.
  intros Hd. induction els as [|[t a] els IH]; [reflexivity|].
  cbn [Branding.wrap Branding.brandHeadings].
  change (Element t a [Branding.wrap els (Text d)])
    with (Branding.wrap ((t, a) :: els) (Text d)).
  rewrite textContent_wrap, (brandWords_fixed d Hd), String.eqb_refl.
  rewrite !andb_false_r. cbn [Branding.wrap map]. now rewrite IH.
Qed.

Lemma brandBlocks_wrap (els : list (string * Attrs)) (d : string) :
  Branding.noBrand d = true ->
  forall chain,
    Branding.brandBlocks chain (Branding.wrap els (Text d))
    = Branding.wrap els (Text d).
Proof.
  intros Hd. induction els as [|[t a] els IH]; intros chain; [reflexivity|].
  cbn [Branding.wrap Branding.brandBlocks].
  change (Element t a [Branding.wrap els (Text d)])
    with (Branding.wrap ((t, a) :: els) (Text d)).
  rewrite textContent_wrap, (brandWords_fixed d Hd), String.eqb_refl.
  rewrite !andb_false_r. cbn [Branding.wrap map]. now rewrite IH.
Qed.

Lemma brandData_wrap (els : list (string * Attrs)) (d : string) :
  exists els',
    List.length els' = List.length els /\
    Branding.brandData (Branding.wrap els (Text d)) = Branding.wrap els' (Text d).
Proof.
  induction els as [|[t a] els (els' & Hl & IH)]; [now exists []|].
  eexists ((t, _) :: els').
  split; [cbn; now rewrite Hl|].
  cbn [Branding.wrap Branding.brandData map]. now rewrite IH.
Qed.

Lemma getAt_wrap (els : list (string * Attrs)) (leaf : Node) :
  forall (pre post : list Node),
    getAt (pre ++ Branding.wrap els leaf :: post)%list
          (List.length pre :: repeat 0 (List.length els))
    = Some leaf.
Proof.
  induction els as [|[t a] els IH]; intros pre post.
  - cbn [List.length repeat getAt Branding.wrap].
    now rewrite nth_error_app2, Nat.sub_diag by lia.
  - cbn [List.length repeat Branding.wrap]. rewrite getAt_cons.
    rewrite nth_error_app2, Nat.sub_diag by lia. cbn [nth_error].
    exact (IH [] []).
Qed.

(** The result of the passes at a text node that is reached through only
    children, none of them a [title]. *)
Lemma replaceBrandingDom_wrap (pre post : list Node) (els : list (string * Attrs))
      (d : string) :
  forallb (fun e => negb (named "TITLE" (fst e))) els = true ->
  Branding.skipped (rev els ++ Branding.rootChain)%list = false ->
  truthy d = true -> Branding.plainText d = true ->
  getAt (Branding.replaceBrandingDom (pre ++ Branding.wrap els (Text d) :: post)%list)
        (List.length pre :: repeat 0 (List.length els))
  = Some (Text (Branding.brandWords d)).
Proof.
  intros Ht Hs Hd Hp.
  unfold Branding.replaceBrandingDom, Branding.walkPass.
  rewrite !map_app. cbn [map].
  rewrite walkText_wrap. cbn [Branding.walkText]. rewrite Hs, Hd, Hp. cbn [andb].
  rewrite (brandTitles_wrap els _ Ht).
  destruct (brandAlts_wrap els (Branding.brandWords d)) as (els1 & Hl1 & ->).
  rewrite (brandHeadings_wrap els1 _ (brandWords_clean d)).
  rewrite (brandBlocks_wrap els1 _ (brandWords_clean d)).
  destruct (brandData_wrap els1 (Branding.brandWords d)) as (els2 & Hl2 & ->).
  rewrite <- Hl1, <- Hl2.
  repeat match goal with
         | |- context [map ?f (map ?g pre)] => rewrite (map_map g f pre)
         end.
  match goal with
  | |- getAt (?l ++ _ :: _)%list _ = _ =>
      replace (List.length pre) with (List.length l) by now rewrite length_map
  end.
  apply getAt_wrap.
Qed.

(** C5 (as amended). Branding replacement substitutes the name of the
    company in the rendered markup. The text-node pass of
    [replaceBranding] gives every non-empty text node whose parent is not
    a [script], [style] or [noscript] element, carries no [src] or [href]
    attribute unless it is an anchor, and is not inside an [img] outside
    a linked anchor, and whose text holds no URL-like pattern, the text
    in which every word-bounded, case-insensitive occurrence of the three
    spellings of the name is replaced by [Rimalweb]: no occurrence is left
    in it. In the result of [replaceBranding] no such text node holds an
    occurrence; a text node that is reached through only children, none
    of them a [title], holds there the very text the text-node pass gave
    it. The [src] and [href] values are left as they are: the elements
    that are not below a [title] or a heading keep theirs, in their
    order, and every [src] and [href] value in the result is the value of
    that attribute on an element of the same tag in the input. *)
Theorem replaceBranding_text_nodes (forest : list Node) :
  (forall p d,
     getAt forest p = Some (Text d) ->
     Branding.skipped (Branding.parentChain Branding.rootChain forest p) = false ->
     truthy d = true -> Branding.plainText d = true ->
     getAt (Branding.walkPass forest) p = Some (Text (Branding.brandWords d)) /\
     Branding.noBrand (Branding.brandWords d) = true) /\
  (forall p d,
     getAt (Branding.replaceBrandingDom forest) p = Some (Text d) ->
     Branding.skipped
       (Branding.parentChain Branding.rootChain
          (Branding.replaceBrandingDom forest) p) = false ->
     Branding.plainText d = true ->
     Branding.noBrand d = true) /\
  (forall pre els d post,
     forest = (pre ++ Branding.wrap els (Text d) :: post)%list ->
     forallb (fun e => negb (named "TITLE" (fst e))) els = true ->
     Branding.skipped (rev els ++ Branding.rootChain)%list = false ->
     truthy d = true -> Branding.plainText d = true ->
     getAt (Branding.replaceBrandingDom forest)
           (List.length pre :: repeat 0 (List.length els))
     = Some (Text (Branding.brandWords d))) /\
  flat_map Branding.keptLinks (Branding.replaceBrandingDom forest)
  = flat_map Branding.keptLinks forest /\
  incl (flat_map Branding.linkValues (Branding.replaceBrandingDom forest))
       (flat_map Branding.linkValues forest).
Proof.
  split; [|split; [|split; [|split]]].
  - intros p d Hat Hskip Ht Hplain. split; [|apply brandWords_clean].
    unfold Branding.walkPass. rewrite (walkText_at p forest _ d Hat).
    cbn [Branding.walkText]. now rewrite Hskip, Ht, Hplain.
  - intros p d Hat Hskip Hplain.
    exact (clean_at p _ _ d (replaceBrandingDom_clean forest) Hat Hskip Hplain).
  - intros pre els d post -> Ht Hs Hd Hp. now apply replaceBrandingDom_wrap.
  - apply replaceBrandingDom_kept.
  - apply replaceBrandingDom_links.
Qed.

Lemma replaceBranding_text_nodes_witness :
  let text := "Allure Digital, the allure digital agency" in
  let forest :=
    [Element "P" [("class", "lead")]
       [Element "A" [("href", "https://alluredigital.net/")] [Text text]]] in
  getAt forest [0; 0; 0] = Some (Text text) /\
  getAt (Branding.walkPass forest) [0; 0; 0]
  = Some (Text "Rimalweb, the Rimalweb agency") /\
  getAt (Branding.replaceBrandingDom forest) [0; 0; 0]
  = Some (Text "Rimalweb, the Rimalweb agency") /\
  Branding.noBrand "Rimalweb, the Rimalweb agency" = true /\
  flat_map Branding.keptLinks (Branding.replaceBrandingDom forest)
  = [("A", "href", "https://alluredigital.net/")].
Proof.
  intros text forest.
  destruct (replaceBranding_text_nodes forest) as (H1 & H2 & H3 & H4 & _).
  destruct (H1 [0; 0; 0] text eq_refl eq_refl eq_refl eq_refl) as [Hw _].
  pose proof (H3 [] [("P", [("class", "lead")]);
                     ("A", [("href", "https://alluredigital.net/")])]
                text [] eq_refl eq_refl eq_refl eq_refl eq_refl) as Hr.
  assert (Eb : Branding.brandWords text = "Rimalweb, the Rimalweb agency")
    by (vm_compute; reflexivity).
  rewrite Eb in Hw, Hr. cbn [List.length repeat] in Hr.
  split; [reflexivity|]. split; [exact Hw|]. split; [exact Hr|].
  split; [exact (H2 [0; 0; 0] _ Hr eq_refl eq_refl)|].
  rewrite H4. reflexivity.
Defined.

(** C5 as stated fails: a text node in an element that carries a [src]
    attribute and is not an anchor is passed over by the text-node pass,
    and no later pass reaches it here. *)
Lemma replaceBranding_skips_src_parent :
  let forest := [Element "VIDEO" [("src", "/media/intro.mp4")] [Text "Allure Digital"]] in
  Branding.plainText "Allure Digital" = true /\
  Branding.brandWords "Allure Digital" = "Rimalweb" /\
  Branding.replaceBrandingDom forest = forest /\
  Branding.replaceBranding Html.reference
    "<video src='/media/intro.mp4'>Allure Digital</video>"
  = "<video src=" ++ dq ++ "/media/intro.mp4" ++ dq ++ ">Allure Digital</video>".
Proof. repeat split; vm_compute; reflexivity. Qed.

(** ** The [data-settings] rewrite *)

Example rewriteDataSettings_valid :
  Settings.rewriteDataSettings Url.reference Json.reference
    ("<div data-settings=" ++ dq
     ++ "{&quot;background_background&quot;:&quot;classic&quot;,&quot;background_image&quot;:{&quot;url&quot;:&quot;https://alluredigital.net/wp-content/uploads/2022/12/hero-1024x576.jpg&quot;,&quot;id&quot;:12}}"
     ++ dq ++ ">x</div>")
  = "<div data-settings=" ++ dq
     ++ "{&quot;background_background&quot;:&quot;classic&quot;,&quot;background_image&quot;:{&quot;url&quot;:&quot;/assets/alluredigital.net_wp-content_uploads_2022_12_hero.jpg&quot;,&quot;id&quot;:12}}"
     ++ dq ++ ">x</div>".
Proof. vm_compute. reflexivity. Qed.

Example rewriteDataSettings_null :
  Settings.rewriteDataSettings Url.reference Json.reference
    ("<div DATA-SETTINGS=" ++ dq ++ "null" ++ dq ++ "></div>")
  = "<div DATA-SETTINGS=" ++ dq ++ "null" ++ dq ++ "></div>".
Proof. vm_compute. reflexivity. Qed.

(** The outer [catch]: when a step throws, the attribute is emitted as it
    was matched. The only step that can throw is the property read on a
    parsed [null]. *)
Lemma settingsCallback_atomic (newURL : Url.constructor) (J : Json.Services)
      (matched : string) (cs : list (nat * string)) :
  Settings.processSettings newURL J (cap 1 cs) = None ->
  Settings.settingsCallback newURL J matched cs = matched.
Proof. unfold Settings.settingsCallback. now intros ->. Qed.

Lemma processSettings_throws (newURL : Url.constructor) (J : Json.Services)
      (jsonStr : string) :
  Settings.processSettings newURL J jsonStr = None <->
  Json.parse J (Settings.decodeEntities jsonStr) = Some Json.Null.
Proof.
  unfold Settings.processSettings.
  destruct (Json.parse J (Settings.decodeEntities jsonStr)) as [v|]; [|easy].
  destruct v as [| | | | |fields]; cbn [Settings.replaceSlideshow]; try easy.
  destruct (Json.get "background_background" fields) as [[| | |kind| |]|];
    try easy.
  destruct (Json.get "background_slideshow_gallery" fields) as [[| | | | |]|];
    try easy.
  now destruct (String.eqb kind "slideshow").
Qed.

(** C10, where the code parts from it. When the decoded value is not
    valid JSON, the URL pattern is applied to the raw attribute value, in
    which every double quote is written [&quot;]; its last group, a run of
    characters other than the double quote, therefore runs to the end of
    the value, and everything after the first domain URL is taken for
    part of that URL and rewritten with it (here [16/9] becomes [16_9]). *)
Theorem rewriteDataSettings_raw_tail :
  let value :=
    "{&quot;url&quot;:&quot;https://alluredigital.net/a.png&quot;,&quot;ratio&quot;:&quot;16/9&quot;" in
  Json.parse Json.reference (Settings.decodeEntities value) = None /\
  Settings.rewriteDataSettings Url.reference Json.reference
    ("<div data-settings=" ++ dq ++ value ++ dq ++ "></div>")
  = "<div data-settings=" ++ dq
    ++ "{&quot;url&quot;:&quot;/assets/alluredigital.net_a.png&quot;,&quot;ratio&quot;:&quot;16_9&quot;"
    ++ dq ++ "></div>" /\
  includes
    (Settings.rewriteDataSettings Url.reference Json.reference
       ("<div data-settings=" ++ dq ++ value ++ dq ++ "></div>"))
    "&quot;,&quot;ratio&quot;:&quot;16/9&quot;" = false.
Proof. repeat split; vm_compute; reflexivity. Qed.

(** ** The routine on a concrete page *)

Example sample_head :
  Effect.headOps sampleRun
  = [ Effect.HeadAppend
        (Element "LINK"
           [("rel", "stylesheet");
            ("href", "/assets/alluredigital.net_wp-content_litespeed_css_main.css");
            ("data-injected", "true")] []);
      Effect.HeadAppend (Element "TITLE" [] [Text "Rimalweb"]);
      Effect.HeadAppend
        (Element "META" [("name", "description"); ("content", "Rimalweb agency")] []) ].
Proof. vm_compute. reflexivity. Qed.

Example sample_body :
  Effect.bodyOps sampleRun
  = [ Effect.ContainerClassName "home";
      Effect.ParsedBody [0; 0; 0]
        (Effect.SetAttr "src" "/assets/alluredigital.net_wp-content_uploads_2022_12_Allure-Logo.png");
      Effect.ParsedBody [0; 0]
        (Effect.PutLogo "A" (Element "A" [("href", "https://alluredigital.net/")] [sampleLogo]));
      Effect.ParsedBody [0; 0] (Effect.SetAttr "href" "/") ].
Proof. vm_compute. reflexivity. Qed.

Example sample_rest :
  Effect.insertion sampleRun
  = [ Effect.ContainerInnerHTML
        ("<header><a href=" ++ dq ++ "/" ++ dq ++ "><img src=" ++ dq ++ "/rimal.png" ++ dq
         ++ " width=" ++ dq ++ "240" ++ dq ++ " height=" ++ dq ++ "60" ++ dq
         ++ " alt=" ++ dq ++ "Rimalweb" ++ dq ++ " class=" ++ dq ++ dq
         ++ " style=" ++ dq ++ "width: 240px; height: 60px; object-fit: contain; " ++ dq
         ++ "></a></header><p>Welcome</p>") ] /\
  Effect.fixupOps sampleRun = [Effect.ImageOnError [0; 0; 0]] /\
  Effect.scriptOps sampleRun
  = [ Effect.HeadAppend
        (Element "SCRIPT" [("src", "/assets/alluredigital.net_wp-includes_js_jquery.min.js")] []);
      Effect.AwaitScripts 1 ].
Proof. repeat split; vm_compute; reflexivity. Qed.

(** ** The order of the phases *)

Lemma fold_left_invariant {A B : Type} (Q : A -> Prop) (f : A -> B -> A)
      (l : list B) :
  forall a, Q a -> (forall a b, Q a -> Q (f a b)) -> Q (fold_left f l a).
Proof.
  induction l as [|x l IH]; intros a Ha Hf; simpl; [assumption|].
  apply IH; [now apply Hf | assumption].
Qed.




Lemma selectNode_sound (sel : Selector) (n : Node) :
  Forall (fun m => sel (tagOf m) (attrsOf m) = true /\ isElement m = true)
         (selectNode sel n).
Proof.
  induction n as [t a c IH|d|d] using Node_forall_ind; simpl; try constructor.
  apply Forall_app. split.
  - destruct (sel t a) eqn:E; constructor; [now split | constructor].
  - apply Forall_flat_map. exact IH.
Qed.

Lemma selectAll_sound (sel : Selector) (forest : list Node) :
  Forall (fun m => sel (tagOf m) (attrsOf m) = true /\ isElement m = true)
         (selectAll sel forest).
Proof.
  unfold selectAll. apply Forall_flat_map. apply Forall_forall.
  intros n _. apply selectNode_sound.
Qed.

Section PhaseLemmas.

Variable P : Effect.Platform.



















Lemma injectScript_ops (st : Effect.State) (script : Node) :
  match Effect.injectScript P st script with
  | Some (_, ops, _) => forallb Trace.appendsScript ops = true
  | None => True
  end.
Proof.
  destruct (Effect.injectScript P st script) as [[[st1 ops] n]|] eqn:E; [|exact I].
  revert E. unfold Effect.injectScript.
  repeat match goal with
         | |- context [match ?x with _ => _ end] => destruct x
         end; intros [= <- <- <-] || intros [=]; reflexivity.
Qed.

Lemma forEachScript_ops (scripts : list Node) :
  forall st,
    forallb Trace.appendsScript
            (snd (fst (fst (Effect.forEachScript P st scripts)))) = true.
Proof.
  induction scripts as [|x l IH]; intros st; simpl; [reflexivity|].
  pose proof (injectScript_ops st x) as H1.
  destruct (Effect.injectScript P st x) as [[[st1 ops1] n1]|]; [|reflexivity].
  pose proof (IH st1) as H2.
  destruct (Effect.forEachScript P st1 l) as [[[st2 ops2] n2] ok].
  simpl in *. now rewrite forallb_app, H1, H2.
Qed.

(** The operations of the last phase: scripts appended to the head and,
    when the loop came to its end, one signal behind them. *)
Lemma scriptInjection_ops (st : Effect.State) (d : Effect.Document)
      (bodyForest : list Node) :
  let '(_, opsE, n, ok) := Effect.scriptInjection P st d bodyForest in
  exists ops,
    forallb Trace.appendsScript ops = true /\
    opsE = (ops ++ (if ok
                    then [if Nat.eqb n 0 then Effect.SetTimeout 100
                          else Effect.AwaitScripts n]
                    else []))%list.
Proof.
  unfold Effect.scriptInjection.
  pose proof (forEachScript_ops (Effect.allScripts d bodyForest) st) as H.
  destruct (Effect.forEachScript P st _) as [[[st' ops] n] ok]. simpl in *.
  exists ops. split; [assumption | reflexivity].
Qed.


End PhaseLemmas.










(** ** Readiness *)

Lemma fire_due (t : nat) (l rest : list nat) :
  Readiness.fire t l = Some rest ->
  (exists due, In due l /\ due <= t) /\ (forall x, In x rest -> In x l).
Proof.
  revert rest. induction l as [|due l IH]; intros rest; simpl; [discriminate|].
  destruct (Nat.leb_spec due t) as [Hle|Hgt].
  - intros [= <-]. split; [exists due; auto | auto].
  - destruct (Readiness.fire t l) as [rest'|]; [|discriminate].
    intros [= <-]. destruct (IH rest' eq_refl) as [(d & Hd & Hdt) Hsub].
    split; [exists d; auto|].
    intros x [<-|Hx]; [now left | right; now apply Hsub].
Qed.

Lemma consistent_afterEffect (env : Readiness.Env) (n t0 : nat) :
  Readiness.consistent env n t0 (Readiness.afterEffect n t0).
Proof.
  unfold Readiness.consistent, Readiness.afterEffect. simpl. split; [lia|].
  destruct n as [|n]; simpl.
  - repeat split; auto. discriminate.
  - repeat split; reflexivity.
Qed.

Lemma consistent_step (env : Readiness.Env) (n t0 : nat) (s : Readiness.Loop)
      (e : Readiness.Event) :
  Readiness.consistent env n t0 s ->
  Readiness.consistent env n t0 (Readiness.step env s e).
Proof.
  intros [Ht H].
  assert (Hres : forall i, Readiness.consistent env n t0 (Readiness.resolve env i s)).
  { intros i. unfold Readiness.resolve.
    destruct (existsb (Nat.eqb i) (Readiness.pending s)) eqn:Ei; [|now split].
    destruct n as [|n].
    - destruct H as (Hp & _). rewrite Hp in Ei. discriminate.
    - destruct (Readiness.pending s) as [|j l] eqn:Ep; [discriminate|].
      destruct H as (Hl & Htm & Hs).
      destruct (filter _ (j :: l)) as [|j' l'] eqn:Ef.
      + destruct (Readiness.completionThrows env) eqn:Ec;
          (split; [exact Ht|]); cbn [Readiness.pending Readiness.settledAt
            Readiness.now Readiness.isLoading Readiness.timers];
          exists (Readiness.now s); (split; [reflexivity|]);
          (split; [exact Ht|]); (split; [lia|]); intros Hc; [congruence|].
        split.
        * rewrite Htm. simpl. constructor; [reflexivity|constructor].
        * rewrite Hl. discriminate.
      + split; [exact Ht|]. cbn [Readiness.pending Readiness.settledAt
            Readiness.now Readiness.isLoading Readiness.timers].
        now repeat split. }
  destruct e as [i|i|ms|]; cbn [Readiness.step]; try apply Hres.
  - split; [simpl; lia|]. cbn [Readiness.pending Readiness.settledAt
      Readiness.now Readiness.isLoading Readiness.timers].
    destruct n as [|n].
    + destruct H as (Hp & Hs & Htm & Hl). repeat split; auto.
      intros Hf. specialize (Hl Hf). lia.
    + destruct (Readiness.pending s); [|exact H].
      destruct H as (t & Hs & Ht0 & Htn & Hc). exists t.
      repeat split; try assumption; try lia.
      * now apply Hc.
      * intros Hf. destruct (Hc H) as [_ Hl]. specialize (Hl Hf). lia.
  - destruct (Readiness.fire (Readiness.now s) (Readiness.timers s)) as [rest|] eqn:Ef;
      [|now split].
    destruct (fire_due _ _ _ Ef) as [(due & Hin & Hdue) Hsub].
    split; [exact Ht|]. cbn [Readiness.pending Readiness.settledAt
      Readiness.now Readiness.isLoading Readiness.timers].
    destruct n as [|n].
    + destruct H as (Hp & Hs & Htm & Hl). repeat split; auto.
      * apply Forall_forall. intros x Hx.
        apply (proj1 (Forall_forall _ _) Htm). now apply Hsub.
      * intros _. rewrite (proj1 (Forall_forall _ _) Htm due Hin) in Hdue. exact Hdue.
    + destruct (Readiness.pending s) as [|j l].
      * destruct H as (t & Hs & Ht0 & Htn & Hc). exists t.
        repeat split; try assumption.
        -- destruct (Hc H) as [Htm _]. apply Forall_forall. intros x Hx.
           apply (proj1 (Forall_forall _ _) Htm). now apply Hsub.
        -- intros _. destruct (Hc H) as [Htm _].
           rewrite (proj1 (Forall_forall _ _) Htm due Hin) in Hdue. exact Hdue.
      * destruct H as (_ & Htm & _). rewrite Htm in Hin. contradiction.
Qed.

Lemma consistent_run (env : Readiness.Env) (n t0 : nat) (events : list Readiness.Event) :
  Readiness.consistent env n t0 (Readiness.run env (Readiness.afterEffect n t0) events).
Proof.
  unfold Readiness.run.
  apply (fold_left_invariant (Readiness.consistent env n t0)).
  - apply consistent_afterEffect.
  - intros s e. apply consistent_step.
Qed.














(** The state the routine leaves behind when the loop over the scripts
    came to its end: its last operation awaits the promises when there
    are some and starts the timer of 100 ms when there are none. *)
Lemma routine_ends_with_signal (P : Effect.Platform) (st : Effect.State)
      (d : Effect.Document) (bodyForest : list Node) :
  let '(_, opsE, n, ok) := Effect.scriptInjection P st d bodyForest in
  ok = true ->
  exists ops,
    opsE = (ops ++ [if Nat.eqb n 0 then Effect.SetTimeout 100
                    else Effect.AwaitScripts n])%list.
Proof.
  pose proof (scriptInjection_ops P st d bodyForest) as H.
  destruct (Effect.scriptInjection P st d bodyForest) as [[[st' opsE] n] ok].
  intros ->. destruct H as (ops & _ & E). now exists ops.
Qed.

(* ===================================================================== *)
(** * Further properties *)
(* ===================================================================== *)

(** ** The regular expression matcher *)

Lemma all_chars_take (p : ascii -> bool) (n : nat) (s : string) :
  all_chars p s = true -> all_chars p (take n s) = true.
Proof.
  revert s; induction n as [|n IH]; intros [|c t] H; simpl; auto.
  simpl in H. apply andb_true_iff in H as [Hc H]. rewrite Hc. now apply IH.
Qed.

Lemma rmatch_chars (ci : bool) (p : ascii -> bool) (r : regex) :
  forall st k res,
    charsOk p st -> rmatch ci r st k = Some res ->
    exists st', charsOk p st' /\ k st' = Some res.
Proof.
  induction r as [|c|neg q|r1 IH1 r2 IH2|r1 IH1 r2 IH2|r1 IH1|i r1 IH1| | |];
    intros st k res Hok H; cbn [rmatch] in H.
  - eauto.
  - destruct st as [pv [|a t] cs]; cbn in H; [discriminate|].
    destruct (chr_eq ci a c); [|discriminate].
    eexists; split; [|exact H]. destruct Hok as [Hr Hc]. simpl in *.
    apply andb_true_iff in Hr as [_ Hr]. now split.
  - destruct st as [pv [|a t] cs]; cbn in H; [discriminate|].
    destruct (xorb neg (cls_mem ci q a)); [|discriminate].
    eexists; split; [|exact H]. destruct Hok as [Hr Hc]. simpl in *.
    apply andb_true_iff in Hr as [_ Hr]. now split.
  - destruct (IH1 _ _ _ Hok H) as (st1 & Hok1 & H1).
    exact (IH2 _ _ _ Hok1 H1).
  - destruct (rmatch ci r1 st k) as [x|] eqn:E.
    + injection H as <-. exact (IH1 _ _ _ Hok E).
    + exact (IH2 _ _ _ Hok H).
  - remember (String.length (rest st)) as n eqn:En. clear En.
    revert st Hok H. induction n as [|n IHn]; intros st Hok H.
    + eauto.
    + match type of H with
      | match ?m with _ => _ end = _ => destruct m as [x|] eqn:E
      end.
      * injection H as <-. destruct (IH1 _ _ _ Hok E) as (st1 & Hok1 & H1).
        destruct (Nat.ltb _ _); [|discriminate]. exact (IHn st1 Hok1 H1).
      * eauto.
  - destruct (IH1 _ _ _ Hok H) as (st1 & Hok1 & H1).
    eexists; split; [|exact H1]. destruct Hok as [Hr Hc], Hok1 as [Hr1 Hc1].
    split; [exact Hr1|]. simpl. constructor; [|exact Hc1].
    simpl. unfold consumed. now apply all_chars_take.
  - destruct (prev st); [discriminate|eauto].
  - destruct (rest st); [eauto|discriminate].
  - destruct (xorb _ _); [eauto|discriminate].
Qed.

Lemma matchHere_chars (ci : bool) (p : ascii -> bool) (r : regex)
      (pv : option ascii) (s m : string) (cs : list (nat * string)) :
  all_chars p s = true -> matchHere ci r pv s = Some (m, cs) ->
  all_chars p m = true /\ Forall (fun ic => all_chars p (snd ic) = true) cs.
Proof.
  intros Hs H. unfold matchHere in H.
  destruct (rmatch ci r (mkState pv s []) Some) as [st'|] eqn:E; [|discriminate].
  injection H as <- <-.
  assert (Hok : charsOk p (mkState pv s [])) by (split; [exact Hs | constructor]).
  destruct (rmatch_chars ci p r _ _ _ Hok E) as (st1 & [Hr Hc] & [= ->]).
  split; [|exact Hc]. unfold consumed. now apply all_chars_take.
Qed.

Lemma cap_chars (p : ascii -> bool) (i : nat) (cs : list (nat * string)) :
  Forall (fun ic => all_chars p (snd ic) = true) cs ->
  all_chars p (cap i cs) = true.
Proof.
  induction 1 as [|[j s] cs Hs _ IH]; simpl; [reflexivity|].
  now destruct (Nat.eqb i j).
Qed.

Lemma searchFrom_chars (ci : bool) (p : ascii -> bool) (r : regex) (s : string) :
  forall pv b m cs a,
    all_chars p s = true -> searchFrom ci r pv s = Some (b, m, cs, a) ->
    all_chars p b = true /\ all_chars p a = true /\
    Forall (fun ic => all_chars p (snd ic) = true) cs.
Proof.
  induction s as [|c t IH]; intros pv b m cs a Hs H; cbn [searchFrom] in H.
  - destruct (matchHere ci r pv "") as [[m' cs']|] eqn:E; [|discriminate].
    injection H as <- <- <- <-.
    destruct (matchHere_chars _ _ _ _ _ _ _ Hs E) as [_ Hc].
    repeat split; auto. now apply all_chars_drop.
  - destruct (matchHere ci r pv (String c t)) as [[m' cs']|] eqn:E.
    + injection H as <- <- <- <-.
      destruct (matchHere_chars _ _ _ _ _ _ _ Hs E) as [_ Hc].
      repeat split; auto. now apply all_chars_drop.
    + destruct (searchFrom ci r (Some c) t) as [[[[b' m'] cs'] a']|] eqn:E2;
        [|discriminate].
      injection H as <- <- <- <-.
      simpl in Hs. apply andb_true_iff in Hs as [Hc Ht].
      destruct (IH _ _ _ _ _ Ht E2) as (Hb & Ha & Hcs).
      repeat split; auto. simpl. now rewrite Hc.
Qed.

Lemma replaceFirstWith_chars (ci : bool) (p : ascii -> bool) (r : regex)
      (i : nat) (s : string) :
  all_chars p s = true ->
  all_chars p (replaceFirstWith ci r (fun _ cs => cap i cs) s) = true.
Proof.
  intros Hs. unfold replaceFirstWith, Regex.search.
  destruct (searchFrom ci r None s) as [[[[b m] cs] a]|] eqn:E; [|exact Hs].
  destruct (searchFrom_chars _ _ _ _ _ _ _ _ _ Hs E) as (Hb & Ha & Hcs).
  apply all_chars_app; [exact Hb|].
  apply all_chars_app; [now apply cap_chars|exact Ha].
Qed.

(** ** Asset file names *)

Lemma flat_replaceChar (s : string) :
  all_chars (fun c => negb (Ascii.eqb c "/")) (replaceChar "/" "_" s) = true.
Proof.
  induction s as [|c t IH]; simpl; [reflexivity|].
  rewrite IH, andb_true_r. destruct (Ascii.eqb c "/") eqn:E; [reflexivity|].
  now rewrite E.
Qed.

Lemma flat_beforeFirst (s : string) :
  all_chars (fun c => negb (Ascii.eqb c "/")) s = true ->
  all_chars flatChar (beforeFirst "?" s) = true.
Proof.
  induction s as [|c t IH]; simpl; [reflexivity|].
  intros H. apply andb_true_iff in H as [Hc Ht].
  destruct (Ascii.eqb c "?") eqn:E; [reflexivity|]. simpl.
  unfold flatChar at 1. rewrite Hc, E. simpl. now apply IH.
Qed.

Lemma codeAssetName_flat (u : URL) :
  all_chars flatChar (codeAssetName u) = true.
Proof. unfold codeAssetName. apply flat_beforeFirst, flat_replaceChar. Qed.

Lemma orNull_Some (s f : string) :
  orNull s = Some f -> f = s /\ s <> EmptyString.
Proof.
  unfold orNull, truthy. destruct s; [discriminate|].
  intros [= <-]. split; [reflexivity|discriminate].
Qed.

(** The name is not always that of a file: on a URL with an opaque path
    the path comes back as it is written. *)
Example asset_name_dots :
  getAssetFilename Url.reference "x:..?alluredigital.net" = Some ".." /\
  fixAssetUrl Url.reference "x:..?alluredigital.net" = "/assets/..".
Proof. split; vm_compute; reflexivity. Qed.

(** X1. Whatever URL object the constructor builds, a file name
    answered by [getAssetFilename] is not empty and holds neither a slash
    nor a question mark. (Nothing more: the name can be [..], as
    [asset_name_dots] shows.) *)
Theorem getAssetFilename_flat (newURL : Url.constructor) (url f : string) :
  getAssetFilename newURL url = Some f ->
  f <> EmptyString /\ all_chars flatChar f = true.
Proof.
  rewrite getAssetFilename_codeRule. unfold codeRule, ruleWith.
  destruct (newURL url (Some siteBase)) as [u|]; [|discriminate].
  destruct (pathParts u); [discriminate|].
  intros H. apply orNull_Some in H as [-> Hne].
  split; [exact Hne|apply codeAssetName_flat].
Qed.

Lemma getAssetFilename_flat_witness :
  getAssetFilename Url.reference
    "https://www.alluredigital.net/wp-content/uploads/2021/a.png?v=1"
  = Some "alluredigital.net_wp-content_uploads_2021_a.png" /\
  "alluredigital.net_wp-content_uploads_2021_a.png" <> EmptyString /\
  all_chars flatChar "alluredigital.net_wp-content_uploads_2021_a.png" = true.
Proof.
  split; [vm_compute; reflexivity|].
  exact (getAssetFilename_flat Url.reference
           "https://www.alluredigital.net/wp-content/uploads/2021/a.png?v=1"
           "alluredigital.net_wp-content_uploads_2021_a.png"
           ltac:(vm_compute; reflexivity)).
Defined.

Lemma assetPath_flat (newURL : Url.constructor) (url r : string) :
  assetPath (getAssetFilename newURL url) = Some r ->
  exists t, r = "/assets/" ++ t /\ all_chars flatChar t = true.
Proof.
  unfold assetPath. rewrite getAssetFilename_codeRule. unfold codeRule, ruleWith.
  destruct (newURL url (Some siteBase)) as [u|]; [|discriminate].
  destruct (pathParts u); [discriminate|].
  destruct (orNull (codeAssetName u)) as [f|] eqn:E; [|discriminate].
  apply orNull_Some in E as [-> _].
  destruct (truthy (codeAssetName u)); [|discriminate]. intros [= <-].
  eexists; split; [reflexivity|].
  apply replaceFirstWith_chars, codeAssetName_flat.
Qed.

(** X2. [fixAssetUrl] either hands its argument back or answers
    [/assets/] followed by a text without slash and without question
    mark, the size suffix removed or not. (Nothing more: the text can be
    [..], as [asset_name_dots] shows.) *)
Theorem fixAssetUrl_flat (newURL : Url.constructor) (u : string) :
  fixAssetUrl newURL u = u \/
  exists t, fixAssetUrl newURL u = "/assets/" ++ t /\
            all_chars flatChar t = true.
Proof.
  unfold fixAssetUrl.
  destruct (negb (truthy u) || startsWith u "data:" || startsWith u "/assets/");
    [now left|].
  match goal with |- context [match ?a with Some _ => _ | None => _ end] =>
    destruct a as [r|] eqn:E1 end.
  - right. destruct (includes u "alluredigital.net" || startsWith u "http");
      [|discriminate]. now apply assetPath_flat in E1.
  - match goal with |- context [match ?a with Some _ => _ | None => _ end] =>
      destruct a as [r|] eqn:E2 end; [|now left].
    right. destruct (includes u "rimalweb.net" || includes u "Rimalweb.net");
      [|discriminate]. now apply assetPath_flat in E2.
Qed.

(** ** Attributes *)

Lemma getAttribute_removeAttribute_other (k k' : string) (a : Attrs) :
  k <> k' -> getAttribute k (removeAttribute k' a) = getAttribute k a.
Proof.
  intros Hk. induction a as [|[k0 v0] a IH]; simpl; [reflexivity|].
  destruct (String.eqb k0 k') eqn:E; simpl.
  - apply String.eqb_eq in E. subst k0.
    destruct (String.eqb k' k) eqn:E2; [|reflexivity].
    apply String.eqb_eq in E2. congruence.
  - now rewrite IH.
Qed.

Lemma getAttribute_absent (k : string) (a : Attrs) :
  ~ In k (map fst a) -> getAttribute k a = None.
Proof.
  induction a as [|[k0 v0] a IH]; simpl; [reflexivity|]. intros H.
  destruct (String.eqb k0 k) eqn:E.
  - apply String.eqb_eq in E. tauto.
  - apply IH. tauto.
Qed.

Lemma getAttribute_removeAttribute (k : string) (a : Attrs) :
  NoDup (map fst a) -> getAttribute k (removeAttribute k a) = None.
Proof.
  induction a as [|[k0 v0] a IH]; simpl; [reflexivity|]. intros H.
  inversion H as [|x l Hx Hl]; subst.
  destruct (String.eqb k0 k) eqn:E; simpl.
  - apply String.eqb_eq in E. subst k0. now apply getAttribute_absent.
  - rewrite E. now apply IH.
Qed.

Lemma filter_setAttribute (q : string * string -> bool) (k v : string) (a : Attrs) :
  (forall w, q (k, w) = false) ->
  filter q (setAttribute k v a) = filter q a.
Proof.
  intros Hq. induction a as [|[k0 v0] a IH]; simpl.
  - now rewrite Hq.
  - destruct (String.eqb k0 k) eqn:E; simpl.
    + apply String.eqb_eq in E. subst k0. now rewrite !Hq.
    + now rewrite IH.
Qed.

Lemma filter_removeAttribute (q : string * string -> bool) (k : string) (a : Attrs) :
  (forall w, q (k, w) = false) ->
  filter q (removeAttribute k a) = filter q a.
Proof.
  intros Hq. induction a as [|[k0 v0] a IH]; simpl; [reflexivity|].
  destruct (String.eqb k0 k) eqn:E; simpl.
  - apply String.eqb_eq in E. subst k0. now rewrite Hq.
  - now rewrite IH.
Qed.

(** ** Links *)

Lemma includes_truthy (s p : string) :
  p <> EmptyString -> includes s p = true -> truthy s = true.
Proof.
  destruct s; [|reflexivity]. destruct p; [congruence|]. discriminate.
Qed.

(** X3. An anchor whose [href] names the site and is neither a [tel:]
    nor a [mailto:] link, and which the URL constructor parses into a
    path that starts with a slash, gets that path for its [href], one
    trailing slash removed; the table of routes changes nothing, and no
    other attribute of the anchor is touched. *)
Theorem fixAnchor_internal_path (newURL : Url.constructor) (attrs : Attrs)
        (href : string) (u : URL) (t : string) :
  getAttribute "href" attrs = Some href ->
  startsWith href "tel:" || startsWith href "mailto:" = false ->
  includes href "alluredigital.net" = true ->
  newURL href None = Some u ->
  pathname u = String "/" t ->
  getAttribute "href" (fixAnchor newURL attrs) = Some (specPath (pathname u)) /\
  forall k, k <> "href" ->
    getAttribute k (fixAnchor newURL attrs) = getAttribute k attrs.
Proof.
  intros Hh Hc Hi Hu Hp.
  assert (E : fixAnchor newURL attrs
              = setAttribute "href" (specPath (pathname u)) attrs).
  { unfold fixAnchor. rewrite Hh, Hc, Hi.
    rewrite (includes_truthy href "alluredigital.net") by (discriminate || exact Hi).
    cbn [andb orb]. unfold internalHref. rewrite Hu.
    now rewrite (routeFor_path u t Hp). }
  rewrite E. split.
  - apply getAttribute_setAttribute.
  - intros k Hk. now apply getAttribute_setAttribute_other.
Qed.

Lemma fixAnchor_internal_path_witness :
  getAttribute "href"
    (fixAnchor Url.reference
       [("class", "btn"); ("href", "https://alluredigital.net/who-we-are/")])
  = Some "/who-we-are".
Proof.
  exact (proj1 (fixAnchor_internal_path Url.reference
           [("class", "btn"); ("href", "https://alluredigital.net/who-we-are/")]
           "https://alluredigital.net/who-we-are/"
           (mkURL "https:" "alluredigital.net" "/who-we-are/" "" "")
           "who-we-are/"
           eq_refl eq_refl eq_refl ltac:(vm_compute; reflexivity) eq_refl)).
Defined.

(** X4. An anchor with a [tel:] or [mailto:] link loses its [href]
    and gets the two declarations that make it inert at the end of its
    [style]; it is then no longer an [a[href]], and a second turn of the
    loop leaves it as it is. *)
Theorem fixAnchor_contact_inert (newURL : Url.constructor) (attrs : Attrs)
        (href : string) :
  NoDup (map fst attrs) ->
  getAttribute "href" attrs = Some href ->
  startsWith href "tel:" || startsWith href "mailto:" = true ->
  getAttribute "href" (fixAnchor newURL attrs) = None /\
  getAttribute "style" (fixAnchor newURL attrs)
  = Some (trim (attrOr "style" attrs ""
                ++ " pointer-events: none; cursor: default;")) /\
  fixAnchor newURL (fixAnchor newURL attrs) = fixAnchor newURL attrs.
Proof.
  intros Hn Hh Hs.
  assert (Hg : getAttribute "href" (fixAnchor newURL attrs) = None).
  { rewrite (fixAnchor_contact newURL attrs href Hh Hs).
    rewrite getAttribute_setAttribute_other by discriminate.
    now apply getAttribute_removeAttribute. }
  split; [exact Hg|]. split.
  - rewrite (fixAnchor_contact newURL attrs href Hh Hs).
    rewrite getAttribute_setAttribute. unfold attrOr.
    now rewrite getAttribute_removeAttribute_other by discriminate.
  - unfold fixAnchor at 1. now rewrite Hg.
Qed.

Lemma fixAnchor_contact_inert_witness :
  getAttribute "href"
    (fixAnchor Url.reference
       [("href", "tel:(212) 301-7615"); ("style", "color: red;")]) = None /\
  getAttribute "style"
    (fixAnchor Url.reference
       [("href", "tel:(212) 301-7615"); ("style", "color: red;")])
  = Some "color: red; pointer-events: none; cursor: default;".
Proof.
  pose proof (fixAnchor_contact_inert Url.reference
                [("href", "tel:(212) 301-7615"); ("style", "color: red;")]
                "tel:(212) 301-7615") as H.
  assert (Hn : NoDup (map fst [("href", "tel:(212) 301-7615"); ("style", "color: red;")])).
  { simpl. constructor.
    - simpl. intros [E|[]]. discriminate.
    - constructor; [intros []|constructor]. }
  destruct (H Hn eq_refl eq_refl) as (H1 & H2 & _).
  split; [exact H1|exact H2].
Defined.

Lemma fixAnchor_filter (newURL : Url.constructor) (a : Attrs) :
  filter (fun kv => negb (linkWritten kv)) (fixAnchor newURL a)
  = filter (fun kv => negb (linkWritten kv)) a.
Proof.
  unfold fixAnchor.
  destruct (getAttribute "href" a) as [href|]; [|reflexivity].
  destruct (truthy href && (startsWith href "tel:" || startsWith href "mailto:")).
  - rewrite filter_setAttribute by reflexivity.
    now rewrite filter_removeAttribute by reflexivity.
  - destruct (truthy href && includes href "alluredigital.net"); [|reflexivity].
    destruct (internalHref newURL href); [|reflexivity].
    now rewrite filter_setAttribute by reflexivity.
Qed.

(** X5. The loop over the anchors writes nothing but the [href] and
    the [style] of [A] elements: with these two attributes of the anchors
    left out, the tree after the loop is the tree before it, and the text
    of the tree is unchanged. *)
Theorem fixAnchors_only_links (newURL : Url.constructor) (n : Node) :
  forgetLinks (fixAnchors newURL n) = forgetLinks n /\
  textContent (fixAnchors newURL n) = textContent n.
Proof.
  induction n as [t a c IH|d|d] using Node_forall_ind; [|now split..].
  assert (Hc : map forgetLinks (map (fixAnchors newURL) c) = map forgetLinks c).
  { induction IH as [|x l [Hx _] _ IHl]; simpl; [reflexivity|].
    now rewrite Hx, IHl. }
  assert (Ht : map (fun k => match k with
                             | Comment _ => EmptyString
                             | _ => textContent k end)
                   (map (fixAnchors newURL) c)
               = map (fun k => match k with
                               | Comment _ => EmptyString
                               | _ => textContent k end) c).
  { clear Hc. induction IH as [|x l [_ Hx] _ IHl]; [reflexivity|].
    cbn [map]. rewrite IHl. f_equal.
    destruct x; [exact Hx|reflexivity..]. }
  split.
  - cbn [fixAnchors forgetLinks]. rewrite Hc.
    destruct (named "A" t); [|reflexivity].
    now rewrite fixAnchor_filter.
  - cbn [fixAnchors textContent]. now rewrite Ht.
Qed.

(** ** Contact information *)

(** X6. A text in which none of the ten patterns of the string pass
    matches goes through that pass unchanged. *)
Theorem removeFromString_clean (html : string) :
  existsb (fun r => test true r html) contactPatterns = false ->
  Contact.removeFromString html = html.
Proof.
  unfold contactPatterns. cbn [existsb]. intros H.
  rewrite orb_false_r in H.
  repeat (apply orb_false_iff in H as [?H H]).
  unfold Contact.removeFromString, Contact.remove.
  cbv zeta.
  rewrite (test_false_replaceAll _ _ _ _ H0), (test_false_replaceAll _ _ _ _ H1),
    (test_false_replaceAll _ _ _ _ H2), (test_false_replaceAll _ _ _ _ H3),
    (test_false_replaceAll _ _ _ _ H4), (test_false_replaceAll _ _ _ _ H5),
    (test_false_replaceAll _ _ _ _ H6), (test_false_replaceAll _ _ _ _ H7),
    (test_false_replaceAll _ _ _ _ H8).
  exact (test_false_replaceAll _ _ _ _ H).
Qed.

Lemma removeFromString_clean_witness :
  Contact.removeFromString "<p>Call 212 555 0100 or write to us at Kings Highway</p>"
  = "<p>Call 212 555 0100 or write to us at Kings Highway</p>".
Proof.
  apply removeFromString_clean. vm_compute. reflexivity.
Defined.

Lemma flat_map_textChildren {B : Type} (f : Node -> list B) (s : string) :
  (forall d, f (Text d) = []) -> flat_map f (textChildren s) = [].
Proof.
  intros H. unfold textChildren. destruct (truthy s); simpl; [|reflexivity].
  now rewrite H.
Qed.

Lemma flat_map_scrub {B : Type} (f : Node -> list B) (c : list Node) :
  Forall (fun n => f (Contact.scrub n) = f n) c ->
  flat_map f (map Contact.scrub c) = flat_map f c.
Proof.
  induction 1 as [|x l Hx _ IH]; simpl; [reflexivity|]. now rewrite Hx, IH.
Qed.

(** X7. The pass of [removeContactInfo] over the elements removes no
    element, changes no tag and no attribute, and touches no comment:
    the elements and the comments of the tree after the pass are those
    before it, in the same order; only text nodes change. *)
Theorem scrub_keeps_elements (n : Node) :
  elementsOf (Contact.scrub n) = elementsOf n /\
  commentsOf (Contact.scrub n) = commentsOf n.
Proof.
  induction n as [t a c IH|d|d] using Node_forall_ind; [|now split..].
  assert (He : flat_map elementsOf (map Contact.scrub c) = flat_map elementsOf c).
  { apply flat_map_scrub. eapply Forall_impl; [|exact IH]. now intros x [H _]. }
  assert (Hc : flat_map commentsOf (map Contact.scrub c) = flat_map commentsOf c).
  { apply flat_map_scrub. eapply Forall_impl; [|exact IH]. now intros x [_ H]. }
  cbn [Contact.scrub].
  destruct c as [|[t1 a1 c1|d1|d1] [|y l]];
    try (cbn [elementsOf commentsOf]; now rewrite He, Hc).
  match goal with |- context [if ?b then _ else _] => destruct b end;
    [|now split].
  cbn [elementsOf commentsOf].
  now rewrite !flat_map_textChildren by reflexivity.
Qed.

(** ** The [data-settings] values *)

Lemma replaceAll_char (c : ascii) (r s : string) :
  forall p, replaceAllFrom false (Chr c) (fun _ _ => r) p 0 s = substChar c r s.
Proof.
  induction s as [|a t IH]; intros p; [reflexivity|].
  cbn [replaceAllFrom substChar]. unfold matchHere. cbn [rmatch rest caps].
  unfold chr_eq. destruct (Ascii.eqb a c).
  - unfold consumed. cbn [rest String.length].
    replace (S (String.length t) - String.length t) with 1 by lia.
    cbn [take String.length]. now rewrite IH.
  - now rewrite IH.
Qed.

Lemma lit_char (c : ascii) (r s : string) :
  Settings.lit (String c EmptyString) r s = substChar c r s.
Proof. apply replaceAll_char. Qed.

Lemma all_chars_impl (p q : ascii -> bool) (s : string) :
  (forall a, p a = true -> q a = true) ->
  all_chars p s = true -> all_chars q s = true.
Proof.
  intros H. induction s as [|a t IH]; simpl; [reflexivity|].
  intros Hs. apply andb_true_iff in Hs as [Ha Ht]. now rewrite (H a Ha), IH.
Qed.

Lemma substChar_excludes (q : ascii -> bool) (c : ascii) (r s : string) :
  all_chars q s = true ->
  all_chars (fun a => q a && negb (Ascii.eqb a c)) r = true ->
  all_chars (fun a => q a && negb (Ascii.eqb a c)) (substChar c r s) = true.
Proof.
  intros Hs Hr. induction s as [|a t IH]; simpl; [reflexivity|].
  simpl in Hs. apply andb_true_iff in Hs as [Ha Ht].
  apply all_chars_app; [|now apply IH].
  destruct (Ascii.eqb a c) eqn:E; [exact Hr|]. simpl. now rewrite Ha, E.
Qed.

(** X8. The text that is written back into a [data-settings]
    attribute after the JSON was read holds no double quote, no single
    quote, no [<] and no [>], whatever the JSON text was: it cannot end
    the attribute value it is placed in. *)
Theorem encodeEntities_safe (fixedJson : string) :
  all_chars attrSafe (Settings.encodeEntities fixedJson) = true.
Proof.
  unfold Settings.encodeEntities.
  change dq with (String DQ EmptyString). rewrite !lit_char.
  set (s0 := substChar "&" "&amp;" fixedJson).
  assert (H0 : all_chars (fun _ => true) s0 = true).
  { clearbody s0. induction s0; simpl; auto. }
  pose proof (substChar_excludes _ DQ "&quot;" s0 H0 eq_refl) as H1.
  pose proof (substChar_excludes _ "'" "&#39;" _ H1 eq_refl) as H2.
  pose proof (substChar_excludes _ "<" "&lt;" _ H2 eq_refl) as H3.
  pose proof (substChar_excludes _ ">" "&gt;" _ H3 eq_refl) as H4.
  revert H4. apply all_chars_impl. intros a Ha.
  repeat (apply andb_true_iff in Ha as [Ha ?]).
  unfold attrSafe.
  repeat match goal with H : negb _ = true |- _ =>
    apply negb_true_iff in H; rewrite H; clear H end.
  reflexivity.
Qed.

Lemma each_skeleton (f : Json.Value -> Json.Value)
      (fields : list (string * Json.Value)) :
  Forall (fun kv => skeleton (f (snd kv)) = skeleton (snd kv)) fields ->
  (fix each (l : list (string * Json.Value)) : list (string * Json.Value) :=
     match l with
     | [] => []
     | (key, w) :: rest =>
         if String.eqb key "__proto__" then each rest
         else (key, skeleton w) :: each rest
     end)
    ((fix each (l : list (string * Json.Value)) : list (string * Json.Value) :=
        match l with
        | [] => []
        | (key, v) :: rest =>
            if String.eqb key "__proto__" then each rest
            else (key, f v) :: each rest
        end) fields)
  = (fix each (l : list (string * Json.Value)) : list (string * Json.Value) :=
       match l with
       | [] => []
       | (key, w) :: rest =>
           if String.eqb key "__proto__" then each rest
           else (key, skeleton w) :: each rest
       end) fields.
Proof.
  induction 1 as [|[k w] l Hw _ IH]; [reflexivity|].
  simpl. destruct (String.eqb k "__proto__") eqn:E.
  - exact IH.
  - simpl. rewrite E. simpl in Hw. rewrite Hw. f_equal. exact IH.
Qed.

(** X9. [fixUrlsInObject] changes the text of strings and nothing
    else: numbers, booleans and [null] stay, arrays keep their length and
    order, objects keep their keys in their order (but for the key
    [__proto__], which the assignment does not keep). *)
Theorem fixUrlsInObject_skeleton (newURL : Url.constructor) (obj : Json.Value) :
  skeleton (Settings.fixUrlsInObject newURL obj) = skeleton obj.
Proof.
  induction obj as [| | | |items IH|fields IH] using Value_forall_ind;
    try reflexivity.
  - cbn [Settings.fixUrlsInObject skeleton]. f_equal.
    induction IH as [|x l Hx _ IHl]; simpl; [reflexivity|]. now rewrite Hx, IHl.
  - cbn [Settings.fixUrlsInObject skeleton]. f_equal.
    now apply each_skeleton.
Qed.

Lemma get_set (k : string) (v : Json.Value) (fields : list (string * Json.Value)) :
  Json.get k (Json.set k v fields) = Some v.
Proof.
  unfold Json.get. induction fields as [|[k0 v0] l IH]; simpl.
  - now rewrite String.eqb_refl.
  - destruct (String.eqb k0 k) eqn:E; simpl; now rewrite E.
Qed.

Lemma get_set_other (k k' : string) (v : Json.Value)
      (fields : list (string * Json.Value)) :
  k <> k' -> Json.get k (Json.set k' v fields) = Json.get k fields.
Proof.
  unfold Json.get. intros Hk. induction fields as [|[k0 v0] l IH]; simpl.
  - apply String.eqb_neq in Hk. rewrite String.eqb_sym. now rewrite Hk.
  - destruct (String.eqb k0 k') eqn:E; simpl.
    + apply String.eqb_eq in E. subst k0.
      destruct (String.eqb k' k) eqn:E2; [|reflexivity].
      apply String.eqb_eq in E2. congruence.
    + now rewrite IH.
Qed.

(** X10. A parsed object whose background is a slide show with an
    array for its gallery comes back as a classic background: the gallery
    is the one banner image, [background_image] names the same banner,
    and every other key reads as before. *)
Theorem replaceSlideshow_classic (fields : list (string * Json.Value))
        (items : list Json.Value) :
  Json.get "background_background" fields = Some (Json.Str "slideshow") ->
  Json.get "background_slideshow_gallery" fields = Some (Json.Array items) ->
  exists fields',
    Settings.replaceSlideshow (Json.Object fields) = Some (Json.Object fields') /\
    Json.get "background_background" fields' = Some (Json.Str "classic") /\
    Json.get "background_slideshow_gallery" fields'
    = Some (Json.Array [Json.Object [("id", Json.Number "393");
                                     ("url", Json.Str Settings.aboutBanner)]]) /\
    Json.get "background_image" fields'
    = Some (Json.Object [("url", Json.Str Settings.aboutBanner)]) /\
    forall k, k <> "background_background" ->
              k <> "background_slideshow_gallery" ->
              k <> "background_image" ->
              Json.get k fields' = Json.get k fields.
Proof.
  intros Hb Hg. unfold Settings.replaceSlideshow. rewrite Hb, Hg.
  cbn [String.eqb Ascii.eqb Bool.eqb]. eexists. split; [reflexivity|].
  split; [|split; [|split]].
  - rewrite get_set_other by discriminate. apply get_set.
  - rewrite !get_set_other by discriminate. apply get_set.
  - apply get_set.
  - intros k H1 H2 H3. now rewrite !get_set_other by assumption.
Qed.

Lemma replaceSlideshow_classic_witness :
  exists fields',
    Settings.replaceSlideshow
      (Json.Object [("background_background", Json.Str "slideshow");
                    ("background_slideshow_gallery",
                     Json.Array [Json.Object [("id", Json.Number "7")]]);
                    ("speed", Json.Number "500")])
    = Some (Json.Object fields') /\
    Json.get "background_background" fields' = Some (Json.Str "classic") /\
    Json.get "speed" fields' = Some (Json.Number "500").
Proof.
  destruct (replaceSlideshow_classic
              [("background_background", Json.Str "slideshow");
               ("background_slideshow_gallery",
                Json.Array [Json.Object [("id", Json.Number "7")]]);
               ("speed", Json.Number "500")]
              [Json.Object [("id", Json.Number "7")]] eq_refl eq_refl)
    as (fields' & H1 & H2 & _ & _ & H5).
  exists fields'. split; [exact H1|]. split; [exact H2|].
  rewrite H5; [reflexivity|discriminate..].
Defined.

(** ** The routine run again *)

Lemma has_add (set : list string) (x : string) :
  Effect.has (Effect.add set x) x = true.
Proof.
  unfold Effect.add. destruct (Effect.has set x) eqn:E; [exact E|].
  unfold Effect.has. rewrite existsb_app. simpl.
  now rewrite String.eqb_refl, orb_true_r.
Qed.

Lemma has_add_mono (set : list string) (x y : string) :
  Effect.has set y = true -> Effect.has (Effect.add set x) y = true.
Proof.
  intros H. unfold Effect.add. destruct (Effect.has set x); [exact H|].
  unfold Effect.has in *. rewrite existsb_app. now rewrite H.
Qed.

Section RunAgain.

Variable P : Effect.Platform.

Lemma injectScript_grows (st st1 : Effect.State) (script : Node)
      (ops : list Effect.Op) (n : nat) (x : string) :
  Effect.injectScript P st script = Some (st1, ops, n) ->
  Effect.has (Effect.scriptsLoaded st) x = true ->
  Effect.has (Effect.scriptsLoaded st1) x = true.
Proof.
  intros E H. revert E. unfold Effect.injectScript.
  repeat match goal with
         | |- context [match ?b with _ => _ end] => destruct b
         end; intros [= <- <- <-] || intros [=];
    cbn [Effect.scriptsLoaded]; auto using has_add_mono.
Qed.

Lemma injectScript_skip (st st1 st2 : Effect.State) (script : Node)
      (ops : list Effect.Op) (n : nat) :
  Effect.injectScript P st script = Some (st1, ops, n) ->
  (forall x, Effect.has (Effect.scriptsLoaded st1) x = true ->
             Effect.has (Effect.scriptsLoaded st2) x = true) ->
  Effect.injectScript P st2 script = Some (st2, [], 0).
Proof.
  destruct script as [t a c|d|d]; [|reflexivity..].
  unfold Effect.injectScript.
  destruct (String.eqb t "SCRIPT" && hasAttribute "src" a).
  - destruct (Effect.externalApi (attrOr "src" a "")); [reflexivity|].
    destruct (Effect.has (Effect.scriptsLoaded st) (attrOr "src" a "")) eqn:Eh.
    + intros [= <- <- <-] H. now rewrite (H _ Eh).
    + destruct (includes (attrOr "src" a "") "alluredigital.net"
                || startsWith (attrOr "src" a "") "http").
      * destruct (Effect.assetFilename P (attrOr "src" a "")) as [f|];
          [destruct (truthy f)|];
          try (destruct (Effect.copyAttributes P true a _); [|discriminate]);
          intros [= <- <- <-] H; cbn [Effect.scriptsLoaded] in H;
          try (rewrite (H _ (has_add _ _)); reflexivity);
          now destruct (Effect.has (Effect.scriptsLoaded st2) (attrOr "src" a "")).
      * destruct (Effect.copyAttributes P true a _); [|discriminate].
        intros [= <- <- <-] H. cbn [Effect.scriptsLoaded] in H.
        now rewrite (H _ (has_add _ _)).
  - set (scriptText := textContent (Element t a c)).
    destruct (negb (truthy scriptText)); [reflexivity|].
    destruct (Effect.trackingText scriptText); [reflexivity|].
    remember (take 50 scriptText) as scriptId eqn:Eid. clear Eid.
    destruct (Effect.has (Effect.scriptsLoaded st) scriptId) eqn:Eh.
    + intros [= <- <- <-] H. now rewrite (H _ Eh).
    + destruct (Effect.copyAttributes P false a []); [|discriminate].
      intros [= <- <- <-] H. cbn [Effect.scriptsLoaded] in H.
      now rewrite (H _ (has_add _ _)).
Qed.

(** Whether a turn of the loop over the scripts throws depends on the
    state through the set of the scripts loaded only. *)
Lemma injectScript_throws_again (st st2 : Effect.State) (script : Node) :
  Effect.injectScript P st script = None ->
  Effect.scriptsLoaded st2 = Effect.scriptsLoaded st ->
  Effect.injectScript P st2 script = None.
Proof.
  destruct script as [t a c|d|d]; [|discriminate..].
  unfold Effect.injectScript. intros E Hs. rewrite Hs.
  revert E.
  repeat match goal with
         | |- context [match ?b with _ => _ end] => destruct b
         end; intros [=]; reflexivity.
Qed.

Lemma forEachScript_grows (scripts : list Node) :
  forall st x,
    Effect.has (Effect.scriptsLoaded st) x = true ->
    Effect.has (Effect.scriptsLoaded
                  (fst (fst (fst (Effect.forEachScript P st scripts))))) x
    = true.
Proof.
  induction scripts as [|s l IH]; intros st x H; [exact H|].
  cbn [Effect.forEachScript].
  destruct (Effect.injectScript P st s) as [[[st1 ops1] n1]|] eqn:E; [|exact H].
  pose proof (IH st1 x (injectScript_grows _ _ _ _ _ x E H)) as H2.
  destruct (Effect.forEachScript P st1 l) as [[[st2 ops2] n2] ok]. exact H2.
Qed.

(** The loop over the scripts, run again in a state that holds the
    scripts its first run left loaded, appends nothing and stops where
    the first run stopped. *)
Lemma forEachScript_again (scripts : list Node) :
  forall st st3,
    Effect.scriptsLoaded st3
    = Effect.scriptsLoaded (fst (fst (fst (Effect.forEachScript P st scripts)))) ->
    Effect.forEachScript P st3 scripts
    = (st3, [], 0, snd (Effect.forEachScript P st scripts)).
Proof.
  induction scripts as [|s l IH]; intros st st3 H; [reflexivity|].
  cbn [Effect.forEachScript] in *.
  destruct (Effect.injectScript P st s) as [[[st1 ops1] n1]|] eqn:E.
  - pose proof (forEachScript_grows l st1) as Hg.
    pose proof (IH st1 st3) as Hl.
    destruct (Effect.forEachScript P st1 l) as [[[st2 ops2] n2] ok].
    cbn [fst snd] in *.
    rewrite (injectScript_skip st st1 st3 s ops1 n1 E)
      by (intros x Hx; rewrite H; apply Hg, Hx).
    now rewrite (Hl H).
  - cbn [fst snd] in *. now rewrite (injectScript_throws_again st st3 s E H).
Qed.

Lemma injectStyle_scripts (st : Effect.State) (el : Node) :
  Effect.scriptsLoaded (fst (Effect.injectStyle P st el)) = Effect.scriptsLoaded st.
Proof.
  unfold Effect.injectStyle.
  repeat match goal with
         | |- context [match ?b with _ => _ end] => destruct b
         end; reflexivity.
Qed.

Lemma forEachStyle_scripts (els : list Node) :
  forall st,
    Effect.scriptsLoaded (fst (Effect.forEachStyle P st els)) = Effect.scriptsLoaded st.
Proof.
  induction els as [|el l IH]; intros st; [reflexivity|].
  cbn [Effect.forEachStyle].
  pose proof (injectStyle_scripts st el) as H1.
  destruct (Effect.injectStyle P st el) as [st1 ops1].
  pose proof (IH st1) as H2.
  destruct (Effect.forEachStyle P st1 l) as [st2 ops2].
  cbn [fst] in *. congruence.
Qed.

Lemma injectMeta_scripts (st st1 : Effect.State) (el : Node) (ops : list Effect.Op) :
  Effect.injectMeta P st el = Some (st1, ops) ->
  Effect.scriptsLoaded st1 = Effect.scriptsLoaded st.
Proof.
  unfold Effect.injectMeta.
  repeat match goal with
         | |- context [match ?b with _ => _ end] => destruct b
         end; intros [= <- <-] || intros [=]; reflexivity.
Qed.

(** Whether the query of the duplicate check throws does not depend on
    the state. *)
Lemma injectMeta_throws (st st' : Effect.State) (el : Node) :
  Effect.injectMeta P st el = None -> Effect.injectMeta P st' el = None.
Proof.
  unfold Effect.injectMeta, Effect.duplicateQuery.
  destruct el as [t a c|d|d]; try discriminate.
  destruct (String.eqb t "META").
  - destruct (Effect.plainName (Effect.metaKey a)).
    + now destruct (Effect.liveQuery st _).
    + destruct (Effect.metaSelector P (Effect.metaKey a)) as [found|]; [|reflexivity].
      now destruct (found _).
  - now destruct (Effect.liveQuery st _).
Qed.

Lemma forEachMeta_scripts (els : list Node) :
  forall st st',
    Effect.scriptsLoaded (fst (fst (Effect.forEachMeta P st els)))
    = Effect.scriptsLoaded st /\
    snd (Effect.forEachMeta P st els) = snd (Effect.forEachMeta P st' els).
Proof.
  induction els as [|el l IH]; intros st st'; [now split|].
  cbn [Effect.forEachMeta].
  destruct (Effect.injectMeta P st el) as [[st1 ops1]|] eqn:E1;
    destruct (Effect.injectMeta P st' el) as [[st1' ops1']|] eqn:E1'.
  - destruct (IH st1 st1') as [H1 H2].
    destruct (Effect.forEachMeta P st1 l) as [[st2 ops2] ok].
    destruct (Effect.forEachMeta P st1' l) as [[st2' ops2'] ok'].
    cbn [fst snd] in *. apply injectMeta_scripts in E1. split; congruence.
  - apply (injectMeta_throws st' st) in E1'. congruence.
  - apply (injectMeta_throws st st') in E1. congruence.
  - now split.
Qed.

Lemma headInjection_scripts (st st' : Effect.State) (h : Node) :
  Effect.scriptsLoaded (fst (fst (Effect.headInjection P st h)))
  = Effect.scriptsLoaded st /\
  snd (Effect.headInjection P st h) = snd (Effect.headInjection P st' h).
Proof.
  unfold Effect.headInjection.
  pose proof (forEachStyle_scripts (selectAll Effect.styleSelector (childrenOf h)) st) as H1.
  destruct (Effect.forEachStyle P st _) as [st1 ops1].
  destruct (Effect.forEachStyle P st' _) as [st1' ops1'].
  destruct (forEachMeta_scripts
              (selectAll (anyOf [byTag "META"; byTag "TITLE"]) (childrenOf h))
              st1 st1') as [H2 H3].
  destruct (Effect.forEachMeta P st1 _) as [[st2 ops2] ok].
  destruct (Effect.forEachMeta P st1' _) as [[st2' ops2'] ok'].
  cbn [fst snd] in *. split; congruence.
Qed.

(** The head injection of a second run: it leaves the scripts loaded as
    they are, and it throws exactly when that of the first run did. *)
Lemma headPhase_scripts (st st' : Effect.State) (d : Effect.Document) :
  Effect.scriptsLoaded
    (fst (fst match Effect.head d with
              | Some h => Effect.headInjection P st h
              | None => (st, [], true)
              end))
  = Effect.scriptsLoaded st /\
  snd match Effect.head d with
      | Some h => Effect.headInjection P st h
      | None => (st, [], true)
      end
  = snd match Effect.head d with
        | Some h => Effect.headInjection P st' h
        | None => (st', [], true)
        end.
Proof.
  destruct (Effect.head d) as [h|]; [apply headInjection_scripts | now split].
Qed.

End RunAgain.

(** X11. No script is injected twice. When the routine runs again on
    the same document, in the state its first run left behind, it appends
    no script and waits for none: its last phase is at most the timer of
    100 ms. *)
Theorem rewriteOnMount_scripts_once (P : Effect.Platform) (st : Effect.State)
        (d : Effect.Document) :
  let first := Effect.rewriteOnMount P st d in
  let second := Effect.rewriteOnMount P (Effect.final first) d in
  Effect.promises second = 0 /\
  (Effect.scriptOps second = [] \/
   Effect.scriptOps second = [Effect.SetTimeout 100]).
Proof.
  cbv zeta.
  assert (Hgen : forall st3,
             Effect.scriptsLoaded st3
             = Effect.scriptsLoaded (Effect.final (Effect.rewriteOnMount P st d)) ->
             Effect.promises (Effect.rewriteOnMount P st3 d) = 0 /\
             (Effect.scriptOps (Effect.rewriteOnMount P st3 d) = [] \/
              Effect.scriptOps (Effect.rewriteOnMount P st3 d) = [Effect.SetTimeout 100])).
  { intros st3. unfold Effect.rewriteOnMount.
    destruct (headPhase_scripts P st st3 d) as [Hs1 Hc1].
    destruct (headPhase_scripts P st3 st d) as [Hs3 _].
    destruct (match Effect.head d with
              | Some h => Effect.headInjection P st h
              | None => (st, [], true)
              end) as [[st1 opsA] done1].
    destruct (match Effect.head d with
              | Some h => Effect.headInjection P st3 h
              | None => (st3, [], true)
              end) as [[st4 opsA'] done3].
    cbn [fst snd] in *. subst done3.
    destruct done1; cbn [negb]; [|cbn; auto].
    destruct (Effect.body d) as [[t bodyAttrs forest| |]|]; try (cbn; auto; fail).
    destruct (Effect.copyBodyAttributes P bodyAttrs) as [opsC [|]];
      cbn [negb]; [|cbn; auto].
    destruct (Effect.cleanBody P d bodyAttrs forest) as [[forest' opsB] [cleaned|]];
      [|cbn; auto].
    unfold Effect.scriptInjection.
    pose proof (forEachScript_again P (Effect.allScripts d forest') st1 st4) as Hagain.
    destruct (Effect.forEachScript P st1 (Effect.allScripts d forest'))
      as [[[st2 opsE] n] ok].
    cbn [Effect.final fst snd] in *. intros H3.
    rewrite Hagain by congruence.
    cbn. destruct ok; auto. }
  apply Hgen. reflexivity.
Qed.

(** ** What is appended to the head *)




Lemma startsWith_assets_http (t : string) :
  startsWith ("/assets/" ++ t) "http" = false.
Proof. reflexivity. Qed.

(** *** The tags of the parsed body after the loops *)

Section TagsKept.

Variable q : string -> bool.




Hypothesis q_img : q "IMG" = false.
Hypothesis q_a : q "A" = false.

Variable P : Effect.Platform.





End TagsKept.




Section HeadAppends.

Variable P : Effect.Platform.







End HeadAppends.




(** ** The routine cut short *)







(** ** Route handlers on a missing file *)

(** X15. When the page file of a handler cannot be read, the handler
    throws; the one exception is the blog post of [page_0028.html], whose
    handler catches the failure and renders a line of text instead. *)
Theorem handlers_missing_file :
  forall h name, In (h, name) Routes.handlers ->
    forall cwd fs, fs (Routes.pagePath cwd name) = None ->
      h cwd fs
      = if String.eqb name "page_0028.html"
        then Some (Routes.ErrorDiv "Error loading page. Please check console.")
        else None.
Proof.
  intros h name Hin cwd fs Hfs. simpl in Hin.
  repeat (destruct Hin as [[= <- <-]|Hin];
          [unfold Routes.Home, Routes.TechnicalSEO, Routes.ShopifyDevelopment,
             Routes.ShopifyDevelopment', Routes.GoogleAdsManagement,
             Routes.SocialMediaManagement, Routes.SocialMediaManagement',
             Routes.WorkCase, Routes.WorkCase', Routes.ContactUs,
             Routes.Careers, Routes.CRMDevelopment, Routes.AppianDevelopment,
             Routes.LocalSEO, Routes.WordPressDevelopment, Routes.BlogPost,
             Routes.BlogPost', Routes.BlogPost'', Routes.Blog, Routes.readThen;
           now rewrite Hfs|]).
  contradiction.
Qed.

Lemma handlers_missing_file_witness :
  Routes.Home "/srv" (fun _ => None) = None /\
  Routes.BlogPost' "/srv" (fun _ => None)
  = Some (Routes.ErrorDiv "Error loading page. Please check console.").
Proof.
  split.
  - apply (handlers_missing_file Routes.Home "page_0004.html");
      [simpl; tauto | reflexivity].
  - apply (handlers_missing_file Routes.BlogPost' "page_0028.html");
      [simpl; tauto | reflexivity].
Defined.

(** ** The event loop *)

Lemma step_keeps_down (env : Readiness.Env) (s : Readiness.Loop) (e : Readiness.Event) :
  Readiness.isLoading s = false -> Readiness.isLoading (Readiness.step env s e) = false.
Proof.
  intros H. destruct e as [i|i|ms|]; cbn [Readiness.step]; try exact H.
  - unfold Readiness.resolve.
    repeat match goal with
           | |- context [match ?b with _ => _ end] => destruct b
           end; cbn [Readiness.isLoading]; auto.
  - unfold Readiness.resolve.
    repeat match goal with
           | |- context [match ?b with _ => _ end] => destruct b
           end; cbn [Readiness.isLoading]; auto.
  - now destruct (Readiness.fire _ _).
Qed.

Lemma run_keeps_down (env : Readiness.Env) (events : list Readiness.Event) :
  forall s, Readiness.isLoading s = false ->
            Readiness.isLoading (Readiness.run env s events) = false.
Proof.
  induction events as [|e l IH]; intros s H; [exact H|].
  apply IH. now apply step_keeps_down.
Qed.

Lemma willSettle_resolve (env : Readiness.Env) (i : nat) (s : Readiness.Loop) :
  willSettle s -> willSettle (Readiness.resolve env i s).
Proof.
  intros H. unfold Readiness.resolve.
  destruct (existsb (Nat.eqb i) (Readiness.pending s)); [|exact H].
  destruct (filter (fun j => negb (Nat.eqb i j)) (Readiness.pending s)) as [|j l].
  - destruct (Readiness.completionThrows env); [now left|].
    destruct H as [H|[[_ H]|[_ H]]].
    + now left.
    + right. right. cbn [Readiness.timers Readiness.now]. rewrite H.
      split; [discriminate|]. repeat constructor.
    + right. right. cbn [Readiness.timers Readiness.now]. split.
      * now destruct (Readiness.timers s).
      * apply Forall_app. split; [exact H|]. repeat constructor.
  - destruct H as [H|[[_ H]|H]].
    + now left.
    + right. left. split; [discriminate|exact H].
    + right. right. exact H.
Qed.

Lemma willSettle_step (env : Readiness.Env) (s : Readiness.Loop) (e : Readiness.Event) :
  willSettle s -> willSettle (Readiness.step env s e).
Proof.
  intros H. destruct e as [i|i|ms|]; cbn [Readiness.step].
  - now apply willSettle_resolve.
  - now apply willSettle_resolve.
  - destruct H as [H|[H|[H1 H2]]]; [now left|right; now left|].
    right. right. cbn [Readiness.timers Readiness.now]. split; [exact H1|].
    eapply Forall_impl; [|exact H2]. cbn beta. intros due Hd. lia.
  - destruct (Readiness.fire _ _); [now left|exact H].
Qed.

Lemma willSettle_run (env : Readiness.Env) (events : list Readiness.Event) :
  forall s, willSettle s -> willSettle (Readiness.run env s events).
Proof.
  induction events as [|e l IH]; intros s H; [exact H|].
  apply IH. now apply willSettle_step.
Qed.

Lemma pending_resolve (env : Readiness.Env) (i j : nat) (s : Readiness.Loop) :
  In j (Readiness.pending (Readiness.resolve env i s)) ->
  In j (Readiness.pending s) /\ Nat.eqb j i = false.
Proof.
  unfold Readiness.resolve.
  destruct (existsb (Nat.eqb i) (Readiness.pending s)) eqn:E.
  - destruct (filter (fun k => negb (Nat.eqb i k)) (Readiness.pending s))
      as [|k l] eqn:Ef.
    + now destruct (Readiness.completionThrows env).
    + cbn [Readiness.pending]. rewrite <- Ef. intros H.
      apply filter_In in H as [H1 H2]. split; [exact H1|].
      apply negb_true_iff in H2. now rewrite Nat.eqb_sym.
  - intros H. split; [exact H|].
    destruct (Nat.eqb j i) eqn:Ej; [|reflexivity].
    apply Nat.eqb_eq in Ej. subst j.
    assert (existsb (Nat.eqb i) (Readiness.pending s) = true); [|congruence].
    apply existsb_exists. exists i. split; [exact H|apply Nat.eqb_refl].
Qed.

Lemma pending_run (env : Readiness.Env) (events : list Readiness.Event) (j : nat) :
  forall s, In j (Readiness.pending (Readiness.run env s events)) ->
            In j (Readiness.pending s) /\ fired j events = false.
Proof.
  induction events as [|e l IH]; intros s H; [now split|].
  apply IH in H as [H Hl]. unfold fired in *. cbn [existsb]. rewrite Hl.
  destruct e as [i|i|ms|]; cbn [Readiness.step] in H.
  - apply pending_resolve in H as [H ->]. now split.
  - apply pending_resolve in H as [H ->]. now split.
  - now split.
  - destruct (Readiness.fire _ _); now split.
Qed.

(** X16. Once every script the routine waits for has fired, whether
    its [load] or its [error] event, in whatever order and with whatever
    else happening in between, the overlay is down 300 ms later at the
    first turn of the timers, and no later event of the loop brings it
    back. *)
Theorem overlay_goes_and_stays (env : Readiness.Env) (n t0 : nat)
        (events later : list Readiness.Event) :
  (forall i, i < n -> fired i events = true) ->
  Readiness.isLoading
    (Readiness.run env (Readiness.afterEffect n t0)
       (events ++ Readiness.Elapse 300 :: Readiness.TimerFires :: later)) = false.
Proof.
  intros Hall. unfold Readiness.run. rewrite fold_left_app.
  fold (Readiness.run env (Readiness.afterEffect n t0) events).
  set (s := Readiness.run env (Readiness.afterEffect n t0) events).
  assert (Hp : Readiness.pending s = []).
  { destruct (Readiness.pending s) as [|j l] eqn:E; [reflexivity|].
    assert (Hj : In j (Readiness.pending s)) by (rewrite E; now left).
    apply pending_run in Hj as [Hj Hf].
    cbn [Readiness.afterEffect Readiness.pending] in Hj.
    apply in_seq in Hj. rewrite Hall in Hf by lia. discriminate. }
  assert (Hs : willSettle s).
  { apply willSettle_run. unfold willSettle, Readiness.afterEffect.
    cbn [Readiness.isLoading Readiness.pending Readiness.timers Readiness.now].
    destruct n as [|n]; cbn [Nat.eqb].
    - right. right. split; [discriminate|]. repeat constructor. lia.
    - right. left. split; [discriminate|reflexivity]. }
  cbn [fold_left].
  fold (Readiness.run env
          (Readiness.step env (Readiness.step env s (Readiness.Elapse 300))
                          Readiness.TimerFires) later).
  apply run_keeps_down. cbn [Readiness.step Readiness.now Readiness.timers].
  destruct Hs as [Hs|[[Hs _]|[Hs Hd]]].
  - now destruct (Readiness.fire _ _).
  - congruence.
  - destruct (Readiness.timers s) as [|due rest]; [congruence|].
    inversion Hd as [|? ? Hdue _]; subst. cbn [Readiness.fire].
    apply Nat.leb_le in Hdue. now rewrite Hdue.
Qed.

Lemma overlay_goes_and_stays_witness :
  Readiness.isLoading
    (Readiness.run (Readiness.mkEnv false) (Readiness.afterEffect 2 1000)
       ([Readiness.ScriptError 1; Readiness.Elapse 5; Readiness.TimerFires;
         Readiness.ScriptLoad 0]
        ++ Readiness.Elapse 300 :: Readiness.TimerFires
           :: [Readiness.ScriptLoad 1; Readiness.Elapse 9])) = false.
Proof.
  apply overlay_goes_and_stays.
  intros i Hi. destruct i as [|[|i]]; [reflexivity|reflexivity|lia].
Defined.

(** ** The duplicate check of the head injection *)

Lemma pathsOfNode_none (sel : Selector) (n : Node) :
  forall pre i, selectNode sel n = [] -> pathsOfNode sel pre i n = [].
Proof.
  induction n as [t a c IH|d|d] using Node_forall_ind; intros pre i H;
    [|reflexivity..].
  cbn [selectNode] in H. cbn [pathsOfNode].
  destruct (sel t a); [discriminate|]. cbn [app] in H.
  generalize 0 as k. revert H.
  induction IH as [|x l Hx _ IHl]; intros H k; [reflexivity|].
  cbn [flat_map] in H. apply app_eq_nil in H as [H1 H2].
  now rewrite (Hx _ _ H1), (IHl H2).
Qed.

Lemma pathsFrom_none (sel : Selector) (l : list Node) :
  forall pre k, selectAll sel l = [] -> pathsFrom sel pre k l = [].
Proof.
  unfold selectAll. induction l as [|x l IH]; intros pre k H; [reflexivity|].
  cbn [flat_map] in H. apply app_eq_nil in H as [H1 H2].
  cbn [pathsFrom]. now rewrite (pathsOfNode_none sel x pre k H1), IH.
Qed.

Lemma pathsOfNode_some (sel : Selector) (n : Node) :
  forall pre i, pathsOfNode sel pre i n = [] -> selectNode sel n = [].
Proof.
  induction n as [t a c IH|d|d] using Node_forall_ind; intros pre i H;
    [|reflexivity..].
  cbn [selectNode]. cbn [pathsOfNode] in H.
  destruct (sel t a); [discriminate|]. cbn [app].
  revert H. generalize 0 as k.
  induction IH as [|x l Hx _ IHl]; intros k H; [reflexivity|].
  apply app_eq_nil in H as [H1 H2]. cbn [flat_map].
  now rewrite (Hx _ _ H1), (IHl _ H2).
Qed.

Lemma pathsFrom_some (sel : Selector) (l : list Node) :
  forall pre k, pathsFrom sel pre k l = [] -> selectAll sel l = [].
Proof.
  unfold selectAll. induction l as [|x l IH]; intros pre k H; [reflexivity|].
  cbn [pathsFrom] in H. apply app_eq_nil in H as [H1 H2].
  cbn [flat_map]. now rewrite (pathsOfNode_some sel x pre k H1), (IH _ _ H2).
Qed.

Lemma liveQuery_false (st : Effect.State) (sel : Selector) :
  Effect.liveQuery st sel = false <->
  selectAll sel (Effect.liveHead st ++ Effect.liveOther st) = [].
Proof.
  unfold Effect.liveQuery, querySelectorAll. split.
  - destruct (pathsFrom sel [] 0 _) eqn:E; [|discriminate].
    intros _. now apply pathsFrom_some in E.
  - intros H. now rewrite pathsFrom_none.
Qed.

(** X17. The duplicate check for a [meta] asks for the [name]
    attribute only. A [meta] without [name], such as one that carries a
    [property], is therefore never found again: when the routine appends
    it, the same element is appended once more the next time it is
    met, and the live head then holds the copy twice. *)
Theorem property_meta_appended_again (P : Effect.Platform) (st : Effect.State)
        (a : Attrs) :
  getAttribute "name" a = None ->
  Effect.plainName (Effect.metaKey a) = true ->
  Effect.liveQuery st (metaNamed (Effect.metaKey a)) = false ->
  exists clone st1 st2,
    Effect.injectMeta P st (Element "META" a [])
    = Some (st1, [Effect.HeadAppend clone]) /\
    Effect.injectMeta P st1 (Element "META" a [])
    = Some (st2, [Effect.HeadAppend clone]) /\
    Effect.liveHead st2 = (Effect.liveHead st ++ [clone; clone])%list.
Proof.
  intros Hn Hp Hq.
  set (a' := match getAttribute "content" a with
             | Some content =>
                 if truthy content
                 then setAttribute "content" (Branding.brandMeta content) a
                 else a
             | None => a
             end).
  assert (Hn' : getAttribute "name" a' = None).
  { unfold a'. destruct (getAttribute "content" a) as [v|]; [|exact Hn].
    destruct (truthy v); [|exact Hn].
    now rewrite getAttribute_setAttribute_other by discriminate. }
  set (clone := Element "META" a' []).
  set (st1 := Effect.mkSt (Effect.stylesLoaded st) (Effect.scriptsLoaded st)
                          (Effect.liveHead st ++ [clone])%list
                          (Effect.liveOther st) (Effect.randoms st)).
  assert (Hq1 : Effect.liveQuery st1 (metaNamed (Effect.metaKey a)) = false).
  { apply liveQuery_false. apply liveQuery_false in Hq.
    unfold selectAll in *. cbn [Effect.liveHead Effect.liveOther st1].
    rewrite !flat_map_app in *. apply app_eq_nil in Hq as [Hh Ho].
    rewrite Hh, Ho. cbn [flat_map selectNode clone app].
    unfold metaNamed at 1. now rewrite Hn', andb_false_r. }
  exists clone, st1. eexists. split; [|split].
  - unfold Effect.injectMeta, Effect.duplicateQuery.
    cbn [String.eqb Ascii.eqb Bool.eqb andb].
    rewrite Hp. fold (metaNamed (Effect.metaKey a)). now rewrite Hq.
  - unfold Effect.injectMeta, Effect.duplicateQuery.
    cbn [String.eqb Ascii.eqb Bool.eqb andb].
    rewrite Hp. fold (metaNamed (Effect.metaKey a)). rewrite Hq1.
    reflexivity.
  - cbn [Effect.liveHead st1]. now rewrite <- app_assoc.
Qed.

Lemma property_meta_appended_again_witness :
  exists clone st1 st2,
    Effect.injectMeta Effect.referencePlatform Effect.freshState
      (Element "META" [("property", "og:title"); ("content", "Allure Digital")] [])
    = Some (st1, [Effect.HeadAppend clone]) /\
    Effect.injectMeta Effect.referencePlatform st1
      (Element "META" [("property", "og:title"); ("content", "Allure Digital")] [])
    = Some (st2, [Effect.HeadAppend clone]) /\
    Effect.liveHead st2 = [clone; clone].
Proof.
  exact (property_meta_appended_again Effect.referencePlatform Effect.freshState
           [("property", "og:title"); ("content", "Allure Digital")]
           eq_refl eq_refl eq_refl).
Defined.

Section StylesOnce.

Variable P : Effect.Platform.

Lemma injectStyle_grows (st : Effect.State) (el : Node) (x : string) :
  Effect.has (Effect.stylesLoaded st) x = true ->
  Effect.has (Effect.stylesLoaded (fst (Effect.injectStyle P st el))) x = true.
Proof.
  intros H. unfold Effect.injectStyle.
  repeat match goal with
         | |- context [match ?b with _ => _ end] => destruct b
         end; cbn [fst Effect.stylesLoaded]; auto using has_add_mono.
Qed.

Lemma injectStyle_skip (st st2 : Effect.State) (el : Node) :
  (forall x, Effect.has (Effect.stylesLoaded (fst (Effect.injectStyle P st el))) x = true ->
             Effect.has (Effect.stylesLoaded st2) x = true) ->
  forallb (fun o => negb (appendsTag "LINK" o)) (snd (Effect.injectStyle P st2 el)) = true.
Proof.
  destruct el as [t a c|d|d]; [|reflexivity..].
  unfold Effect.injectStyle.
  destruct (String.eqb t "LINK") eqn:Et.
  - apply String.eqb_eq in Et. subst t.
    destruct (Effect.has (Effect.stylesLoaded st) (attrOr "href" a "")) eqn:Eh.
    + cbn [fst]. intros H. now rewrite (H _ Eh).
    + destruct (Effect.externalFont (attrOr "href" a ""));
        [intros _;
         now destruct (Effect.has (Effect.stylesLoaded st2) (attrOr "href" a ""))|].
      destruct (includes (attrOr "href" a "") "alluredigital.net"
                || startsWith (attrOr "href" a "") "http").
      * destruct (Effect.assetFilename P (attrOr "href" a "")) as [f|];
          [destruct (truthy f)|];
          cbn [fst Effect.stylesLoaded]; intros H;
          try (rewrite (H _ (has_add _ _)); reflexivity);
          now destruct (Effect.has (Effect.stylesLoaded st2) (attrOr "href" a "")).
      * cbn [fst Effect.stylesLoaded]. intros H.
        now rewrite (H _ (has_add _ _)).
  - intros _.
    repeat match goal with
           | |- context [match ?b with _ => _ end] => destruct b
           end; try reflexivity; cbn in Et; discriminate.
Qed.

Lemma forEachStyle_grows (els : list Node) :
  forall st x,
    Effect.has (Effect.stylesLoaded st) x = true ->
    Effect.has (Effect.stylesLoaded (fst (Effect.forEachStyle P st els))) x = true.
Proof.
  induction els as [|el l IH]; intros st x H; [exact H|].
  cbn [Effect.forEachStyle].
  pose proof (injectStyle_grows st el x H) as H1.
  destruct (Effect.injectStyle P st el) as [st1 ops1].
  pose proof (IH st1 x H1) as H2.
  destruct (Effect.forEachStyle P st1 l) as [st2 ops2]. exact H2.
Qed.

Lemma forEachStyle_skip (els : list Node) :
  forall st st2,
    (forall x, Effect.has (Effect.stylesLoaded (fst (Effect.forEachStyle P st els))) x = true ->
               Effect.has (Effect.stylesLoaded st2) x = true) ->
    forallb (fun o => negb (appendsTag "LINK" o))
            (snd (Effect.forEachStyle P st2 els)) = true.
Proof.
  induction els as [|el l IH]; intros st st2 H; [reflexivity|].
  cbn [Effect.forEachStyle] in *.
  pose proof (injectStyle_skip st st2 el) as Hs.
  pose proof (injectStyle_grows st2 el) as Hg2.
  destruct (Effect.injectStyle P st el) as [st1 ops1].
  pose proof (forEachStyle_grows l st1) as Hg.
  pose proof (IH st1) as Hl.
  destruct (Effect.forEachStyle P st1 l) as [st3 ops3].
  destruct (Effect.injectStyle P st2 el) as [st2' ops2'].
  specialize (Hl st2').
  destruct (Effect.forEachStyle P st2' l) as [st4 ops4].
  cbn [fst snd] in *. rewrite forallb_app.
  rewrite Hs by (intros x Hx; apply H, Hg, Hx).
  now rewrite Hl by (intros x Hx; apply Hg2, H, Hx).
Qed.

Lemma injectScript_styles (st st1 : Effect.State) (script : Node)
      (ops : list Effect.Op) (n : nat) :
  Effect.injectScript P st script = Some (st1, ops, n) ->
  Effect.stylesLoaded st1 = Effect.stylesLoaded st.
Proof.
  unfold Effect.injectScript.
  repeat match goal with
         | |- context [match ?b with _ => _ end] => destruct b
         end; intros [= <- <- <-] || intros [=]; reflexivity.
Qed.

Lemma forEachScript_styles (scripts : list Node) :
  forall st,
    Effect.stylesLoaded (fst (fst (fst (Effect.forEachScript P st scripts))))
    = Effect.stylesLoaded st.
Proof.
  induction scripts as [|s l IH]; intros st; [reflexivity|].
  cbn [Effect.forEachScript].
  destruct (Effect.injectScript P st s) as [[[st1 ops1] n1]|] eqn:E; [|reflexivity].
  pose proof (IH st1) as H2.
  destruct (Effect.forEachScript P st1 l) as [[[st2 ops2] n2] ok].
  cbn [fst] in *. apply injectScript_styles in E. congruence.
Qed.

Lemma injectMeta_styles (st st1 : Effect.State) (el : Node) (ops : list Effect.Op) :
  Effect.injectMeta P st el = Some (st1, ops) ->
  Effect.stylesLoaded st1 = Effect.stylesLoaded st.
Proof.
  unfold Effect.injectMeta.
  repeat match goal with
         | |- context [match ?b with _ => _ end] => destruct b
         end; intros [= <- <-] || intros [=]; reflexivity.
Qed.

Lemma forEachMeta_styles (els : list Node) :
  forall st,
    Effect.stylesLoaded (fst (fst (Effect.forEachMeta P st els)))
    = Effect.stylesLoaded st.
Proof.
  induction els as [|el l IH]; intros st; [reflexivity|].
  cbn [Effect.forEachMeta].
  destruct (Effect.injectMeta P st el) as [[st1 ops1]|] eqn:E1; [|reflexivity].
  pose proof (IH st1) as H.
  destruct (Effect.forEachMeta P st1 l) as [[st2 ops2] ok].
  cbn [fst] in *. apply injectMeta_styles in E1. congruence.
Qed.

Lemma forEachMeta_no_link (els : list Node) :
  forall st,
    Forall (fun m => anyOf [byTag "META"; byTag "TITLE"] (tagOf m) (attrsOf m) = true
                     /\ isElement m = true) els ->
    forallb (fun o => negb (appendsTag "LINK" o))
            (snd (fst (Effect.forEachMeta P st els))) = true.
Proof.
  induction els as [|el l IH]; intros st Hsel; [reflexivity|].
  inversion Hsel as [|? ? [Hel _] Hrest]; subst.
  cbn [Effect.forEachMeta].
  destruct (Effect.injectMeta P st el) as [[st1 ops1]|] eqn:E; [|reflexivity].
  pose proof (IH st1 Hrest) as H2.
  destruct (Effect.forEachMeta P st1 l) as [[st2 ops2] ok].
  cbn [fst snd] in *. rewrite forallb_app, H2, andb_true_r.
  destruct el as [t a c|d|d]; [|now injection E as <- <-..].
  cbn [tagOf attrsOf] in Hel. unfold anyOf, byTag in Hel. cbn [existsb] in Hel.
  assert (Ht : String.eqb t "LINK" = false).
  { destruct (String.eqb t "LINK") eqn:E'; [|reflexivity].
    apply String.eqb_eq in E'. subst t. vm_compute in Hel. discriminate. }
  revert E. unfold Effect.injectMeta.
  destruct (Effect.duplicateQuery P st t a) as [[|]|];
    intros [= <- <-] || intros [=]; try reflexivity.
  cbn [forallb appendsTag]. now rewrite Ht.
Qed.

Lemma final_styles (st : Effect.State) (d : Effect.Document) (h : Node) (x : string) :
  Effect.head d = Some h ->
  Effect.has (Effect.stylesLoaded
                (fst (Effect.forEachStyle P st
                        (selectAll Effect.styleSelector (childrenOf h))))) x = true ->
  Effect.has (Effect.stylesLoaded (Effect.final (Effect.rewriteOnMount P st d))) x
  = true.
Proof.
  intros Eh H. unfold Effect.rewriteOnMount, Effect.headInjection. rewrite Eh.
  destruct (Effect.forEachStyle P st _) as [st1 ops1]. cbn [fst] in H.
  pose proof (forEachMeta_styles
                (selectAll (anyOf [byTag "META"; byTag "TITLE"]) (childrenOf h)) st1)
    as Hm.
  destruct (Effect.forEachMeta P st1 _) as [[st2 ops2] ok]. cbn [fst] in Hm.
  destruct ok; cbn [negb Effect.final]; [|now rewrite Hm].
  destruct (Effect.body d) as [[t bodyAttrs forest| |]|];
    cbn [Effect.final]; try (now rewrite Hm).
  destruct (Effect.copyBodyAttributes P bodyAttrs) as [opsC [|]];
    cbn [negb Effect.final]; [|now rewrite Hm].
  destruct (Effect.cleanBody P d bodyAttrs forest) as [[forest' opsB] [cleaned|]];
    cbn [Effect.final]; [|now rewrite Hm].
  unfold Effect.scriptInjection.
  pose proof (forEachScript_styles (Effect.allScripts d forest') st2) as Hs.
  destruct (Effect.forEachScript P st2 _) as [[[st3 opsE] n] ok].
  cbn [Effect.final fst] in *. now rewrite Hs, Hm.
Qed.

End StylesOnce.

(** X18. No style sheet link is injected twice. When the routine runs
    again on the same document, in the state its first run left behind,
    it appends no [link] to the head. *)
Theorem rewriteOnMount_links_once (P : Effect.Platform) (st : Effect.State)
        (d : Effect.Document) :
  let first := Effect.rewriteOnMount P st d in
  let second := Effect.rewriteOnMount P (Effect.final first) d in
  forallb (fun o => negb (appendsTag "LINK" o)) (Effect.headOps second) = true.
Proof.
  cbv zeta.
  set (stF := Effect.final (Effect.rewriteOnMount P st d)).
  assert (Hh : forallb (fun o => negb (appendsTag "LINK" o))
                 (snd (fst match Effect.head d with
                           | Some h => Effect.headInjection P stF h
                           | None => (stF, [], true)
                           end)) = true).
  { destruct (Effect.head d) as [h|] eqn:Eh; [|reflexivity].
    unfold Effect.headInjection.
    pose proof (forEachStyle_skip P (selectAll Effect.styleSelector (childrenOf h))
                  st stF (fun x => final_styles P st d h x Eh)) as H1.
    destruct (Effect.forEachStyle P stF _) as [st1 ops1].
    pose proof (forEachMeta_no_link P _ st1
                  (selectAll_sound (anyOf [byTag "META"; byTag "TITLE"])
                                   (childrenOf h))) as H2.
    destruct (Effect.forEachMeta P st1 _) as [[st2 ops2] ok].
    cbn [fst snd] in *. now rewrite forallb_app, H1, H2. }
  clearbody stF. unfold Effect.rewriteOnMount.
  destruct (match Effect.head d with
            | Some h => Effect.headInjection P stF h
            | None => (stF, [], true)
            end) as [[st1 opsA] headDone].
  cbn [fst snd] in Hh.
  destruct headDone; cbn [negb]; [|exact Hh].
  destruct (Effect.body d) as [[t bodyAttrs forest| |]|]; try exact Hh.
  destruct (Effect.copyBodyAttributes P bodyAttrs) as [opsC [|]]; [|exact Hh].
  cbn [negb].
  destruct (Effect.cleanBody P d bodyAttrs forest) as [[forest' opsB] [cleaned|]];
    [|exact Hh].
  destruct (Effect.scriptInjection P st1 d forest') as [[[st2 opsE] n] ok].
  exact Hh.
Qed.

(** ** The loops over the parsed body as maps over the tree *)

Lemma go_pathsFrom (sel : Selector) (pre : Path) (l : list Node) :
  forall k,
    (fix go (k : nat) (l : list Node) : list Path :=
       match l with
       | [] => []
       | x :: r => (pathsOfNode sel pre k x ++ go (S k) r)%list
       end) k l
    = pathsFrom sel pre k l.
Proof. induction l as [|x r IH]; intros k; simpl; [reflexivity|]. now rewrite IH. Qed.

Lemma pathsOfNode_element (sel : Selector) (pre : Path) (i : nat)
      (t : string) (a : Attrs) (c : list Node) :
  pathsOfNode sel pre i (Element t a c)
  = ((if sel t a then [rev (i :: pre)] else []) ++ pathsFrom sel (i :: pre) 0 c)%list.
Proof.
  cbn [pathsOfNode]. rewrite go_pathsFrom. now destruct (sel t a).
Qed.

Lemma pathsOfNode_prefix (sel : Selector) (n : Node) :
  forall pre i,
    pathsOfNode sel pre i n = map (app (rev pre)) (pathsOfNode sel [] i n).
Proof.
  induction n as [t a c IH|d|d] using Node_forall_ind; intros pre i;
    [|reflexivity..].
  rewrite !pathsOfNode_element, map_app. f_equal.
  - destruct (sel t a); [|reflexivity]. reflexivity.
  - generalize 0 as k.
    induction IH as [|x l Hx _ IHl]; intros k; [reflexivity|].
    cbn [pathsFrom]. rewrite !map_app, IHl. f_equal.
    rewrite (Hx (i :: pre) k), (Hx [i] k), map_map.
    apply map_ext. intros q. cbn [rev app]. now rewrite <- app_assoc.
Qed.

Lemma pathsFrom_prefix (sel : Selector) (l : list Node) :
  forall pre k,
    pathsFrom sel pre k l = map (app (rev pre)) (pathsFrom sel [] k l).
Proof.
  induction l as [|x r IH]; intros pre k; [reflexivity|].
  cbn [pathsFrom]. now rewrite map_app, <- IH, <- pathsOfNode_prefix.
Qed.

Lemma pathsOfNode_normal (sel : Selector) (i : nat)
      (t : string) (a : Attrs) (c : list Node) :
  pathsOfNode sel [] i (Element t a c)
  = ((if sel t a then [[i]] else []) ++ map (cons i) (pathsFrom sel [] 0 c))%list.
Proof. rewrite pathsOfNode_element. f_equal. apply pathsFrom_prefix. Qed.

Lemma pathsFrom_nonempty (sel : Selector) (l : list Node) :
  forall k, Forall (fun q => q <> []) (pathsFrom sel [] k l).
Proof.
  induction l as [|x r IH]; intros k; [constructor|].
  cbn [pathsFrom]. apply Forall_app. split; [|apply IH].
  destruct x as [t a c|d|d]; [|constructor..].
  rewrite pathsOfNode_normal. apply Forall_app. split.
  - destruct (sel t a); repeat constructor. discriminate.
  - apply Forall_forall. intros q Hq. apply in_map_iff in Hq as (q' & <- & _).
    discriminate.
Qed.

Lemma nth_error_middle {A : Type} (pfx : list A) (x : A) (r : list A) :
  nth_error (pfx ++ x :: r) (List.length pfx) = Some x.
Proof. induction pfx; simpl; auto. Qed.

Lemma replaceNth_middle (pfx : list Node) (x : Node) (r : list Node)
      (f : Node -> Node) :
  replaceNth (pfx ++ x :: r) (List.length pfx) f = (pfx ++ f x :: r)%list.
Proof. induction pfx as [|y pfx IH]; simpl; [reflexivity|]. now rewrite IH. Qed.

Lemma getAt_below (pfx : list Node) (t : string) (a : Attrs) (c r : list Node)
      (j : nat) (q : Path) :
  getAt (pfx ++ Element t a c :: r) (List.length pfx :: j :: q) = getAt c (j :: q).
Proof.
  change (getAt (pfx ++ Element t a c :: r) (List.length pfx :: j :: q))
    with (match nth_error (pfx ++ Element t a c :: r) (List.length pfx) with
          | Some (Element _ _ c') => getAt c' (j :: q)
          | _ => None
          end).
  now rewrite nth_error_middle.
Qed.

Lemma updateAt_below (pfx : list Node) (t : string) (a : Attrs) (c r : list Node)
      (j : nat) (q : Path) (g : Node -> Node) :
  updateAt (pfx ++ Element t a c :: r) (List.length pfx :: j :: q) g
  = (pfx ++ Element t a (updateAt c (j :: q) g) :: r)%list.
Proof.
  change (updateAt (pfx ++ Element t a c :: r) (List.length pfx :: j :: q) g)
    with (replaceNth (pfx ++ Element t a c :: r) (List.length pfx)
            (fun n => match n with
                      | Element t' a' c' => Element t' a' (updateAt c' (j :: q) g)
                      | other => other
                      end)).
  now rewrite replaceNth_middle.
Qed.

Section LoopsAsMaps.

Variable sel : Selector.
Variable changes : Attrs -> list Effect.Change.

Lemma forEachAttrs_turns (ps : list Path) :
  forall f ops,
    fst (fold_left
           (fun (acc : list Node * list Effect.Op) (p : Path) =>
              let (f, ops) := acc in
              match getAt f p with
              | Some (Element t a c) =>
                  let cs := changes a in
                  (updateAt f p (Effect.setAttrs (Effect.applyChanges cs a)),
                   (ops ++ map (Effect.ParsedBody p) cs)%list)
              | _ => acc
              end) ps (f, ops))
    = fold_left (turn changes) ps f.
Proof.
  induction ps as [|p ps IH]; intros f ops; [reflexivity|].
  cbn [fold_left]. unfold turn at 2.
  destruct (getAt f p) as [[t a c| |]|]; apply IH.
Qed.

Lemma turn_below (pfx : list Node) (t : string) (a : Attrs) (r : list Node)
      (qs : list Path) :
  Forall (fun q => q <> []) qs ->
  forall c,
    fold_left (turn changes) (map (cons (List.length pfx)) qs)
              (pfx ++ Element t a c :: r)%list
    = (pfx ++ Element t a (fold_left (turn changes) qs c) :: r)%list.
Proof.
  induction 1 as [|q qs Hq _ IH]; intros c; [reflexivity|].
  cbn [map fold_left]. rewrite <- IH. f_equal.
  destruct q as [|j q']; [congruence|].
  unfold turn. rewrite getAt_below.
  destruct (getAt c (j :: q')) as [[t' a' c'| |]|]; try reflexivity.
  apply updateAt_below.
Qed.

Lemma turn_node (n : Node) :
  forall pfx r,
    fold_left (turn changes) (pathsOfNode sel [] (List.length pfx) n)
              (pfx ++ n :: r)%list
    = (pfx ++ mapAttrs sel (fun a => Effect.applyChanges (changes a) a) n :: r)%list.
Proof.
  induction n as [t a c IH|d|d] using Node_forall_ind; intros pfx r;
    [|reflexivity..].
  assert (Hc : forall pre : list Node,
             fold_left (turn changes) (pathsFrom sel [] (List.length pre) c)
                       (pre ++ c)%list
             = (pre ++ map (mapAttrs sel (fun a => Effect.applyChanges (changes a) a)) c)%list).
  { induction IH as [|x l Hx _ IHl]; intros pre; [reflexivity|].
    cbn [pathsFrom map]. rewrite fold_left_app, Hx.
    specialize (IHl (pre ++ [mapAttrs sel (fun a => Effect.applyChanges (changes a) a) x])%list).
    rewrite length_app, Nat.add_comm in IHl. cbn [List.length Nat.add] in IHl.
    rewrite <- !app_assoc in IHl. exact IHl. }
  specialize (Hc []). cbn [app List.length] in Hc.
  rewrite pathsOfNode_normal, fold_left_app. cbn [mapAttrs].
  destruct (sel t a).
  - cbn [fold_left]. unfold turn at 2. cbn [getAt updateAt].
    rewrite nth_error_middle, replaceNth_middle. cbn [Effect.setAttrs].
    rewrite turn_below by apply pathsFrom_nonempty. now rewrite Hc.
  - cbn [fold_left].
    rewrite turn_below by apply pathsFrom_nonempty. now rewrite Hc.
Qed.

Lemma forEachAttrs_map (forest : list Node) :
  fst (Effect.forEachAttrs sel changes forest)
  = map (mapAttrs sel (fun a => Effect.applyChanges (changes a) a)) forest.
Proof.
  unfold Effect.forEachAttrs. rewrite forEachAttrs_turns. unfold querySelectorAll.
  enough (H : forall pre : list Node,
             fold_left (turn changes) (pathsFrom sel [] (List.length pre) forest)
                       (pre ++ forest)%list
             = (pre ++ map (mapAttrs sel (fun a => Effect.applyChanges (changes a) a))
                           forest)%list)
    by exact (H []).
  induction forest as [|x l IH]; intros pre; [reflexivity|].
  cbn [pathsFrom map]. rewrite fold_left_app, turn_node.
  specialize (IH (pre ++ [mapAttrs sel (fun a => Effect.applyChanges (changes a) a) x])%list).
  rewrite length_app, Nat.add_comm in IH. cbn [List.length Nat.add] in IH.
  rewrite <- !app_assoc in IH. exact IH.
Qed.

End LoopsAsMaps.

Lemma mapAttrs_ext (sel : Selector) (g g' : Attrs -> Attrs) (n : Node) :
  (forall a, g a = g' a) -> mapAttrs sel g n = mapAttrs sel g' n.
Proof.
  intros H. induction n as [t a c IH|d|d] using Node_forall_ind; [|reflexivity..].
  cbn [mapAttrs]. rewrite H. f_equal.
  induction IH as [|x l Hx _ IHl]; [reflexivity|]. cbn [map]. now rewrite Hx, IHl.
Qed.

Lemma anchorChanges_fixAnchor (P : Effect.Platform) (a : Attrs) :
  Effect.applyChanges (Effect.anchorChanges P a) a = fixAnchor (Effect.newURL P) a.
Proof.
  unfold Effect.anchorChanges, fixAnchor.
  destruct (getAttribute "href" a) as [href|]; [|reflexivity].
  destruct (truthy href && (startsWith href "tel:" || startsWith href "mailto:"));
    [reflexivity|].
  destruct (truthy href && includes href "alluredigital.net"); [|reflexivity].
  now destruct (internalHref (Effect.newURL P) href).
Qed.

Lemma mapAttrs_fixAnchors (P : Effect.Platform) (n : Node) :
  mapAttrs (fun t a => named "A" t && hasAttribute "href" a)
           (fun a => Effect.applyChanges (Effect.anchorChanges P a) a) n
  = fixAnchors (Effect.newURL P) n.
Proof.
  induction n as [t a c IH|d|d] using Node_forall_ind; [|reflexivity..].
  cbn [mapAttrs fixAnchors]. f_equal.
  - destruct (named "A" t); [|reflexivity]. cbn [andb].
    rewrite anchorChanges_fixAnchor. unfold hasAttribute, fixAnchor.
    now destruct (getAttribute "href" a).
  - induction IH as [|x l Hx _ IHl]; [reflexivity|]. cbn [map]. now rewrite Hx, IHl.
Qed.

(** X19. The loop over [a[href]] of the parsed body leaves a tree in
    which every anchor has the attributes [fixAnchor] gives it and
    nothing else has changed, whatever the order in which the static list
    of the query is gone through. *)
Theorem fixLinks_is_fixAnchors (P : Effect.Platform) (forest : list Node) :
  fst (Effect.fixLinks P forest) = map (fixAnchors (Effect.newURL P)) forest.
Proof.
  unfold Effect.fixLinks. rewrite forEachAttrs_map.
  apply map_ext. intros n. apply mapAttrs_fixAnchors.
Qed.

(** X20. The loop over [link[href]] gives every such element with a
    non-empty [href] the value of [fixAssetUrl] on it, and the loop over
    [[style*="background"]] rewrites every [url( )] of the style of
    every such element; neither changes any other attribute, element or
    text of the parsed body. *)
Theorem attribute_loops_are_maps (P : Effect.Platform) (forest : list Node) :
  fst (Effect.fixCssLinks P forest)
  = map (mapAttrs (fun t a => named "LINK" t && hasAttribute "href" a)
                  (cssLinkAttrs P)) forest /\
  fst (Effect.fixBackgrounds P forest)
  = map (mapAttrs (fun _ a => attrContains "style" "background" a)
                  (backgroundAttrs P)) forest.
Proof.
  split.
  - unfold Effect.fixCssLinks. rewrite forEachAttrs_map.
    apply map_ext. intros n. apply mapAttrs_ext. intros a.
    unfold cssLinkAttrs. destruct (getAttribute "href" a) as [href|]; [|reflexivity].
    now destruct (truthy href).
  - unfold Effect.fixBackgrounds. rewrite forEachAttrs_map.
    apply map_ext. intros n. now apply mapAttrs_ext.
Qed.

(** ** The scripts the routine waits for *)





Lemma pending_kept (env : Readiness.Env) (events : list Readiness.Event) (j : nat) :
  forall s, In j (Readiness.pending s) -> fired j events = false ->
            In j (Readiness.pending (Readiness.run env s events)).
Proof.
  induction events as [|e l IH]; intros s Hj Hf; [exact Hj|].
  unfold fired in Hf. cbn [existsb] in Hf. apply orb_false_iff in Hf as [He Hl].
  apply IH; [|exact Hl].
  assert (Hr : forall i, Nat.eqb j i = false ->
                         In j (Readiness.pending (Readiness.resolve env i s))).
  { intros i Hi. unfold Readiness.resolve.
    destruct (existsb (Nat.eqb i) (Readiness.pending s)); [|exact Hj].
    assert (Hin : In j (filter (fun k => negb (Nat.eqb i k)) (Readiness.pending s))).
    { apply filter_In. split; [exact Hj|]. now rewrite Nat.eqb_sym, Hi. }
    destruct (filter (fun k => negb (Nat.eqb i k)) (Readiness.pending s));
      [contradiction|exact Hin]. }
  destruct e as [i|i|ms|]; cbn [Readiness.step]; auto.
  now destruct (Readiness.fire _ _).
Qed.

(** X22. The wait has no time limit. As long as one of the scripts
    the routine waits for has fired neither its [load] nor its [error]
    event, [isLoading] is true, whatever else has happened and however
    much time has passed. *)
Theorem hung_script_keeps_overlay (env : Readiness.Env) (n t0 j : nat)
        (events : list Readiness.Event) :
  j < n -> fired j events = false ->
  Readiness.isLoading (Readiness.run env (Readiness.afterEffect n t0) events) = true.
Proof.
  intros Hj Hf.
  assert (Hin : In j (Readiness.pending
                        (Readiness.run env (Readiness.afterEffect n t0) events))).
  { apply pending_kept; [|exact Hf].
    cbn [Readiness.afterEffect Readiness.pending]. apply in_seq. lia. }
  destruct (consistent_run env n t0 events) as [_ H].
  destruct n as [|n]; [lia|].
  destruct (Readiness.pending _) as [|k l]; [contradiction|]. now destruct H.
Qed.

Lemma hung_script_keeps_overlay_witness :
  Readiness.isLoading
    (Readiness.run (Readiness.mkEnv false) (Readiness.afterEffect 2 1000)
       [Readiness.ScriptLoad 0; Readiness.Elapse 5000; Readiness.TimerFires])
  = true.
Proof.
  apply (hung_script_keeps_overlay _ 2 1000 1); [lia|reflexivity].
Defined.
